(** * A shallow embedding of the handwriting canvas editor

    The development follows the TypeScript sources:
    - [components/Canvas.tsx]: geometry kernel, shape synthesizer
      ([createStrokesForShape]), viewport transform, pointer handlers,
      eraser hit-testing;
    - [hooks/useHistory]: the snapshot history ([setState], [undo], [redo]);
    - [EditorView.tsx]: the document model and the page-update callbacks
      ([updateCurrentPage], [handleItemsDelete], [handleRecognize]).

    Modelling conventions.
    - A JavaScript [number] is a real number ([R]).  Rounding, NaN and the
      infinities of IEEE-754 are outside the model; [x / 0] is [0] here.
      Identifiers ([Date.now()] and offsets of it) are integers ([Z]).
    - React state is passed explicitly.  A handler reads the state of the
      render in which it was created and returns the state after its
      updates; one render separates two events.
    - [Date.now()], the DOM rectangle of the canvas and the device pixel
      ratio are inputs of the handlers that read them.
    - An object is a record: it has no key order, so two values that
      agree field by field serialise alike.  For the document snapshots
      [JSON.stringify] equality is structural equality of the modelled
      values; the history itself is stated for any serialisation. *)

From Stdlib Require Import Reals Lra Lia ZArith String List Bool.
Import ListNotations.
Open Scope R_scope.

(** ** JavaScript numbers and [Math] *)

Module JS.

Definition num_lt (a b : R) : bool := if Rlt_dec a b then true else false.
Definition num_le (a b : R) : bool := if Rle_dec a b then true else false.
Definition num_gt (a b : R) : bool := num_lt b a.
Definition num_ge (a b : R) : bool := num_le b a.
Definition num_eq (a b : R) : bool := if Req_dec_T a b then true else false.

(** [x || d] on numbers: [0] is the only falsy real. *)
Definition or_default (x d : R) : R := if Req_dec_T x 0 then d else x.

Definition Math_abs : R -> R := Rabs.
Definition Math_max : R -> R -> R := Rmax.
Definition Math_min : R -> R -> R := Rmin.
Definition Math_sqrt : R -> R := sqrt.
Definition Math_pow2 (x : R) : R := x ^ 2.
Definition Math_floor (x : R) : R := IZR (Int_part x).
Definition Math_round (x : R) : R := IZR (Int_part (x + /2)).
Definition Math_PI : R := PI.
Definition Math_cos : R -> R := cos.
Definition Math_sin : R -> R := sin.

Definition Math_sign (x : R) : R :=
  if Rlt_dec 0 x then 1 else if Rlt_dec x 0 then -1 else 0.

Definition Math_atan2 (y x : R) : R :=
  if Rlt_dec 0 x then atan (y / x)
  else if Rlt_dec x 0 then
    (if Rle_dec 0 y then atan (y / x) + PI else atan (y / x) - PI)
  else if Rlt_dec 0 y then PI / 2
  else if Rlt_dec y 0 then - (PI / 2)
  else 0.

(** The indices visited by [for (let i = 0; i <= steps; i++)]. *)
Definition range_le (steps : R) : list nat :=
  if Rlt_dec steps 0 then [] else seq 0 (S (Z.to_nat (Int_part steps))).

(** The indices visited by [for (let i = 0; i < n; i++)], [n] an integer. *)
Definition range_lt (n : nat) : list nat := seq 0 n.

End JS.

Import JS.

(** ** Data model ([Canvas.tsx], [EditorView.tsx]) *)

Record Point := mkPoint { x : R; y : R }.

Inductive StrokeTool := pen_stroke.

Record Stroke := mkStroke {
  id : Z;
  points : list Point;
  stroke_tool : StrokeTool;
  strokeWidth : R;
  color : string
}.

Record Bounds := mkBounds {
  bounds_x : R;
  bounds_y : R;
  width : R;
  height : R
}.

Inductive ShapeType :=
| rectangle | square | circle | oval | line | arrow
| triangle | rightTriangle | rhombus | parallelogram | trapezoid
| pentagon | hexagon | star
| cuboid | cone | pyramid | cylinder | sphere.

Record RecognizedText := mkText {
  text_id : Z;
  text : string;
  bounds : Bounds;
  text_fontFamily : string;
  text_fontSize : R
}.

Record ViewTransform := mkView {
  scale : R;
  offsetX : R;
  offsetY : R
}.

Inductive BackgroundType := copybook | grid | borderline | plain.

Record CanvasStyle := mkStyle {
  backgroundColor : string;
  fontFamily : string;
  fontSize : R;
  backgroundType : BackgroundType
}.

Record Page := mkPage {
  page_id : Z;
  strokes : list Stroke;
  texts : list RecognizedText
}.

Record PenSettings := mkPen { pen_size : R; pen_color : string }.
Record EraserSettings := mkEraser { eraser_size : R }.
Record ShapeSettings := mkShape {
  shape_type : ShapeType; shape_size : R; shape_color : string }.

Record ToolSettings := mkTools {
  pen : PenSettings;
  eraser : EraserSettings;
  shape : ShapeSettings
}.

Inductive AnswerLength := compact | medium | detailed.

Record AppState := mkApp {
  pages : list Page;
  currentPageIndex : nat;
  canvasStyle : CanvasStyle;
  isGlobalStyleEnabled : bool;
  isSpellingCorrectionEnabled : bool;
  toolSettings : ToolSettings;
  answerLength : AnswerLength
}.

Inductive Tool := tool_pen | tool_eraser | tool_hand | tool_select | tool_shape.

(** ** Geometry kernel and constants ([Canvas.tsx], lines 31-38) *)

Definition MIN_ZOOM : R := 0.2.
Definition MAX_ZOOM : R := 5.
Definition PADDING : R := 40.

Definition getDistance (p1 p2 : Point) : R :=
  Math_sqrt (Math_pow2 (x p2 - x p1) + Math_pow2 (y p2 - y p1)).

Definition getMidpoint (p1 p2 : Point) : Point :=
  {| x := (x p1 + x p2) / 2; y := (y p1 + y p2) / 2 |}.

Definition boundsIntersect (b1 b2 : Bounds) : bool :=
  num_lt (bounds_x b1) (bounds_x b2 + width b2)
  && num_gt (bounds_x b1 + width b1) (bounds_x b2)
  && num_lt (bounds_y b1) (bounds_y b2 + height b2)
  && num_gt (bounds_y b1 + height b1) (bounds_y b2).

Definition pointInBounds (p : Point) (b : Bounds) : bool :=
  num_ge (x p) (bounds_x b) && num_le (x p) (bounds_x b + width b)
  && num_ge (y p) (bounds_y b) && num_le (y p) (bounds_y b + height b).

(** ** Shape synthesizer ([Canvas.tsx], lines 40-190) *)

Section ShapeSynthesis.

(** [idBase = Date.now()], the drag corners, and the style of the tool. *)
Variable idBase : Z.
Variables start end_ : Point.
Variable strokeWidth0 : R.
Variable color0 : string.

Let x1 := x start.
Let y1 := y start.
Let x2 := x end_.
Let y2 := y end_.
Let w := x2 - x1.
Let h := y2 - y1.
Let cx := x1 + w / 2.
Let cy := y1 + h / 2.
Let rx := Math_abs w / 2.
Let ry := Math_abs h / 2.

Definition stroke_of (i : Z) (pts : list Point) : Stroke :=
  {| id := i; points := pts; stroke_tool := pen_stroke;
     strokeWidth := strokeWidth0; color := color0 |}.

(** The closing [if (points.length === 0) return []; return [{...}]]. *)
Definition one_stroke (pts : list Point) : list Stroke :=
  match pts with
  | [] => []
  | _ => [ stroke_of idBase pts ]
  end.

Definition ellipse_steps (radiusX radiusY : R) : R :=
  Math_max 32 (Math_floor (Math_PI * (radiusX + radiusY)) / 4).

(** One ellipse walk: [angle = (i / steps) * 2 * Math.PI]. *)
Definition ellipse_walk (steps ccx ccy radiusX radiusY : R) : list Point :=
  map (fun i =>
         let angle := (INR i / steps) * 2 * Math_PI in
         {| x := ccx + radiusX * Math_cos angle;
            y := ccy + radiusY * Math_sin angle |})
      (range_le steps).

Definition polygon_sides (type : ShapeType) : nat :=
  match type with
  | pentagon => 5 | hexagon => 6 | star => 5
  | rhombus => 4 | parallelogram => 4 | trapezoid => 4
  | _ => 0
  end.

Definition is_star (type : ShapeType) : bool :=
  match type with star => true | _ => false end.

Definition regular_walk (type : ShapeType) (radius : R) : list Point :=
  let sides := polygon_sides type in
  let angleOffset := - Math_PI / 2 in
  let pts :=
    map (fun i =>
           let r := if is_star type
                    then (if Nat.even i then radius else radius / 2.5)
                    else radius in
           let angle := angleOffset + (INR i / INR sides) * 2 * Math_PI in
           {| x := cx + r * Math_cos angle; y := cy + r * Math_sin angle |})
        (range_lt (sides * (if is_star type then 2 else 1))) in
  (* points.push(points[0]) *)
  match pts with
  | p0 :: _ => pts ++ [p0]
  | [] => pts
  end.

Definition createStrokesForShape (type : ShapeType) : list Stroke :=
  match type with
  | rectangle =>
      one_stroke [ {| x := x1; y := y1 |}; {| x := x2; y := y1 |};
               {| x := x2; y := y2 |}; {| x := x1; y := y2 |};
               {| x := x1; y := y1 |} ]
  | square =>
      let size := Math_max (Math_abs w) (Math_abs h) in
      let finalX2 := x1 + size * Math_sign (or_default w 1) in
      let finalY2 := y1 + size * Math_sign (or_default h 1) in
      one_stroke [ {| x := x1; y := y1 |}; {| x := finalX2; y := y1 |};
               {| x := finalX2; y := finalY2 |}; {| x := x1; y := finalY2 |};
               {| x := x1; y := y1 |} ]
  | circle | oval =>
      let radiusX := rx in
      let radiusY := match type with circle => rx | _ => ry end in
      if num_lt radiusX 1 || num_lt radiusY 1 then []
      else
        let steps := ellipse_steps radiusX radiusY in
        one_stroke (ellipse_walk steps cx cy radiusX radiusY)
  | line =>
      one_stroke [ {| x := x1; y := y1 |}; {| x := x2; y := y2 |} ]
  | arrow =>
      let angle := Math_atan2 (y2 - y1) (x2 - x1) in
      let arrowLength := Math_min 20 (getDistance start end_ / 3) in
      let p1 := {| x := x2; y := y2 |} in
      let p2 := {| x := x2 - arrowLength * Math_cos (angle - Math_PI / 6);
                   y := y2 - arrowLength * Math_sin (angle - Math_PI / 6) |} in
      let p3 := {| x := x2 - arrowLength * Math_cos (angle + Math_PI / 6);
                   y := y2 - arrowLength * Math_sin (angle + Math_PI / 6) |} in
      [ stroke_of idBase [ {| x := x1; y := y1 |}; {| x := x2; y := y2 |} ];
        stroke_of (idBase + 1) [ p2; p1; p3 ] ]
  | triangle =>
      let side := getDistance start end_ in
      if num_lt side 2 then []
      else
        let hh := side * Math_sqrt 3 / 2 in
        let mx := (x1 + x2) / 2 in
        let my := (y1 + y2) / 2 in
        let dx := x2 - x1 in
        let dy := y2 - y1 in
        let p3x := mx - hh * (dy / side) in
        let p3y := my + hh * (dx / side) in
        one_stroke [ {| x := x1; y := y1 |}; {| x := x2; y := y2 |};
                 {| x := p3x; y := p3y |}; {| x := x1; y := y1 |} ]
  | rightTriangle =>
      one_stroke [ {| x := x1; y := y1 |}; {| x := x1; y := y2 |};
               {| x := x2; y := y2 |}; {| x := x1; y := y1 |} ]
  | pentagon | hexagon | star | rhombus | parallelogram | trapezoid =>
      let radius := Math_sqrt (rx * rx + ry * ry) in
      if num_lt radius 2 then []
      else
        match type with
        | rhombus =>
            one_stroke [ {| x := cx; y := y1 |}; {| x := x2; y := cy |};
                     {| x := cx; y := y2 |}; {| x := x1; y := cy |};
                     {| x := cx; y := y1 |} ]
        | parallelogram =>
            let offset := rx * 0.25 in
            one_stroke [ {| x := x1 + offset; y := y1 |};
                     {| x := x2 + offset; y := y1 |};
                     {| x := x2 - offset; y := y2 |};
                     {| x := x1 - offset; y := y2 |};
                     {| x := x1 + offset; y := y1 |} ]
        | trapezoid =>
            let offset := rx * 0.25 in
            one_stroke [ {| x := x1 + offset; y := y1 |};
                     {| x := x2 - offset; y := y1 |};
                     {| x := x2; y := y2 |};
                     {| x := x1; y := y2 |};
                     {| x := x1 + offset; y := y1 |} ]
        | _ => one_stroke (regular_walk type radius)
        end
  | cuboid =>
      if num_lt (Math_abs w) 5 || num_lt (Math_abs h) 5 then []
      else
        let depthX := w * 0.4 in
        let depthY := h * -0.4 in
        let shift p := {| x := x p + depthX; y := y p + depthY |} in
        let r1_0 := {| x := x1; y := y1 |} in
        let r1_1 := {| x := x2; y := y1 |} in
        let r1_2 := {| x := x2; y := y2 |} in
        let r1_3 := {| x := x1; y := y2 |} in
        let r1 := [ r1_0; r1_1; r1_2; r1_3 ] in
        let r2 := map shift r1 in
        [ stroke_of idBase (r1 ++ [ r1_0 ]);
          stroke_of (idBase + 1) (r2 ++ [ shift r1_0 ]);
          stroke_of (idBase + 2) [ r1_0; shift r1_0 ];
          stroke_of (idBase + 3) [ r1_1; shift r1_1 ];
          stroke_of (idBase + 4) [ r1_2; shift r1_2 ];
          stroke_of (idBase + 5) [ r1_3; shift r1_3 ] ]
  | cone =>
      let radiusX := rx in
      let radiusY := Math_abs h * 0.2 in
      let apex := {| x := cx; y := y1 |} in
      let baseCy := y2 - radiusY in
      if num_lt radiusX 1 || num_lt radiusY 1 then []
      else
        let steps := ellipse_steps radiusX radiusY in
        let basePoints := ellipse_walk steps cx baseCy radiusX radiusY in
        [ stroke_of idBase basePoints;
          stroke_of (idBase + 1) [ apex; {| x := cx - radiusX; y := baseCy |} ];
          stroke_of (idBase + 2) [ apex; {| x := cx + radiusX; y := baseCy |} ] ]
  | pyramid =>
      if num_lt (Math_abs w) 5 || num_lt (Math_abs h) 5 then []
      else
        let apex := {| x := cx; y := y1 |} in
        let base0 := {| x := x1; y := y2 |} in
        let base1 := {| x := x2; y := y2 |} in
        let base3 := {| x := x1 + rx * 0.3; y := y2 - ry * 0.5 |} in
        [ stroke_of idBase [ apex; base0 ];
          stroke_of (idBase + 1) [ apex; base1 ];
          stroke_of (idBase + 2) [ apex; base3 ];
          stroke_of (idBase + 3) [ base0; base1 ];
          stroke_of (idBase + 4) [ base0; base3 ] ]
  | cylinder =>
      if num_lt rx 1 || num_lt (Math_abs h) 5 then []
      else
        let ryEllipse := Math_min ry (rx * 0.3) in
        let steps := ellipse_steps rx ryEllipse in
        let topEllipse := ellipse_walk steps cx y1 rx ryEllipse in
        let bottomEllipse := ellipse_walk steps cx y2 rx ryEllipse in
        [ stroke_of idBase topEllipse;
          stroke_of (idBase + 1) bottomEllipse;
          stroke_of (idBase + 2) [ {| x := x1; y := y1 + ryEllipse |};
                 {| x := x1; y := y2 + ryEllipse |} ];
          stroke_of (idBase + 3) [ {| x := x2; y := y1 + ryEllipse |};
                 {| x := x2; y := y2 + ryEllipse |} ] ]
  | sphere =>
      if num_lt rx 2 then []
      else
        let steps := ellipse_steps rx ry in
        let circlePoints := ellipse_walk steps cx cy rx ry in
        let hEllipse := ellipse_walk steps cx cy rx (ry * 0.3) in
        let vEllipse := ellipse_walk steps cx cy (rx * 0.3) ry in
        [ stroke_of idBase circlePoints;
          {| id := idBase + 1; points := hEllipse; stroke_tool := pen_stroke;
             strokeWidth := strokeWidth0 * 0.7; color := color0 |};
          {| id := idBase + 2; points := vEllipse; stroke_tool := pen_stroke;
             strokeWidth := strokeWidth0 * 0.7; color := color0 |} ]
  end.

End ShapeSynthesis.

(** ** History manager ([hooks/useHistory]) *)

Module History.
Section UseHistory.

(** The snapshot type, and [JSON.stringify] with its comparison [===]. *)
Variable T : Type.
Variable K : Type.
Variable stringify : T -> K.
Variable K_eq_dec : forall a b : K, {a = b} + {a <> b}.

(** The two pieces of React state of the hook. *)
Record t := mk {
  history : list T;
  index : nat
}.

(** [useState([initialState])], [useState(0)]. *)
Definition init (initialState : T) : t :=
  {| history := [initialState]; index := 0 |}.

(** [T | ((prevState: T) => T)] *)
Inductive Action :=
| Value (newState : T)
| Updater (f : T -> T).

(** [history[index]], the first component of the hook's result. *)
Definition present (h : t) : option T := nth_error (history h) (index h).

Definition canUndo (h : t) : bool := (0 <? index h)%nat.
Definition canRedo (h : t) : bool := (index h <? length (history h) - 1)%nat.

(** [setState] as created by the render that saw index [i] (lines 14-32).
    [setHistory] hands the latest history to the updater, [i] is the
    index captured by [useCallback].  Where [currentHistory[i]] is
    [undefined], a plain value is still pushed ([JSON.stringify(undefined)]
    is not a string); an updater function of this application reads
    fields of its argument and throws, which leaves the state as it was. *)
Definition setState_at (i : nat) (action : Action) (h : t) : t :=
  let currentHistory := history h in
  let push newState :=
    let newHistory := firstn (i + 1) currentHistory ++ [newState] in
    {| history := newHistory; index := length newHistory - 1 |} in
  match nth_error currentHistory i with
  | Some present =>
      let newState :=
        match action with
        | Updater f => f present
        | Value v => v
        end in
      if K_eq_dec (stringify present) (stringify newState) then h
      else push newState
  | None =>
      match action with
      | Value v => push v
      | Updater _ => h
      end
  end.

(** [redo] as created by the render that saw index [i] and history
    length [len] (lines 40-44). *)
Definition redo_at (i len : nat) (h : t) : t :=
  if (i <? len - 1)%nat then {| history := history h; index := index h + 1 |}
  else h.

(** The callbacks of the current render; [undo] is lines 34-38, where the
    guard [index > 0] keeps [prevIndex - 1] from going below 0. *)
Definition setState (action : Action) (h : t) : t :=
  setState_at (index h) action h.
Definition undo (h : t) : t :=
  if (0 <? index h)%nat then {| history := history h; index := index h - 1 |}
  else h.
Definition redo (h : t) : t := redo_at (index h) (length (history h)) h.

(** [commit(newState)] of the specification is [setState] on a value. *)
Definition commit (newState : T) (h : t) : t := setState (Value newState) h.

(** The cursor is a valid position. *)
Definition wf (h : t) : Prop := (index h < length (history h))%nat.

End UseHistory.

Arguments mk {T} _ _.
Arguments history {T} _.
Arguments index {T} _.
Arguments init {T} _.
Arguments Value {T} _.
Arguments Updater {T} _.
Arguments present {T} _.
Arguments canUndo {T} _.
Arguments canRedo {T} _.
Arguments setState_at {T K} _ _ _ _ _.
Arguments setState {T K} _ _ _ _.
Arguments commit {T K} _ _ _ _.
Arguments redo_at {T} _ _ _.
Arguments undo {T} _.
Arguments redo {T} _.
Arguments wf {T} _.

End History.

(** ** Snapshot equality

    [JSON.stringify(a) === JSON.stringify(b)] on two snapshots of the
    document holds exactly when they agree field by field: a snapshot
    stands for its own serialisation. *)

Ltac decide_fields :=
  repeat (decide equality;
          auto using Req_dec_T, string_dec, Z.eq_dec, Nat.eq_dec, bool_dec).

Definition Point_eq_dec (a b : Point) : {a = b} + {a <> b}.
Proof. decide_fields. Defined.

Definition Stroke_eq_dec (a b : Stroke) : {a = b} + {a <> b}.
Proof. decide_fields. Defined.

Definition Bounds_eq_dec (a b : Bounds) : {a = b} + {a <> b}.
Proof. decide_fields. Defined.

Definition RecognizedText_eq_dec (a b : RecognizedText) : {a = b} + {a <> b}.
Proof. decide_fields. Defined.

Definition Page_eq_dec (a b : Page) : {a = b} + {a <> b}.
Proof. decide_fields. Defined.

Definition AppState_eq_dec (a b : AppState) : {a = b} + {a <> b}.
Proof. decide_fields. Defined.

Definition JSON_stringify (s : AppState) : AppState := s.

(** ** The editor component ([EditorView.tsx]) *)

(** A callback registered with [setTimeout]. *)
Inductive TimerAction := ClearError.

Record Timeout := mkTimeout { delay : R; action : TimerAction }.

(** The state owned by [EditorView] and the part of [App]'s state it is
    handed ([isLoading], [error]), with the pending timers. *)
Record EditorState := mkEditor {
  hist : History.t AppState;
  viewTransform : ViewTransform;
  recognitionTrigger : nat;
  isLoading : bool;
  error : option string;
  timers : list Timeout
}.

Definition initialViewTransform : ViewTransform :=
  {| scale := 1; offsetX := 0; offsetY := 0 |}.

Definition initEditor (instanceState : AppState) : EditorState :=
  {| hist := History.init instanceState;
     viewTransform := initialViewTransform;
     recognitionTrigger := 0;
     isLoading := false;
     error := None;
     timers := [] |}.

Definition with_hist (ed : EditorState) (h : History.t AppState) : EditorState :=
  {| hist := h; viewTransform := viewTransform ed;
     recognitionTrigger := recognitionTrigger ed;
     isLoading := isLoading ed; error := error ed; timers := timers ed |}.

Definition with_view (ed : EditorState) (v : ViewTransform) : EditorState :=
  {| hist := hist ed; viewTransform := v;
     recognitionTrigger := recognitionTrigger ed;
     isLoading := isLoading ed; error := error ed; timers := timers ed |}.

(** [pages[currentPageIndex]] *)
Definition currentPage (s : AppState) : option Page :=
  nth_error (pages s) (currentPageIndex s).

Definition with_pages (s : AppState) (ps : list Page) : AppState :=
  {| pages := ps; currentPageIndex := currentPageIndex s;
     canvasStyle := canvasStyle s;
     isGlobalStyleEnabled := isGlobalStyleEnabled s;
     isSpellingCorrectionEnabled := isSpellingCorrectionEnabled s;
     toolSettings := toolSettings s; answerLength := answerLength s |}.

(** [newPages[i] = p] for an index inside the array. *)
Fixpoint array_set {A} (l : list A) (i : nat) (v : A) : list A :=
  match l, i with
  | [], _ => []
  | _ :: tl, O => v :: tl
  | a :: tl, S j => a :: array_set tl j v
  end.

(** The state updater built by [updateCurrentPage] (lines 136-142).  With
    no page at the current index the page updaters modelled below read a
    field of [undefined] and throw: the state stays as it was. *)
Definition currentPageUpdater (updater : Page -> Page) (currentState : AppState)
  : AppState :=
  match currentPage currentState with
  | Some page =>
      with_pages currentState
        (array_set (pages currentState) (currentPageIndex currentState)
                   (updater page))
  | None => currentState
  end.

(** [updateCurrentPage] of the render that saw history index [i]. *)
Definition updateCurrentPage (i : nat) (updater : Page -> Page)
           (h : History.t AppState) : History.t AppState :=
  History.setState_at JSON_stringify AppState_eq_dec i
    (History.Updater (currentPageUpdater updater)) h.

(** [handleSetStrokes] (lines 164-169), for a functional update. *)
Definition handleSetStrokes (i : nat) (updater : list Stroke -> list Stroke)
           (h : History.t AppState) : History.t AppState :=
  updateCurrentPage i
    (fun page => {| page_id := page_id page;
                    strokes := updater (strokes page);
                    texts := texts page |}) h.

(** [handleTextUpdate] (lines 171-178). *)
Definition handleTextUpdate (i : nat) (textId : Z) (newBounds : Bounds)
           (h : History.t AppState) : History.t AppState :=
  updateCurrentPage i
    (fun page =>
       {| page_id := page_id page;
          strokes := strokes page;
          texts := map (fun t =>
                          if Z.eqb (text_id t) textId
                          then {| text_id := text_id t; text := text t;
                                  bounds := newBounds;
                                  text_fontFamily := text_fontFamily t;
                                  text_fontSize := text_fontSize t |}
                          else t) (texts page) |}) h.

(** [new Set(ids).has(k)] *)
Definition Set_has (s : list Z) (k : Z) : bool := existsb (Z.eqb k) s.

(** [set.add(k)]: a [Set] keeps the first insertion of a key, in order. *)
Definition Set_add (s : list Z) (k : Z) : list Z :=
  if Set_has s k then s else s ++ [k].

Record DeleteRequest := mkDelete {
  strokeIds : list Z;
  textIds : list Z
}.

(** [handleItemsDelete] (lines 180-189). *)
Definition handleItemsDelete (i : nat) (ids : DeleteRequest)
           (h : History.t AppState) : History.t AppState :=
  match strokeIds ids, textIds ids with
  | [], [] => h
  | _, _ =>
      let strokeIdSet := fold_left Set_add (strokeIds ids) [] in
      let textIdSet := fold_left Set_add (textIds ids) [] in
      updateCurrentPage i
        (fun page =>
           {| page_id := page_id page;
              strokes := filter (fun s => negb (Set_has strokeIdSet (id s)))
                                (strokes page);
              texts := filter (fun t => negb (Set_has textIdSet (text_id t)))
                              (texts page) |}) h
  end.

(** The result of awaiting [recognizeHandwriting]: the promise resolves
    with the trimmed text or rejects (the service rethrows every failure). *)
Inductive Outcome :=
| Resolved (result : string)
| Rejected.

(** What [handleRecognize] captured from its render (line 223). *)
Record RecognizeClosure := mkClosure {
  closure_isLoading : bool;
  closure_index : nat;
  closure_state : AppState
}.

Definition closure_of (ed : EditorState) (s : AppState) : RecognizeClosure :=
  {| closure_isLoading := isLoading ed;
     closure_index := History.index (hist ed);
     closure_state := s |}.

(** [handleRecognize] up to its [await] (lines 192-198): [None] when the
    call returns at once, otherwise the state after [setIsLoading(true)]
    and [setError(null)]. *)
Definition handleRecognize_begin (c : RecognizeClosure) (ed : EditorState)
  : option EditorState :=
  if closure_isLoading c then None
  else Some {| hist := hist ed; viewTransform := viewTransform ed;
               recognitionTrigger := recognitionTrigger ed;
               isLoading := true; error := None; timers := timers ed |}.

(** [handleRecognize] from the settlement of the promise to its end
    (lines 200-222); [now] is [Date.now()] at that moment. *)
Definition handleRecognize_settle (c : RecognizeClosure) (now : Z)
           (bounds0 : Bounds) (o : Outcome) (ed : EditorState) : EditorState :=
  match o with
  | Resolved result =>
      let style := canvasStyle (closure_state c) in
      let finalBounds :=
        match backgroundType style with
        | copybook =>
            let lineSpacing := 80 in
            let originalBaselineY := bounds_y bounds0 + fontSize style in
            let nearestLineY :=
              Math_round (originalBaselineY / lineSpacing) * lineSpacing in
            {| bounds_x := bounds_x bounds0;
               bounds_y := nearestLineY - fontSize style;
               width := width bounds0; height := height bounds0 |}
        | _ => bounds0
        end in
      let newText :=
        {| text_id := now; text := result; bounds := finalBounds;
           text_fontFamily := fontFamily style;
           text_fontSize := fontSize style |} in
      let h' :=
        updateCurrentPage (closure_index c)
          (fun page => {| page_id := page_id page; strokes := [];
                          texts := texts page ++ [newText] |})
          (hist ed) in
      {| hist := h'; viewTransform := viewTransform ed;
         recognitionTrigger := recognitionTrigger ed;
         isLoading := false; error := error ed; timers := timers ed |}
  | Rejected =>
      {| hist := hist ed; viewTransform := viewTransform ed;
         recognitionTrigger := recognitionTrigger ed;
         isLoading := false;
         error := Some "Failed to recognize handwriting. Please try again."%string;
         timers := timers ed ++ [ {| delay := 5000; action := ClearError |} ] |}
  end.

(** The oldest pending timer fires. *)
Definition fireTimeout (ed : EditorState) : EditorState :=
  match timers ed with
  | [] => ed
  | {| action := ClearError |} :: rest =>
      {| hist := hist ed; viewTransform := viewTransform ed;
         recognitionTrigger := recognitionTrigger ed;
         isLoading := isLoading ed; error := None; timers := rest |}
  end.

(** [handleResetSettings] (lines 230-249). *)
Definition handleResetSettings (ed : EditorState) : EditorState :=
  let initialCanvasStyle :=
    {| backgroundColor := "#fef3c7"%string; fontFamily := "Caveat"%string;
       fontSize := 48; backgroundType := copybook |} in
  let initialToolSettings :=
    {| pen := {| pen_size := 5; pen_color := "#333333"%string |};
       eraser := {| eraser_size := 20 |};
       shape := {| shape_type := rectangle; shape_size := 5;
                   shape_color := "#333333"%string |} |} in
  let h' :=
    History.setState JSON_stringify AppState_eq_dec
      (History.Updater (fun currentState =>
         {| pages := pages currentState;
            currentPageIndex := currentPageIndex currentState;
            canvasStyle := initialCanvasStyle;
            isGlobalStyleEnabled := false;
            isSpellingCorrectionEnabled := false;
            toolSettings := initialToolSettings;
            answerLength := compact |}))
      (hist ed) in
  with_view (with_hist ed h') initialViewTransform.

(** ** The canvas component ([components/Canvas.tsx], lines 192-663) *)

Record DOMRect := mkRect { rect_left : R; rect_top : R }.

(** What a handler reads from the browser: [canvasRef.current] with its
    bounding rectangle, [window.devicePixelRatio] and [Date.now()]. *)
Record Env := mkEnv {
  canvas : option DOMRect;
  devicePixelRatio : R;
  now : Z
}.

Inductive PointerType := mouse | stylus | touch.

Record PointerEvent := mkPointerEvent {
  pointerId : Z;
  pointerType : PointerType;
  button : Z;
  clientX : R;
  clientY : R;
  movementX : R;
  movementY : R
}.

Record WheelEvent := mkWheelEvent {
  wheel_clientX : R;
  wheel_clientY : R;
  deltaY : R
}.

Record DraggedItem := mkDragged {
  dragged_id : Z;
  initialBounds : Bounds;
  startPoint : Point
}.

Record Gesture := mkGesture { dist : R; mid : Point }.

Record DrawingShape := mkDrawing { shape_start : Point; shape_end : Point }.

(** Refs and local state of the component (lines 200-213).  [pointers] is
    the [Map] from pointer id to the last client position, in insertion
    order. *)
Record CanvasState := mkCanvas {
  pointers : list (Z * Point);
  lastGesture : option Gesture;
  isDrawing : bool;
  currentStrokePoints : list Point;
  latestPointerPosition : Point;
  draggedItem : option DraggedItem;
  isHoveringText : bool;
  selectionRect : option Bounds;
  selectionStartPoint : option Point;
  drawingShape : option DrawingShape
}.

Definition initCanvas : CanvasState :=
  {| pointers := []; lastGesture := None; isDrawing := false;
     currentStrokePoints := [];
     latestPointerPosition := {| x := 0; y := 0 |};
     draggedItem := None; isHoveringText := false;
     selectionRect := None; selectionStartPoint := None;
     drawingShape := None |}.

(** [Map] operations on [pointers]. *)
Definition Map_has (m : list (Z * Point)) (k : Z) : bool :=
  existsb (fun kv => Z.eqb (fst kv) k) m.

Definition Map_set (m : list (Z * Point)) (k : Z) (v : Point)
  : list (Z * Point) :=
  if Map_has m k
  then map (fun kv => if Z.eqb (fst kv) k then (k, v) else kv) m
  else m ++ [(k, v)].

Definition Map_delete (m : list (Z * Point)) (k : Z) : list (Z * Point) :=
  filter (fun kv => negb (Z.eqb (fst kv) k)) m.

Definition Map_values (m : list (Z * Point)) : list Point := map snd m.

(** A component instance: the tool chosen in [App], the editor and the
    canvas below it. *)
Record World := mkWorld {
  tool : Tool;
  editor : EditorState;
  cv : CanvasState
}.


(** [window.devicePixelRatio || 1] *)
Definition dpr_of (env : Env) : R := or_default (devicePixelRatio env) 1.

(** [getPointInWorldSpace] (lines 215-231). *)
Definition getPointInWorldSpace (env : Env) (vt : ViewTransform)
           (eClientX eClientY : R) : Point :=
  match canvas env with
  | None => {| x := 0; y := 0 |}
  | Some rect =>
      let dpr := dpr_of env in
      let cssX := eClientX - rect_left rect in
      let cssY := eClientY - rect_top rect in
      let physicalX := cssX * dpr in
      let physicalY := cssY * dpr in
      let worldX := (physicalX - offsetX vt) / scale vt in
      let worldY := (physicalY - offsetY vt) / scale vt in
      {| x := worldX; y := worldY |}
  end.

(** The deletion batch computed by [eraseAtPoint] (lines 399-416). *)
Definition strokeIdsToDelete (eraserRadius : R) (strokes0 : list Stroke)
           (point : Point) : list Z :=
  fold_left
    (fun acc stroke =>
       let strokeWidth1 := strokeWidth stroke / 2 in
       if existsb (fun p => num_lt (getDistance p point)
                                   (eraserRadius + strokeWidth1))
                  (points stroke)
       then Set_add acc (id stroke) else acc)
    strokes0 [].

Definition textIdsToDelete (eraserRadius : R) (texts0 : list RecognizedText)
           (point : Point) : list Z :=
  fold_left
    (fun acc t =>
       let bx := bounds_x (bounds t) in
       let by_ := bounds_y (bounds t) in
       let bw := width (bounds t) in
       let bh := height (bounds t) in
       if num_gt (x point) (bx - eraserRadius)
          && num_lt (x point) (bx + bw + eraserRadius)
          && num_gt (y point) (by_ - eraserRadius)
          && num_lt (y point) (by_ + bh + eraserRadius)
       then Set_add acc (text_id t) else acc)
    texts0 [].

(** The argument [eraseAtPoint] passes to [onItemsDelete], or [None] when
    the callback is not invoked (lines 417-419). *)
Definition eraseRequest (settings : ToolSettings) (strokes0 : list Stroke)
           (texts0 : list RecognizedText) (point : Point)
  : option DeleteRequest :=
  let size := eraser_size (eraser settings) in
  let eraserRadius := size / 2 in
  let sIds := strokeIdsToDelete eraserRadius strokes0 point in
  let tIds := textIdsToDelete eraserRadius texts0 point in
  if (0 <? length sIds)%nat || (0 <? length tIds)%nat
  then Some {| strokeIds := sIds; textIds := tIds |}
  else None.

(** [eraseAtPoint] wired to [handleItemsDelete], as [EditorView] renders
    it: [page] is the current page of the snapshot [st] on display. *)
Definition eraseAtPoint (st : AppState) (page : Page) (point : Point)
           (i : nat) (h : History.t AppState) : History.t AppState :=
  match eraseRequest (toolSettings st) (strokes page) (texts page) point with
  | Some ids => handleItemsDelete i ids h
  | None => h
  end.

(** Updates of single fields of the canvas state. *)
Definition set_pointers (c : CanvasState) (v : list (Z * Point)) :=
  mkCanvas v (lastGesture c) (isDrawing c) (currentStrokePoints c)
           (latestPointerPosition c) (draggedItem c) (isHoveringText c)
           (selectionRect c) (selectionStartPoint c) (drawingShape c).
Definition set_lastGesture (c : CanvasState) (v : option Gesture) :=
  mkCanvas (pointers c) v (isDrawing c) (currentStrokePoints c)
           (latestPointerPosition c) (draggedItem c) (isHoveringText c)
           (selectionRect c) (selectionStartPoint c) (drawingShape c).
Definition set_isDrawing (c : CanvasState) (v : bool) :=
  mkCanvas (pointers c) (lastGesture c) v (currentStrokePoints c)
           (latestPointerPosition c) (draggedItem c) (isHoveringText c)
           (selectionRect c) (selectionStartPoint c) (drawingShape c).
Definition set_currentStrokePoints (c : CanvasState) (v : list Point) :=
  mkCanvas (pointers c) (lastGesture c) (isDrawing c) v
           (latestPointerPosition c) (draggedItem c) (isHoveringText c)
           (selectionRect c) (selectionStartPoint c) (drawingShape c).
Definition set_latestPointerPosition (c : CanvasState) (v : Point) :=
  mkCanvas (pointers c) (lastGesture c) (isDrawing c) (currentStrokePoints c)
           v (draggedItem c) (isHoveringText c)
           (selectionRect c) (selectionStartPoint c) (drawingShape c).
Definition set_draggedItem (c : CanvasState) (v : option DraggedItem) :=
  mkCanvas (pointers c) (lastGesture c) (isDrawing c) (currentStrokePoints c)
           (latestPointerPosition c) v (isHoveringText c)
           (selectionRect c) (selectionStartPoint c) (drawingShape c).
Definition set_isHoveringText (c : CanvasState) (v : bool) :=
  mkCanvas (pointers c) (lastGesture c) (isDrawing c) (currentStrokePoints c)
           (latestPointerPosition c) (draggedItem c) v
           (selectionRect c) (selectionStartPoint c) (drawingShape c).
Definition set_selectionRect (c : CanvasState) (v : option Bounds) :=
  mkCanvas (pointers c) (lastGesture c) (isDrawing c) (currentStrokePoints c)
           (latestPointerPosition c) (draggedItem c) (isHoveringText c)
           v (selectionStartPoint c) (drawingShape c).
Definition set_selectionStartPoint (c : CanvasState) (v : option Point) :=
  mkCanvas (pointers c) (lastGesture c) (isDrawing c) (currentStrokePoints c)
           (latestPointerPosition c) (draggedItem c) (isHoveringText c)
           (selectionRect c) v (drawingShape c).
Definition set_drawingShape (c : CanvasState) (v : option DrawingShape) :=
  mkCanvas (pointers c) (lastGesture c) (isDrawing c) (currentStrokePoints c)
           (latestPointerPosition c) (draggedItem c) (isHoveringText c)
           (selectionRect c) (selectionStartPoint c) v.

Definition Tool_eqb (a b : Tool) : bool :=
  match a, b with
  | tool_pen, tool_pen | tool_eraser, tool_eraser | tool_hand, tool_hand
  | tool_select, tool_select | tool_shape, tool_shape => true
  | _, _ => false
  end.

(** The component is on screen while the history has a snapshot at its
    cursor and that snapshot has a current page; a handler runs with both
    (the props [strokes], [texts], [toolSettings], [canvasStyle]). *)
Definition with_render (w : World) (k : AppState -> Page -> World) : World :=
  match History.present (hist (editor w)) with
  | Some st =>
      match currentPage st with
      | Some page => k st page
      | None => w
      end
  | None => w
  end.

(** [handlePointerDown] (lines 422-452).  The early [return] of the text
    pick happens with one pointer down, where the two-pointer block that
    follows does nothing. *)
Definition handlePointerDown (env : Env) (e : PointerEvent) (w : World) : World :=
  with_render w (fun st page =>
    let c := cv w in
    let ed := editor w in
    let i := History.index (hist ed) in
    match pointerType e, Z.eqb (button e) 0 with
    | mouse, false => w
    | _, _ =>
        let pointers1 :=
          Map_set (pointers c) (pointerId e)
                  {| x := clientX e; y := clientY e |} in
        let point :=
          getPointInWorldSpace env (viewTransform ed) (clientX e) (clientY e) in
        let c1 := set_latestPointerPosition (set_pointers c pointers1) point in
        let '(ed2, c2) :=
          if Nat.eqb (length pointers1) 1 then
            let c1a := set_selectionRect c1 None in
            let textToDrag :=
              if Tool_eqb (tool w) tool_hand
              then find (fun t => pointInBounds point (bounds t))
                        (rev (texts page))
              else None in
            match textToDrag with
            | Some t =>
                (ed, set_draggedItem c1a
                       (Some {| dragged_id := text_id t;
                                initialBounds := bounds t;
                                startPoint := point |}))
            | None =>
                match tool w with
                | tool_pen =>
                    (ed, set_currentStrokePoints (set_isDrawing c1a true) [point])
                | tool_eraser =>
                    (with_hist ed (eraseAtPoint st page point i (hist ed)), c1a)
                | tool_select =>
                    (ed, set_selectionStartPoint c1a (Some point))
                | tool_shape =>
                    (ed, set_drawingShape (set_isDrawing c1a true)
                           (Some {| shape_start := point; shape_end := point |}))
                | tool_hand => (ed, c1a)
                end
            end
          else (ed, c1) in
        let c3 :=
          if Nat.eqb (length pointers1) 2 then
            match Map_values pointers1 with
            | p1 :: p2 :: _ =>
                set_lastGesture c2 (Some {| dist := getDistance p1 p2;
                                            mid := getMidpoint p1 p2 |})
            | _ => c2
            end
          else c2 in
        {| tool := tool w; editor := ed2; cv := c3 |}
    end).

(** The transform that the two-pointer block of [handlePointerMove] hands
    to [setViewTransform] (lines 489-512): zoom by the ratio of the finger
    distances about the midpoint, then pan by the midpoint's movement. *)
Definition pinchTransform (rect : DOMRect) (dpr : R) (vt : ViewTransform)
           (lg : Gesture) (currentDist : R) (currentMid : Point)
  : ViewTransform :=
  let scaleFactor := currentDist / dist lg in
  let newScale :=
    Math_min (Math_max (scale vt * scaleFactor) MIN_ZOOM) MAX_ZOOM in
  let physicalX := (x currentMid - rect_left rect) * dpr in
  let physicalY := (y currentMid - rect_top rect) * dpr in
  let newOffsetX :=
    physicalX - (physicalX - offsetX vt) * (newScale / scale vt) in
  let newOffsetY :=
    physicalY - (physicalY - offsetY vt) * (newScale / scale vt) in
  let panDX := (x currentMid - x (mid lg)) * dpr in
  let panDY := (y currentMid - y (mid lg)) * dpr in
  {| scale := newScale;
     offsetX := newOffsetX + panDX;
     offsetY := newOffsetY + panDY |}.

(** [handlePointerMove] (lines 454-516). *)
Definition handlePointerMove (env : Env) (e : PointerEvent) (w : World) : World :=
  with_render w (fun st page =>
    let c := cv w in
    let ed := editor w in
    let vt := viewTransform ed in
    let i := History.index (hist ed) in
    let W ed' c' := {| tool := tool w; editor := ed'; cv := c' |} in
    let point := getPointInWorldSpace env vt (clientX e) (clientY e) in
    let c1 := set_latestPointerPosition c point in
    if negb (Map_has (pointers c) (pointerId e)) then W ed c1
    else
      let pointers1 :=
        Map_set (pointers c) (pointerId e)
                {| x := clientX e; y := clientY e |} in
      let c2 := set_pointers c1 pointers1 in
      match draggedItem c with
      | Some _ => W ed c2
      | None =>
          if Nat.eqb (length pointers1) 1 then
            let c3 :=
              if negb (isDrawing c) && Tool_eqb (tool w) tool_hand
              then set_isHoveringText c2
                     (existsb (fun t => pointInBounds point (bounds t))
                              (texts page))
              else if isHoveringText c then set_isHoveringText c2 false
              else c2 in
            if isDrawing c && Tool_eqb (tool w) tool_pen then
              W ed (set_currentStrokePoints c3
                      (currentStrokePoints c3 ++ [point]))
            else if isDrawing c && Tool_eqb (tool w) tool_shape then
              W ed (set_drawingShape c3
                      (match drawingShape c with
                       | Some prev =>
                           Some {| shape_start := shape_start prev;
                                   shape_end := point |}
                       | None => None
                       end))
            else if Tool_eqb (tool w) tool_eraser then
              W (with_hist ed (eraseAtPoint st page point i (hist ed))) c3
            else if Tool_eqb (tool w) tool_hand then
              match Map_values pointers1 with
              | p :: _ =>
                  let lastP := {| x := clientX e - movementX e;
                                  y := clientY e - movementY e |} in
                  let dpr := dpr_of env in
                  let dx := (x p - x lastP) * dpr in
                  let dy := (y p - y lastP) * dpr in
                  W (with_view ed {| scale := scale vt;
                                     offsetX := offsetX vt + dx;
                                     offsetY := offsetY vt + dy |}) c3
              | [] => W ed c3
              end
            else if Tool_eqb (tool w) tool_select then
              match selectionStartPoint c3 with
              | Some start =>
                  let sx := Math_min (x start) (x point) in
                  let sy := Math_min (y start) (y point) in
                  let sw := Math_abs (x start - x point) in
                  let sh := Math_abs (y start - y point) in
                  W ed (set_selectionRect c3
                          (Some {| bounds_x := sx; bounds_y := sy;
                                   width := sw; height := sh |}))
              | None => W ed c3
              end
            else W ed c3
          else if Nat.eqb (length pointers1) 2 then
            match lastGesture c2, Map_values pointers1 with
            | Some lg, p1 :: p2 :: _ =>
                let currentDist := getDistance p1 p2 in
                let currentMid := getMidpoint p1 p2 in
                match canvas env with
                | None => W ed c2
                | Some rect =>
                    W (with_view ed
                         (pinchTransform rect (dpr_of env) vt lg
                                         currentDist currentMid))
                      (set_lastGesture c2
                         (Some {| dist := currentDist; mid := currentMid |}))
                end
            | _, _ => W ed c2
            end
          else W ed c2
      end).

(** [handlePointerUp] (lines 518-561), also bound to [onPointerCancel].
    Its page updates all go through the [setState] of the current render. *)
Definition handlePointerUp (env : Env) (e : PointerEvent) (w : World) : World :=
  with_render w (fun st page =>
    let c := cv w in
    let ed := editor w in
    let i := History.index (hist ed) in
    let h := hist ed in
    let c1 :=
      set_isDrawing
        (set_lastGesture
           (set_pointers c (Map_delete (pointers c) (pointerId e))) None)
        false in
    let '(h1, c2) :=
      match draggedItem c with
      | Some d =>
          let h1 :=
            match find (fun t => Z.eqb (text_id t) (dragged_id d))
                       (texts page) with
            | Some text0 =>
                let currentPoint :=
                  getPointInWorldSpace env (viewTransform ed)
                                       (clientX e) (clientY e) in
                let dx := x currentPoint - x (startPoint d) in
                let dy := y currentPoint - y (startPoint d) in
                let newY := bounds_y (initialBounds d) + dy in
                let snappedY :=
                  match backgroundType (canvasStyle st) with
                  | copybook =>
                      let lineSpacing := 80 in
                      let newBaselineY := newY + text_fontSize text0 in
                      let nearestLineY :=
                        Math_round (newBaselineY / lineSpacing) * lineSpacing in
                      nearestLineY - text_fontSize text0
                  | _ => newY
                  end in
                let newBounds :=
                  {| bounds_x := bounds_x (initialBounds d) + dx;
                     bounds_y := snappedY;
                     width := width (initialBounds d);
                     height := height (initialBounds d) |} in
                handleTextUpdate i (dragged_id d) newBounds h
            | None => h
            end in
          (h1, set_draggedItem c1 None)
      | None => (h, c1)
      end in
    let h2 :=
      if Tool_eqb (tool w) tool_pen
         && (1 <? length (currentStrokePoints c))%nat
      then
        let newStroke :=
          {| id := now env; points := currentStrokePoints c;
             stroke_tool := pen_stroke;
             strokeWidth := pen_size (pen (toolSettings st));
             color := pen_color (pen (toolSettings st)) |} in
        handleSetStrokes i (fun prev => prev ++ [newStroke]) h1
      else h1 in
    let c3 := set_currentStrokePoints c2 [] in
    let '(h3, c4) :=
      match Tool_eqb (tool w) tool_shape, drawingShape c with
      | true, Some ds =>
          let sh := shape (toolSettings st) in
          let newStrokes :=
            createStrokesForShape (now env) (shape_start ds) (shape_end ds)
                                  (shape_size sh) (shape_color sh)
                                  (shape_type sh) in
          let h3 :=
            if (0 <? length newStrokes)%nat
            then handleSetStrokes i (fun prev => prev ++ newStrokes) h2
            else h2 in
          (h3, set_drawingShape c3 None)
      | _, _ => (h2, c3)
      end in
    let c5 :=
      if Tool_eqb (tool w) tool_select then
        let c4a := set_selectionStartPoint c4 None in
        match selectionRect c with
        | Some r =>
            if num_lt (width r) 10 || num_lt (height r) 10
            then set_selectionRect c4a None
            else c4a
        | None => c4a
        end
      else c4 in
    {| tool := tool w; editor := with_hist ed h3; cv := c5 |}).

(** The [onPointerLeave] handler (lines 645-649). *)
Definition handlePointerLeave (env : Env) (e : PointerEvent) (w : World) : World :=
  let w1 :=
    {| tool := tool w; editor := editor w;
       cv := set_pointers (cv w) (Map_delete (pointers (cv w)) (pointerId e)) |} in
  let w2 := if isDrawing (cv w) then handlePointerUp env e w1 else w1 in
  {| tool := tool w2; editor := editor w2;
     cv := set_isHoveringText (cv w2) false |}.

(** [handleWheel] (lines 598-610). *)
Definition handleWheel (env : Env) (e : WheelEvent) (vt : ViewTransform)
  : ViewTransform :=
  match canvas env with
  | None => vt
  | Some rect =>
      let dpr := dpr_of env in
      let physicalX := (wheel_clientX e - rect_left rect) * dpr in
      let physicalY := (wheel_clientY e - rect_top rect) * dpr in
      let scroll := deltaY e * -0.005 in
      let newScale :=
        Math_min (Math_max (scale vt * (1 + scroll)) MIN_ZOOM) MAX_ZOOM in
      let zoomFactor := newScale / scale vt in
      let newOffsetX := physicalX - (physicalX - offsetX vt) * zoomFactor in
      let newOffsetY := physicalY - (physicalY - offsetY vt) * zoomFactor in
      {| scale := newScale; offsetX := newOffsetX; offsetY := newOffsetY |}
  end.

(** ** Events *)

Inductive Event :=
| PointerDown (e : PointerEvent)
| PointerMove (e : PointerEvent)
| PointerUp (e : PointerEvent)
| PointerCancel (e : PointerEvent)
| PointerLeave (e : PointerEvent)
| Wheel (e : WheelEvent)
| Undo
| Redo
| SetTool (t : Tool)
| ResetSettings
| TimeoutFired.

Definition step (w : World) (input : Env * Event) : World :=
  let env := fst input in
  let on_editor f := {| tool := tool w; editor := f (editor w); cv := cv w |} in
  match snd input with
  | PointerDown e => handlePointerDown env e w
  | PointerMove e => handlePointerMove env e w
  | PointerUp e | PointerCancel e => handlePointerUp env e w
  | PointerLeave e => handlePointerLeave env e w
  | Wheel e =>
      on_editor (fun ed => with_view ed (handleWheel env e (viewTransform ed)))
  | Undo => on_editor (fun ed => with_hist ed (History.undo (hist ed)))
  | Redo => on_editor (fun ed => with_hist ed (History.redo (hist ed)))
  | SetTool t => {| tool := t; editor := editor w; cv := cv w |}
  | ResetSettings => on_editor handleResetSettings
  | TimeoutFired => on_editor fireTimeout
  end.

Definition run (w : World) (inputs : list (Env * Event)) : World :=
  fold_left step inputs w.

(** The zoom invariant of the data model. *)
Definition zoom_in_range (vt : ViewTransform) : Prop :=
  MIN_ZOOM <= scale vt <= MAX_ZOOM.

(** ** Vocabulary of the properties *)

(** The kinds whose branch of [createStrokesForShape] tests the size of
    the drag before it builds anything. *)
Definition guarded (type : ShapeType) : bool :=
  match type with
  | rectangle | square | line | arrow | rightTriangle => false
  | _ => true
  end.

(** The history that [History.setState_at i] builds when it appends [s]. *)
Definition pushed {T} (i : nat) (s : T) (h : History.t T) : History.t T :=
  History.mk (firstn (i + 1) (History.history h) ++ [s])
             (length (firstn (i + 1) (History.history h) ++ [s]) - 1).

(** The world is on screen: the history has a snapshot [st] at its cursor
    and [st] has a current page [page]. *)
Definition on_screen (w : World) (st : AppState) (page : Page) : Prop :=
  History.present (hist (editor w)) = Some st /\ currentPage st = Some page.

(** Some point of the stroke lies strictly within the eraser radius plus
    half the stroke width of the query point. *)
Definition stroke_within (eraserRadius : R) (point : Point) (s : Stroke) : Prop :=
  exists p, In p (points s)
            /\ getDistance p point < eraserRadius + strokeWidth s / 2.

(** The query point lies strictly inside the bounds of the text inflated
    by the eraser radius on all sides. *)
Definition text_within (eraserRadius : R) (point : Point) (t : RecognizedText)
  : Prop :=
  bounds_x (bounds t) - eraserRadius < x point
  /\ x point < bounds_x (bounds t) + width (bounds t) + eraserRadius
  /\ bounds_y (bounds t) - eraserRadius < y point
  /\ y point < bounds_y (bounds t) + height (bounds t) + eraserRadius.

(** [fireTimeout], [n] times. *)
Fixpoint fireTimeouts (n : nat) (ed : EditorState) : EditorState :=
  match n with
  | O => ed
  | S k => fireTimeouts k (fireTimeout ed)
  end.

(** ** Initial and sample values *)

(** [createInitialState] of [App.tsx]; [time] is [Date.now()]. *)
Definition createInitialState (time : Z) : AppState :=
  {| pages := [ {| page_id := time; strokes := []; texts := [] |} ];
     currentPageIndex := 0;
     canvasStyle :=
       {| backgroundColor := "#fef3c7"%string; fontFamily := "Caveat"%string;
          fontSize := 48; backgroundType := copybook |};
     isGlobalStyleEnabled := false;
     isSpellingCorrectionEnabled := false;
     toolSettings :=
       {| pen := {| pen_size := 5; pen_color := "#333333"%string |};
          eraser := {| eraser_size := 20 |};
          shape := {| shape_type := rectangle; shape_size := 5;
                      shape_color := "#333333"%string |} |};
     answerLength := compact |}.

(** A page with a stroke through the origin, a stroke far from it and a
    text far from it. *)
Definition near_stroke : Stroke :=
  {| id := 1; points := [ mkPoint 0 0; mkPoint 3 4 ]; stroke_tool := pen_stroke;
     strokeWidth := 5; color := "#333333" |}.

Definition far_stroke : Stroke :=
  {| id := 2; points := [ mkPoint 500 500; mkPoint 510 500 ];
     stroke_tool := pen_stroke; strokeWidth := 5; color := "#333333" |}.

Definition far_text : RecognizedText :=
  {| text_id := 3; text := "abc";
     bounds := {| bounds_x := 1000; bounds_y := 1000; width := 80; height := 48 |};
     text_fontFamily := "Caveat"; text_fontSize := 48 |}.

Definition sample_page : Page :=
  {| page_id := 0; strokes := [ near_stroke; far_stroke ]; texts := [ far_text ] |}.

Definition far_page : Page :=
  {| page_id := 0; strokes := [ far_stroke ]; texts := [ far_text ] |}.

Definition state_with (page : Page) : AppState :=
  with_pages (createInitialState 0) [ page ].

Definition world_with (t : Tool) (page : Page) (c : CanvasState) : World :=
  {| tool := t; editor := initEditor (state_with page); cv := c |}.

Definition sample_env : Env :=
  {| canvas := Some {| rect_left := 0; rect_top := 0 |};
     devicePixelRatio := 1; now := 1000 |}.

Definition sample_pointer : PointerEvent :=
  {| pointerId := 1; pointerType := touch; button := 0;
     clientX := 0; clientY := 0; movementX := 0; movementY := 0 |}.

(** The canvas while the select tool has dragged out a 5 by 50 rectangle. *)
Definition selecting_canvas : CanvasState :=
  set_selectionRect
    (set_selectionStartPoint
       (set_pointers initCanvas [ (1%Z, mkPoint 5 50) ])
       (Some (mkPoint 0 0)))
    (Some {| bounds_x := 0; bounds_y := 0; width := 5; height := 50 |}).

Definition small_rect : Bounds :=
  {| bounds_x := 0; bounds_y := 0; width := 5; height := 50 |}.

Definition selecting_world : World :=
  world_with tool_select sample_page selecting_canvas.

Definition erasing_world : World := world_with tool_eraser far_page initCanvas.

Definition sample_state : AppState := state_with sample_page.

Definition sample_hist : History.t AppState := History.init sample_state.

(** A history of numbers after one undo, compared by value. *)
Definition number_history : History.t nat := History.mk [1; 2; 3]%nat 1.

Definition commit_number : nat -> History.t nat -> History.t nat :=
  History.commit (fun n : nat => n) Nat.eq_dec.

(** A history of numbers with the cursor on its last entry. *)
Definition number_history_tip : History.t nat := History.mk [1; 2; 3]%nat 2.

(** The hand tool with one finger on the canvas, and the pen and the hand
    before any gesture. *)
Definition panning_world : World :=
  world_with tool_hand sample_page
             (set_pointers initCanvas [ (1%Z, mkPoint 0 0) ]).

Definition pen_world : World := world_with tool_pen sample_page initCanvas.


(** A press inside the box of [far_text] and a release 20 to the right and
    10 below it. *)
Definition text_press : PointerEvent :=
  {| pointerId := 1; pointerType := touch; button := 0;
     clientX := 1010; clientY := 1010; movementX := 0; movementY := 0 |}.

Definition text_release : PointerEvent :=
  {| pointerId := 1; pointerType := touch; button := 0;
     clientX := 1030; clientY := 1020; movementX := 20; movementY := 10 |}.

Definition sample_closure : RecognizeClosure :=
  {| closure_isLoading := false; closure_index := 0;
     closure_state := sample_state |}.


Definition sample_delete : DeleteRequest :=
  {| strokeIds := [ 1%Z ]; textIds := [] |}.

(** ** Vocabulary of the further properties *)


(** The three operations of the hook, as a user of it issues them, one
    render apart. *)
Inductive HistoryOp (T : Type) :=
| OpSetState (a : History.Action T)
| OpUndo
| OpRedo.

Arguments OpSetState {T} _.
Arguments OpUndo {T}.
Arguments OpRedo {T}.

Definition apply_op {T K : Type} (stringify : T -> K)
           (K_eq_dec : forall a b : K, {a = b} + {a <> b})
           (h : History.t T) (op : HistoryOp T) : History.t T :=
  match op with
  | OpSetState a => History.setState stringify K_eq_dec a h
  | OpUndo => History.undo h
  | OpRedo => History.redo h
  end.

(** ** More of the editor component ([EditorView.tsx]) *)


(** [handleChangePage] (lines 289-293). *)
Definition handleChangePage (i : nat) (state : AppState) (newIndex : Z)
           (h : History.t AppState) : History.t AppState :=
  if (0 <=? newIndex)%Z && (newIndex <? Z.of_nat (length (pages state)))%Z
  then
    History.setState_at JSON_stringify AppState_eq_dec i
      (History.Value
         {| pages := pages state;
            currentPageIndex := Z.to_nat newIndex;
            canvasStyle := canvasStyle state;
            isGlobalStyleEnabled := isGlobalStyleEnabled state;
            isSpellingCorrectionEnabled := isSpellingCorrectionEnabled state;
            toolSettings := toolSettings state;
            answerLength := answerLength state |}) h
  else h.

(** The page navigator ([components/PageNavigator.tsx]) as [EditorView]
    renders it (lines 312-318): [currentPage] is [currentPageIndex + 1],
    [totalPages] is [pages.length]. *)
Definition prevDisabled (state : AppState) : bool :=
  (currentPageIndex state + 1 <=? 1)%nat.

Definition nextDisabled (state : AppState) : bool :=
  (length (pages state) <=? currentPageIndex state + 1)%nat.

Definition onNext (i : nat) (state : AppState) (h : History.t AppState)
  : History.t AppState :=
  handleChangePage i state (Z.of_nat (currentPageIndex state) + 1) h.

Definition onPrev (i : nat) (state : AppState) (h : History.t AppState)
  : History.t AppState :=
  handleChangePage i state (Z.of_nat (currentPageIndex state) - 1) h.

(** [handleClear] (lines 225-228). *)
Definition handleClear (i : nat) (ed : EditorState) : EditorState :=
  {| hist := updateCurrentPage i
               (fun page => {| page_id := page_id page;
                               strokes := []; texts := [] |})
               (hist ed);
     viewTransform := viewTransform ed;
     recognitionTrigger := recognitionTrigger ed;
     isLoading := isLoading ed; error := None; timers := timers ed |}.

(** [requestClear] (lines 251-258) with the current page [page] of its
    render: [None] when it returns without a dialog, otherwise the action
    of the dialog's confirm button. *)
Definition requestClear (i : nat) (page : Page)
  : option (EditorState -> EditorState) :=
  match strokes page, texts page with
  | [], [] => None
  | _, _ => Some (handleClear i)
  end.

(** The page update of the global-style effect (lines 146-160);
    [style] is the debounced canvas style. *)
Definition globalStyleUpdater (style : CanvasStyle) (page : Page) : Page :=
  let hasChanges :=
    existsb (fun t => negb (String.eqb (text_fontFamily t) (fontFamily style))
                      || negb (num_eq (text_fontSize t) (fontSize style)))
            (texts page) in
  if negb hasChanges then page
  else {| page_id := page_id page;
          strokes := strokes page;
          texts := map (fun t => {| text_id := text_id t; text := text t;
                                    bounds := bounds t;
                                    text_fontFamily := fontFamily style;
                                    text_fontSize := fontSize style |})
                       (texts page) |}.

(** The effect itself (lines 144-162), run by a render that saw
    [isGlobalStyleEnabled = enabled] and history index [i]. *)
Definition globalStyleEffect (enabled : bool) (style : CanvasStyle) (i : nat)
           (h : History.t AppState) : History.t AppState :=
  if enabled then updateCurrentPage i (globalStyleUpdater style) h else h.

(** ** More of the canvas component ([components/Canvas.tsx]) *)

(** The running extent of the recognition effect (line 365). *)
Record Extent := mkExtent { minX : R; minY : R; maxX : R; maxY : R }.

(** One step of the scan (lines 370-371).  [None] is the initial state
    [minX = minY = Infinity], [maxX = maxY = -Infinity], against which
    every coordinate wins. *)
Definition extendExtent (r : R) (acc : option Extent) (p : Point)
  : option Extent :=
  match acc with
  | None =>
      Some {| minX := x p - r; minY := y p - r;
              maxX := x p + r; maxY := y p + r |}
  | Some e =>
      Some {| minX := Math_min (minX e) (x p - r);
              minY := Math_min (minY e) (y p - r);
              maxX := Math_max (maxX e) (x p + r);
              maxY := Math_max (maxY e) (y p + r) |}
  end.

(** The scan over all strokes (lines 367-373). *)
Definition strokesExtent (strokes0 : list Stroke) : option Extent :=
  fold_left
    (fun acc stroke =>
       let r := strokeWidth stroke / 2 in
       fold_left (extendExtent r) (points stroke) acc)
    strokes0 None.

(** What the effect hands to the rasterizer and to [onRecognize]: the
    size of the temporary canvas, the strokes drawn on it and the bounds
    passed along with the image. *)
Record ExportRequest := mkExport {
  export_bounds : Bounds;
  export_width : R;
  export_height : R;
  export_strokes : list Stroke;
  export_texts : list RecognizedText
}.

(** [{ x: p.x - bounds.x + PADDING, y: p.y - bounds.y + PADDING }] *)
Definition reoriginPoint (b : Bounds) (p : Point) : Point :=
  {| x := x p - bounds_x b + PADDING; y := y p - bounds_y b + PADDING |}.

Definition reoriginStroke (b : Bounds) (s : Stroke) : Stroke :=
  {| id := id s; points := map (reoriginPoint b) (points s);
     stroke_tool := stroke_tool s; strokeWidth := strokeWidth s;
     color := color s |}.

(** The recognition effect (lines 363-397), run when [recognitionTrigger]
    changes: [None] when it returns without calling [onRecognize];
    [hasContext] tells whether the temporary canvas gave a 2D context. *)
Definition recognitionEffect (trigger : nat) (strokes0 : list Stroke)
           (hasContext : bool) : option ExportRequest :=
  if (0 <? trigger)%nat && (0 <? length strokes0)%nat then
    match strokesExtent strokes0 with
    | None => None
    | Some e =>
        let b := {| bounds_x := minX e; bounds_y := minY e;
                    width := maxX e - minX e; height := maxY e - minY e |} in
        if num_le (width b) 0 || num_le (height b) 0 then None
        else if hasContext then
          Some {| export_bounds := b;
                  export_width := width b + PADDING * 2;
                  export_height := height b + PADDING * 2;
                  export_strokes := map (reoriginStroke b) strokes0;
                  export_texts := [] |}
        else None
    end
  else None.

(** [handleAnswerButtonClick] (lines 563-596): the canvas state after the
    click and the request passed to [onGetAnswer], if any. *)
Definition handleAnswerButtonClick (hasContext : bool) (strokes0 : list Stroke)
           (texts0 : list RecognizedText) (c : CanvasState)
  : CanvasState * option ExportRequest :=
  match selectionRect c with
  | None => (c, None)
  | Some sel =>
      if hasContext then
        let strokesToDraw :=
          map (reoriginStroke sel)
              (filter (fun s => existsb (fun p => pointInBounds p sel) (points s))
                      strokes0) in
        let textsToDraw :=
          map (fun t =>
                 {| text_id := text_id t; text := text t;
                    bounds := {| bounds_x := bounds_x (bounds t) - bounds_x sel
                                             + PADDING;
                                 bounds_y := bounds_y (bounds t) - bounds_y sel
                                             + PADDING;
                                 width := width (bounds t);
                                 height := height (bounds t) |};
                    text_fontFamily := text_fontFamily t;
                    text_fontSize := text_fontSize t |})
              (filter (fun t => boundsIntersect (bounds t) sel) texts0) in
        (set_selectionRect c None,
         Some {| export_bounds := sel;
                 export_width := width sel + PADDING * 2;
                 export_height := height sel + PADDING * 2;
                 export_strokes := strokesToDraw;
                 export_texts := textsToDraw |})
      else (c, None)
  end.

(** [getAnswerButtonPosition] (lines 623-635): [None] for
    [{ display: 'none' }], otherwise [left] and [top] in CSS pixels. *)
Definition getAnswerButtonPosition (env : Env) (vt : ViewTransform)
           (c : CanvasState) : option (R * R) :=
  match canvas env, selectionRect c with
  | Some _, Some sel =>
      let dpr := dpr_of env in
      let physicalX := (bounds_x sel + width sel) * scale vt + offsetX vt in
      let physicalY := (bounds_y sel + height sel) * scale vt + offsetY vt in
      Some (physicalX / dpr, physicalY / dpr)
  | _, _ => None
  end.

(** Vocabulary for the scan of the recognition effect. *)

(** The discs the scan visits: every point with half the width of its
    stroke. *)
Definition disks (strokes0 : list Stroke) : list (R * Point) :=
  flat_map (fun s => map (fun p => (strokeWidth s / 2, p)) (points s)) strokes0.

Definition extendDisk (acc : option Extent) (d : R * Point) : option Extent :=
  extendExtent (fst d) acc (snd d).

(** The extent [e] contains the disc [d]. *)
Definition covers (e : Extent) (d : R * Point) : Prop :=
  minX e <= x (snd d) - fst d /\ x (snd d) + fst d <= maxX e
  /\ minY e <= y (snd d) - fst d /\ y (snd d) + fst d <= maxY e.

(** Each side of [e] is a side of [acc] or touches a disc of [l]. *)
Definition tight (acc : option Extent) (l : list (R * Point)) (e : Extent)
  : Prop :=
  ((exists a, acc = Some a /\ minX e = minX a)
   \/ exists d, In d l /\ minX e = x (snd d) - fst d)
  /\ ((exists a, acc = Some a /\ maxX e = maxX a)
      \/ exists d, In d l /\ maxX e = x (snd d) + fst d)
  /\ ((exists a, acc = Some a /\ minY e = minY a)
      \/ exists d, In d l /\ minY e = y (snd d) - fst d)
  /\ ((exists a, acc = Some a /\ maxY e = maxY a)
      \/ exists d, In d l /\ maxY e = y (snd d) + fst d).

Definition grows (a e : Extent) : Prop :=
  minX e <= minX a /\ maxX a <= maxX e /\ minY e <= minY a /\ maxY a <= maxY e.

(** [a % b] on numbers: the remainder has the sign of the dividend. *)
Definition Math_trunc (v : R) : R :=
  if Rlt_dec v 0 then - Math_floor (- v) else Math_floor v.

Definition num_rem (a b : R) : R := a - b * Math_trunc (a / b).

(** The values visited by [for (let v = first; v <= last; v += step)],
    for a positive [step]. *)
Definition loop_le (first last step : R) : list R :=
  map (fun k => first + INR k * step) (range_le ((last - first) / step)).

(** One ruled line of the background, in device pixels, with the stroke
    style and line width it is drawn with. *)
Inductive Rule :=
| Horizontal (at_y : R) (strokeStyle : string) (lineWidth : R)
| Vertical (at_x : R) (strokeStyle : string) (lineWidth : R).

(** [drawBackground] (lines 250-287): the lines stroked after the canvas
    of [canvas_width] by [canvas_height] device pixels has been filled
    with the background colour. *)
Definition drawBackground (canvas_width canvas_height : R)
           (style : CanvasStyle) (vt : ViewTransform) : list Rule :=
  match backgroundType style with
  | plain => []
  | copybook =>
      let lineSpacing := 80 * scale vt in
      if num_lt lineSpacing 5 then []
      else
        let startY := num_rem (offsetY vt) lineSpacing in
        flat_map
          (fun y0 =>
             [Horizontal y0 "rgba(255, 128, 128, 0.4)" 1;
              Horizontal (y0 + lineSpacing * 0.5 - 2)
                         "rgba(128, 128, 255, 0.3)" 2])
          (loop_le (startY - lineSpacing) (canvas_height + lineSpacing)
                   lineSpacing)
  | grid =>
      let gridSpacing := 50 * scale vt in
      if num_lt gridSpacing 5 then []
      else
        let startX := num_rem (offsetX vt) gridSpacing in
        let startY := num_rem (offsetY vt) gridSpacing in
        map (fun x0 => Vertical x0 "rgba(0, 0, 0, 0.1)" 1)
            (loop_le (startX - gridSpacing) (canvas_width + gridSpacing)
                     gridSpacing)
        ++ map (fun y0 => Horizontal y0 "rgba(0, 0, 0, 0.1)" 1)
               (loop_le (startY - gridSpacing) (canvas_height + gridSpacing)
                        gridSpacing)
  | borderline =>
      let lineSpacing := 60 * scale vt in
      if num_lt lineSpacing 5 then []
      else
        let startY := num_rem (offsetY vt) lineSpacing in
        map (fun y0 => Horizontal y0 "rgba(0, 0, 255, 0.3)" 1)
            (loop_le (startY - lineSpacing) (canvas_height + lineSpacing)
                     lineSpacing)
        ++ (let marginX := 80 * scale vt + offsetX vt in
            if num_gt marginX (- lineSpacing)
               && num_lt marginX (canvas_width + lineSpacing)
            then [Vertical marginX "rgba(255, 0, 0, 0.4)" 2]
            else [])
  end.

(** The world spacing of the ruling of each background. *)
Definition ruleSpacing (b : BackgroundType) : R :=
  match b with
  | copybook => 80
  | grid => 50
  | borderline => 60
  | plain => 0
  end.

(** The device ordinates of the horizontal lines of a drawing. *)
Definition horizontals (rules : list Rule) : list R :=
  flat_map (fun r => match r with
                     | Horizontal y0 _ _ => [y0]
                     | Vertical _ _ _ => []
                     end) rules.

(** * Properties *)

(** ** Comparisons *)

Lemma num_lt_true (a b : R) : num_lt a b = true <-> a < b.
Proof.
  unfold num_lt; destruct (Rlt_dec a b); split; intros; auto; discriminate.
Qed.

Lemma num_lt_false (a b : R) : num_lt a b = false <-> b <= a.
Proof.
  unfold num_lt; destruct (Rlt_dec a b); split; intros; auto;
    try discriminate; lra.
Qed.

Ltac lt_true := apply num_lt_true; lra.

(** ** Shape synthesis *)

(** C6: dragging a rectangle from (0,0) to (100,50) with size 5 and colour
    [#000000] yields exactly one stroke; its points are the four corners
    in order with the first corner repeated at the end, its width is 5. *)
Theorem rectangle_scenario (idBase : Z) :
  createStrokesForShape idBase (mkPoint 0 0) (mkPoint 100 50) 5 "#000000"
                        rectangle
  = [ {| id := idBase;
         points := [ mkPoint 0 0; mkPoint 100 0; mkPoint 100 50;
                     mkPoint 0 50; mkPoint 0 0 ];
         stroke_tool := pen_stroke;
         strokeWidth := 5;
         color := "#000000" |} ].
Proof. reflexivity. Qed.

Lemma getDistance_same (p : Point) : getDistance p p = 0.
Proof.
  unfold getDistance, Math_sqrt, Math_pow2.
  replace ((x p - x p) ^ 2 + (y p - y p) ^ 2) with 0 by ring.
  apply sqrt_0.
Qed.

Lemma Math_abs_self_minus (a : R) : Math_abs (a - a) = 0.
Proof. unfold Math_abs. replace (a - a) with 0 by ring. apply Rabs_R0. Qed.

(** A drag that ends where it started gives no stroke for the fourteen
    kinds whose branch tests the size of the drag. *)
Lemma guarded_zero_drag (idBase : Z) (p : Point) (sw : R) (c : string)
      (type : ShapeType) :
  guarded type = true -> createStrokesForShape idBase p p sw c type = [].
Proof.
  intros G.
  assert (L1 : num_lt 0 1 = true) by lt_true.
  assert (L2 : num_lt 0 2 = true) by lt_true.
  assert (L5 : num_lt 0 5 = true) by lt_true.
  assert (Z2 : 0 / 2 = 0) by lra.
  assert (Z3 : sqrt (0 * 0 + 0 * 0) = 0).
  { replace (0 * 0 + 0 * 0) with 0 by ring. apply sqrt_0. }
  destruct type; try discriminate G; unfold createStrokesForShape;
    rewrite ?getDistance_same, ?Math_abs_self_minus, ?Z2; unfold Math_sqrt;
    rewrite ?Z3, ?L1, ?L2, ?L5; try reflexivity.
Qed.

(** The other five kinds give strokes for every drag. *)
Lemma unguarded_never_empty (idBase : Z) (p q : Point) (sw : R) (c : string)
      (type : ShapeType) :
  guarded type = false ->
  createStrokesForShape idBase p q sw c type <> [].
Proof.
  destruct type; try discriminate; intros _;
    unfold createStrokesForShape, one_stroke; discriminate.
Qed.

(** C1 fails on the code for the rectangle: the smallest drag there is,
    from [p] to [p], is not rejected.  The synthesizer returns one stroke
    made of five copies of [p], where the degenerate-drag law asks for
    the empty list. *)
Theorem rectangle_zero_drag_not_empty (idBase : Z) (p : Point) (sw : R)
        (c : string) :
  createStrokesForShape idBase p p sw c rectangle
  = [ {| id := idBase; points := [p; p; p; p; p]; stroke_tool := pen_stroke;
         strokeWidth := sw; color := c |} ].
Proof. destruct p as [px py]. reflexivity. Qed.

(** ** Viewport transform *)

Lemma clamp_in_range (v : R) :
  MIN_ZOOM <= Math_min (Math_max v MIN_ZOOM) MAX_ZOOM <= MAX_ZOOM.
Proof.
  unfold Math_min, Math_max, MIN_ZOOM, MAX_ZOOM, Rmin, Rmax.
  destruct (Rle_dec v 0.2); destruct (Rle_dec _ 5); lra.
Qed.

Lemma clamp_id (v : R) :
  MIN_ZOOM <= v <= MAX_ZOOM ->
  Math_min (Math_max v MIN_ZOOM) MAX_ZOOM = v.
Proof.
  unfold Math_min, Math_max, MIN_ZOOM, MAX_ZOOM, Rmin, Rmax.
  intros H. destruct (Rle_dec v 0.2); destruct (Rle_dec _ 5); lra.
Qed.

(** The algebra behind [offset' = focal - (focal - offset) * (s' / s)]. *)
Lemma anchor_eq (P o s s' : R) :
  s <> 0 -> s' <> 0 ->
  (P - (P - (P - o) * (s' / s))) / s' = (P - o) / s.
Proof. intros. field. split; assumption. Qed.

Lemma zoom_in_range_nonzero (vt : ViewTransform) :
  zoom_in_range vt -> scale vt <> 0.
Proof. unfold zoom_in_range, MIN_ZOOM. lra. Qed.



(** C2: with the current scale in range, a wheel zoom at the focal point
    [(focalX, focalY)] maps that point to the same world coordinate as
    before, whatever the scroll amount; and every scale of
    [[MIN_ZOOM, MAX_ZOOM]] is the new scale of some scroll amount. *)
Theorem wheel_zoom_anchoring (env : Env) (vt : ViewTransform)
        (focalX focalY : R) :
  zoom_in_range vt ->
  (forall dY : R,
      getPointInWorldSpace env
        (handleWheel env (mkWheelEvent focalX focalY dY) vt) focalX focalY
      = getPointInWorldSpace env vt focalX focalY)
  /\ (forall (rect : DOMRect) (s' : R),
         canvas env = Some rect ->
         MIN_ZOOM <= s' <= MAX_ZOOM ->
         exists dY : R,
           scale (handleWheel env (mkWheelEvent focalX focalY dY) vt) = s').
Proof.
  intros Hvt.
  pose proof (zoom_in_range_nonzero vt Hvt) as Hs.
  split.
  - intros dY.
    unfold getPointInWorldSpace, handleWheel.
    destruct (canvas env) as [rect|]; [|reflexivity].
    cbn [scale offsetX offsetY wheel_clientX wheel_clientY deltaY].
    set (s' := Math_min _ _).
    assert (Hs' : s' <> 0).
    { pose proof (clamp_in_range (scale vt * (1 + dY * -0.005))) as C.
      fold s' in C. unfold MIN_ZOOM in C. lra. }
    rewrite !anchor_eq by assumption. reflexivity.
  - intros rect s' Hc Hr.
    exists ((s' / scale vt - 1) / -0.005).
    unfold handleWheel. rewrite Hc. cbn [scale deltaY].
    replace (scale vt * (1 + (s' / scale vt - 1) / -0.005 * -0.005)) with s'
      by (field; repeat split; try assumption; lra).
    apply clamp_id; assumption.
Qed.


(** ** History manager *)

Section HistoryFacts.

Variable T K : Type.
Variable stringify : T -> K.
Variable K_eq_dec : forall a b : K, {a = b} + {a <> b}.

Local Notation "'setState_at'" := (History.setState_at stringify K_eq_dec).
Local Notation "'setState'" := (History.setState stringify K_eq_dec).
Local Notation "'commit'" := (History.commit stringify K_eq_dec).

Lemma present_wf (h : History.t T) (p : T) :
  History.present h = Some p -> History.wf h.
Proof.
  unfold History.present, History.wf. intros H.
  apply nth_error_Some. congruence.
Qed.

Lemma wf_present (h : History.t T) :
  History.wf h -> exists p, History.present h = Some p.
Proof.
  unfold History.present, History.wf. intros H.
  destruct (nth_error (History.history h) (History.index h)) eqn:E; eauto.
  apply nth_error_None in E. lia.
Qed.

Lemma pushed_shape (i : nat) (s : T) (h : History.t T) :
  (i < length (History.history h))%nat ->
  length (History.history (pushed i s h)) = (i + 2)%nat
  /\ History.index (pushed i s h) = (i + 1)%nat
  /\ History.present (pushed i s h) = Some s
  /\ firstn (i + 1) (History.history (pushed i s h))
     = firstn (i + 1) (History.history h).
Proof.
  intros Hi. unfold pushed, History.present; cbn.
  assert (L : length (firstn (i + 1) (History.history h)) = (i + 1)%nat)
    by (rewrite length_firstn; lia).
  rewrite length_app, L; cbn.
  replace (i + 1 + 1 - 1)%nat with (i + 1)%nat by lia.
  repeat split; try lia.
  - rewrite nth_error_app2 by lia. rewrite L, Nat.sub_diag. reflexivity.
  - rewrite firstn_app, L, Nat.sub_diag, firstn_O, app_nil_r.
    apply firstn_all2. lia.
Qed.

(** [setState_at] either leaves the history alone or appends. *)
Lemma setState_at_cases (i : nat) (a : History.Action T) (h : History.t T)
      (p : T) :
  nth_error (History.history h) i = Some p ->
  let s := match a with History.Updater f => f p | History.Value v => v end in
  (stringify p = stringify s /\ setState_at i a h = h)
  \/ (stringify p <> stringify s /\ setState_at i a h = pushed i s h).
Proof.
  intros Hp s. unfold History.setState_at. rewrite Hp. fold s.
  destruct (K_eq_dec (stringify p) (stringify s)); [left|right]; split; auto.
Qed.

Lemma setState_wf (a : History.Action T) (h : History.t T) :
  History.wf h -> History.wf (setState a h).
Proof.
  intros Hwf. destruct (wf_present h Hwf) as [p Hp].
  unfold History.setState.
  destruct (setState_at_cases (History.index h) a h p Hp) as [[_ E]|[_ E]];
    rewrite E; [assumption|].
  destruct (pushed_shape (History.index h)
              (match a with History.Updater f => f p | History.Value v => v end)
              h Hwf) as (Hl & Hi & _).
  unfold History.wf. rewrite Hl, Hi. lia.
Qed.

(** C3: a commit of a state whose serialisation equals that of the state
    at the cursor (in particular of a value-equal state) returns the
    history as it was: same entries, same redo suffix, same cursor.  For
    every state [s], the second of two commits of [s] in a row is such a
    no-op, also when it is issued by the callback of the render before the
    first: the length and [canRedo] stay as the first commit left them,
    which is [false] when the first commit appended [s] or there was
    nothing to redo. *)
Theorem commit_value_equal_idempotent (h : History.t T) (p s : T) :
  History.present h = Some p ->
  (stringify s = stringify p -> commit s h = h)
  /\ commit s (commit s h) = commit s h
  /\ setState_at (History.index h) (History.Value s) (commit s h) = commit s h
  /\ length (History.history (commit s (commit s h)))
     = length (History.history (commit s h))
  /\ History.canRedo (commit s (commit s h)) = History.canRedo (commit s h)
  /\ (stringify s <> stringify p \/ History.canRedo h = false ->
      History.canRedo (commit s (commit s h)) = false).
Proof.
  intros Hp.
  pose proof (present_wf _ _ Hp) as Hwf. unfold History.wf in Hwf.
  assert (Hidem : commit s (commit s h) = commit s h).
  { unfold History.commit, History.setState.
    destruct (setState_at_cases (History.index h) (History.Value s) h p Hp)
      as [[He E]|[Hne E]]; cbn in *.
    - rewrite E, E. reflexivity.
    - rewrite E.
      destruct (pushed_shape (History.index h) s h Hwf) as (_ & _ & Hs & _).
      destruct (setState_at_cases (History.index (pushed (History.index h) s h))
                  (History.Value s) _ s Hs) as [[_ E2]|[Hne2 _]]; cbn in *.
      + exact E2.
      + congruence. }
  repeat split.
  - intros He. unfold History.commit, History.setState.
    destruct (setState_at_cases (History.index h) (History.Value s) h p Hp)
      as [[_ E]|[Hne _]]; cbn in *; congruence.
  - exact Hidem.
  - unfold History.commit, History.setState.
    destruct (setState_at_cases (History.index h) (History.Value s) h p Hp)
      as [[He E]|[Hne E]]; cbn in *.
    + rewrite E, E. reflexivity.
    + rewrite E.
      destruct (pushed_shape (History.index h) s h Hwf) as (Hl & _ & _ & Hf).
      assert (Hn : nth_error (History.history (pushed (History.index h) s h))
                             (History.index h) = Some p).
      { unfold pushed; cbn. rewrite nth_error_app1
          by (rewrite length_firstn; lia).
        rewrite nth_error_firstn.
        replace (History.index h <? History.index h + 1)%nat with true
          by (symmetry; apply Nat.ltb_lt; lia).
        exact Hp. }
      destruct (setState_at_cases (History.index h) (History.Value s) _ p Hn)
        as [[He2 _]|[_ E2]]; cbn in *; [congruence|].
      rewrite E2. unfold pushed in *. cbn [History.history] in *.
      rewrite Hf. reflexivity.
  - rewrite Hidem. reflexivity.
  - rewrite Hidem. reflexivity.
  - intros Hc. rewrite Hidem. unfold History.commit, History.setState.
    destruct (setState_at_cases (History.index h) (History.Value s) h p Hp)
      as [[He E]|[Hne E]]; cbn in *; rewrite E.
    + destruct Hc; congruence.
    + destruct (pushed_shape (History.index h) s h Hwf) as (Hl & Hi & _).
      unfold History.canRedo. rewrite Hl, Hi. apply Nat.ltb_ge. lia.
Qed.

(** C4: in a history whose cursor is a valid position, [undo] moves the
    cursor down by one and stays at 0, [redo] moves it up by one and stays
    at the last index, neither touches the entries, and from a cursor
    above 0 [undo] then [redo] gives back the same history, hence the
    same current state. *)
Theorem undo_redo_inverse (h : History.t T) :
  History.wf h ->
  ((0 < History.index h)%nat ->
     History.redo (History.undo h) = h
     /\ History.present (History.redo (History.undo h)) = History.present h)
  /\ History.history (History.undo h) = History.history h
  /\ History.index (History.undo h) = (History.index h - 1)%nat
  /\ (History.index h = 0%nat -> History.undo h = h)
  /\ History.history (History.redo h) = History.history h
  /\ History.index (History.redo h)
     = Nat.min (History.index h + 1) (length (History.history h) - 1)
  /\ (History.index h = (length (History.history h) - 1)%nat ->
      History.redo h = h).
Proof.
  unfold History.wf. intros Hwf. destruct h as [l i].
  cbn [History.index History.history] in *.
  assert (U : History.undo (History.mk l i)
              = if (0 <? i)%nat then History.mk l (i - 1) else History.mk l i)
    by reflexivity.
  assert (Rd : forall j, History.redo (History.mk l j)
              = if (j <? length l - 1)%nat then History.mk l (j + 1)
                else History.mk l j)
    by reflexivity.
  assert (R1 : (0 < i)%nat -> History.redo (History.undo (History.mk l i))
                               = History.mk l i).
  { intros Hi. rewrite U.
    destruct (Nat.ltb_spec 0 i); [|lia]. rewrite Rd.
    destruct (Nat.ltb_spec (i - 1) (length l - 1)); [|lia].
    f_equal. lia. }
  split.
  { intros Hi. rewrite (R1 Hi). split; reflexivity. }
  rewrite U, Rd.
  repeat split.
  - destruct (0 <? i)%nat; reflexivity.
  - destruct (Nat.ltb_spec 0 i); cbn [History.index]; lia.
  - intros ->. reflexivity.
  - destruct (i <? length l - 1)%nat; reflexivity.
  - destruct (Nat.ltb_spec i (length l - 1)); cbn [History.index]; lia.
  - intros Hi. destruct (Nat.ltb_spec i (length l - 1)); [lia|reflexivity].
Qed.

(** The callbacks of one render called back to back, with no render in
    between: [redo] still tests the index and length it captured, so at
    the last index it does nothing after [undo].  The inverse law above is
    about calls separated by a render, as the buttons of the editor
    issue them. *)
Remark redo_of_same_render_after_undo (h : History.t T) :
  (0 < History.index h)%nat ->
  History.index h = (length (History.history h) - 1)%nat ->
  History.redo_at (History.index h) (length (History.history h))
                  (History.undo h)
  = History.mk (History.history h) (History.index h - 1).
Proof.
  intros Hpos Hlast. unfold History.redo_at, History.undo.
  destruct (Nat.ltb_spec 0 (History.index h)); [|lia].
  destruct (Nat.ltb_spec (History.index h) (length (History.history h) - 1));
    [lia|reflexivity].
Qed.

End HistoryFacts.

(** ** Eraser hit-testing *)

Lemma Set_has_In (s : list Z) (k : Z) : Set_has s k = true <-> In k s.
Proof.
  unfold Set_has. rewrite existsb_exists. split.
  - intros (j & Hj & E). apply Z.eqb_eq in E. subst. assumption.
  - intros H. exists k. split; [assumption|apply Z.eqb_refl].
Qed.

Lemma Set_add_In (s : list Z) (k j : Z) :
  In j (Set_add s k) <-> In j s \/ j = k.
Proof.
  unfold Set_add. destruct (Set_has s k) eqn:E.
  - apply Set_has_In in E. split; [auto|]. intros [H| ->]; assumption.
  - rewrite in_app_iff. cbn. intuition.
Qed.

Lemma Set_of_list_In (ids acc : list Z) (j : Z) :
  In j (fold_left Set_add ids acc) <-> In j acc \/ In j ids.
Proof.
  revert acc. induction ids as [|k ids IH]; intros acc; cbn.
  - intuition.
  - rewrite IH, Set_add_In. intuition.
Qed.

Lemma Set_of_list_has (ids : list Z) (k : Z) :
  Set_has (fold_left Set_add ids []) k = Set_has ids k.
Proof.
  apply eq_true_iff_eq. rewrite !Set_has_In, Set_of_list_In. cbn. intuition.
Qed.

Lemma stroke_within_test (r : R) (point : Point) (s : Stroke) :
  existsb (fun p => num_lt (getDistance p point) (r + strokeWidth s / 2))
          (points s) = true
  <-> stroke_within r point s.
Proof.
  unfold stroke_within. rewrite existsb_exists.
  split; intros (p & Hin & H); exists p; split; auto; apply num_lt_true; auto.
Qed.

Lemma text_within_test (r : R) (point : Point) (t : RecognizedText) :
  num_gt (x point) (bounds_x (bounds t) - r)
  && num_lt (x point) (bounds_x (bounds t) + width (bounds t) + r)
  && num_gt (y point) (bounds_y (bounds t) - r)
  && num_lt (y point) (bounds_y (bounds t) + height (bounds t) + r) = true
  <-> text_within r point t.
Proof.
  unfold text_within, num_gt. rewrite !andb_true_iff, !num_lt_true. tauto.
Qed.

(** The stroke batch holds exactly the ids of the strokes that are hit. *)
Lemma strokeIdsToDelete_In (r : R) (strokes0 : list Stroke) (point : Point)
      (k : Z) :
  In k (strokeIdsToDelete r strokes0 point)
  <-> exists s, In s strokes0 /\ id s = k /\ stroke_within r point s.
Proof.
  unfold strokeIdsToDelete.
  enough (G : forall acc,
             In k (fold_left
                     (fun acc stroke =>
                        if existsb
                             (fun p => num_lt (getDistance p point)
                                              (r + strokeWidth stroke / 2))
                             (points stroke)
                        then Set_add acc (id stroke) else acc)
                     strokes0 acc)
             <-> In k acc
                 \/ exists s, In s strokes0 /\ id s = k /\ stroke_within r point s).
  { rewrite G. cbn. split; [intros [[]|H]; exact H | auto]. }
  induction strokes0 as [|s0 l IH]; intros acc; cbn [fold_left].
  - split; [auto|]. intros [H|(s & [] & _)]. exact H.
  - rewrite IH. clear IH.
    destruct (existsb _ (points s0)) eqn:E.
    + apply stroke_within_test in E. rewrite Set_add_In. split.
      * intros [[H|H]|(s & Hin & Hid & Hw)]; auto.
        -- right. exists s0. cbn. auto.
        -- right. exists s. cbn. auto.
      * intros [H|(s & [->|Hin] & Hid & Hw)]; auto.
        right. exists s. auto.
    + split.
      * intros [H|(s & Hin & Hid & Hw)]; auto. right. exists s. cbn. auto.
      * intros [H|(s & [->|Hin] & Hid & Hw)]; auto.
        -- apply stroke_within_test in Hw. congruence.
        -- right. exists s. auto.
Qed.

Lemma textIdsToDelete_In (r : R) (texts0 : list RecognizedText) (point : Point)
      (k : Z) :
  In k (textIdsToDelete r texts0 point)
  <-> exists t, In t texts0 /\ text_id t = k /\ text_within r point t.
Proof.
  unfold textIdsToDelete.
  enough (G : forall acc,
             In k (fold_left
                     (fun acc t =>
                        if num_gt (x point) (bounds_x (bounds t) - r)
                           && num_lt (x point)
                                (bounds_x (bounds t) + width (bounds t) + r)
                           && num_gt (y point) (bounds_y (bounds t) - r)
                           && num_lt (y point)
                                (bounds_y (bounds t) + height (bounds t) + r)
                        then Set_add acc (text_id t) else acc)
                     texts0 acc)
             <-> In k acc
                 \/ exists t, In t texts0 /\ text_id t = k /\ text_within r point t).
  { rewrite G. cbn. split; [intros [[]|H]; exact H | auto]. }
  induction texts0 as [|t0 l IH]; intros acc; cbn [fold_left].
  - split; [auto|]. intros [H|(s & [] & _)]. exact H.
  - rewrite IH. clear IH.
    match goal with |- context [if ?b then _ else _] => destruct b eqn:E end.
    + apply text_within_test in E. rewrite Set_add_In. split.
      * intros [[H|H]|(s & Hin & Hid & Hw)]; auto.
        -- right. exists t0. cbn. auto.
        -- right. exists s. cbn. auto.
      * intros [H|(s & [->|Hin] & Hid & Hw)]; auto.
        right. exists s. auto.
    + split.
      * intros [H|(s & Hin & Hid & Hw)]; auto. right. exists s. cbn. auto.
      * intros [H|(s & [->|Hin] & Hid & Hw)]; auto.
        -- apply text_within_test in Hw. congruence.
        -- right. exists s. auto.
Qed.

Lemma no_member_nil {A} (l : list A) : (forall a, ~ In a l) -> l = [].
Proof. destruct l as [|a l]; [reflexivity|]. intros H. destruct (H a). now left. Qed.

(** Without a hit the callback is not invoked. *)
Lemma eraseRequest_miss (settings : ToolSettings) (strokes0 : list Stroke)
      (texts0 : list RecognizedText) (point : Point) :
  let r := eraser_size (eraser settings) / 2 in
  (forall s, In s strokes0 -> ~ stroke_within r point s) ->
  (forall t, In t texts0 -> ~ text_within r point t) ->
  eraseRequest settings strokes0 texts0 point = None.
Proof.
  intros r Hs Ht. unfold eraseRequest. fold r.
  rewrite (no_member_nil (strokeIdsToDelete r strokes0 point)).
  2:{ intros k Hk. apply strokeIdsToDelete_In in Hk.
      destruct Hk as (s & Hin & _ & Hw). exact (Hs s Hin Hw). }
  rewrite (no_member_nil (textIdsToDelete r texts0 point)).
  2:{ intros k Hk. apply textIdsToDelete_In in Hk.
      destruct Hk as (t & Hin & _ & Hw). exact (Ht t Hin Hw). }
  reflexivity.
Qed.

Lemma eraseAtPoint_miss (st : AppState) (page : Page) (point : Point)
      (i : nat) (h : History.t AppState) :
  eraseRequest (toolSettings st) (strokes page) (texts page) point = None ->
  eraseAtPoint st page point i h = h.
Proof. unfold eraseAtPoint. intros ->. reflexivity. Qed.

Lemma nth_error_array_set {A} (l : list A) (i : nat) (v a : A) :
  nth_error l i = Some a -> nth_error (array_set l i v) i = Some v.
Proof.
  revert i. induction l as [|b l IH]; intros [|i] H; cbn in *;
    try discriminate; auto.
Qed.

Lemma currentPage_updated (updater : Page -> Page) (st : AppState) (page : Page) :
  currentPage st = Some page ->
  currentPage (currentPageUpdater updater st) = Some (updater page).
Proof.
  intros H. unfold currentPageUpdater. rewrite H.
  unfold currentPage, with_pages; cbn.
  eapply nth_error_array_set. exact H.
Qed.

(** After [updateCurrentPage] from the callback of the current render the
    snapshot at the cursor is the updated one. *)
Lemma present_updateCurrentPage (updater : Page -> Page)
      (h : History.t AppState) (st : AppState) :
  History.present h = Some st ->
  History.present (updateCurrentPage (History.index h) updater h)
  = Some (currentPageUpdater updater st).
Proof.
  intros Hp. unfold updateCurrentPage.
  destruct (setState_at_cases AppState AppState JSON_stringify AppState_eq_dec
              (History.index h)
              (History.Updater (currentPageUpdater updater)) h st Hp)
    as [[He E]|[_ E]]; rewrite E.
  - unfold JSON_stringify in He. rewrite <- He. exact Hp.
  - apply pushed_shape. eapply present_wf. exact Hp.
Qed.

Lemma filter_all {A} (f : A -> bool) (l : list A) :
  (forall a, In a l -> f a = true) -> filter f l = l.
Proof.
  induction l as [|a l IH]; intros H; cbn; [reflexivity|].
  rewrite (H a) by now left. f_equal. apply IH. intros b Hb. apply H. now right.
Qed.

(** The page left by a deletion request: the strokes and texts whose id
    is not in the request, in their order. *)
Lemma handleItemsDelete_page (ids : DeleteRequest) (st : AppState)
      (page : Page) (h : History.t AppState) :
  History.present h = Some st ->
  currentPage st = Some page ->
  exists st' page',
    History.present (handleItemsDelete (History.index h) ids h) = Some st'
    /\ currentPage st' = Some page'
    /\ strokes page'
       = filter (fun s => negb (Set_has (strokeIds ids) (id s))) (strokes page)
    /\ texts page'
       = filter (fun t => negb (Set_has (textIds ids) (text_id t)))
                (texts page).
Proof.
  intros Hp Hc.
  assert (Hupd :
    exists st' page',
      History.present
        (updateCurrentPage (History.index h)
           (fun page0 =>
              {| page_id := page_id page0;
                 strokes :=
                   filter (fun s => negb (Set_has
                                            (fold_left Set_add (strokeIds ids) [])
                                            (id s))) (strokes page0);
                 texts :=
                   filter (fun t => negb (Set_has
                                            (fold_left Set_add (textIds ids) [])
                                            (text_id t))) (texts page0) |}) h)
      = Some st'
      /\ currentPage st' = Some page'
      /\ strokes page'
         = filter (fun s => negb (Set_has (strokeIds ids) (id s))) (strokes page)
      /\ texts page'
         = filter (fun t => negb (Set_has (textIds ids) (text_id t)))
                  (texts page)).
  { eexists; eexists. split; [apply present_updateCurrentPage; exact Hp|].
    split; [apply currentPage_updated; exact Hc|]. cbn [strokes texts].
    split; apply filter_ext_in; intros a _; rewrite Set_of_list_has;
      reflexivity. }
  unfold handleItemsDelete.
  destruct (strokeIds ids) as [|k1 l1] eqn:Es, (textIds ids) as [|k2 l2] eqn:Et;
    try exact Hupd.
  exists st, page. repeat split; auto; rewrite filter_all; auto.
Qed.

(** The page left by an eraser operation. *)
Lemma eraseAtPoint_page (st : AppState) (page : Page) (h : History.t AppState)
      (point : Point) :
  History.present h = Some st ->
  currentPage st = Some page ->
  let r := eraser_size (eraser (toolSettings st)) / 2 in
  exists st' page',
    History.present (eraseAtPoint st page point (History.index h) h) = Some st'
    /\ currentPage st' = Some page'
    /\ strokes page'
       = filter (fun s => negb (Set_has (strokeIdsToDelete r (strokes page) point)
                                        (id s)))
                (strokes page)
    /\ texts page'
       = filter (fun t => negb (Set_has (textIdsToDelete r (texts page) point)
                                        (text_id t)))
                (texts page).
Proof.
  intros Hp Hc r. unfold eraseAtPoint, eraseRequest. fold r.
  set (sIds := strokeIdsToDelete r (strokes page) point).
  set (tIds := textIdsToDelete r (texts page) point).
  destruct ((0 <? length sIds)%nat || (0 <? length tIds)%nat) eqn:E.
  - exact (handleItemsDelete_page {| strokeIds := sIds; textIds := tIds |}
                                  st page h Hp Hc).
  - apply orb_false_iff in E. destruct E as [E1 E2].
    assert (sIds = []) as -> by (destruct sIds; [reflexivity|discriminate]).
    assert (tIds = []) as -> by (destruct tIds; [reflexivity|discriminate]).
    exists st, page. repeat split; auto; rewrite filter_all; auto.
Qed.

(** C5: on a page whose strokes have pairwise distinct ids, an eraser
    operation at [point] keeps a stroke exactly when none of its points
    is strictly within [eraserRadius + strokeWidth / 2] of [point]: a
    stroke with all its points farther away than that stays, a stroke
    with a point within it is deleted. *)
Theorem eraser_containment (st : AppState) (page : Page)
        (h : History.t AppState) (point : Point) (s : Stroke) :
  History.present h = Some st ->
  currentPage st = Some page ->
  In s (strokes page) ->
  NoDup (map id (strokes page)) ->
  let r := eraser_size (eraser (toolSettings st)) / 2 in
  exists st' page',
    History.present (eraseAtPoint st page point (History.index h) h) = Some st'
    /\ currentPage st' = Some page'
    /\ (In s (strokes page') <-> ~ stroke_within r point s)
    /\ ((forall p, In p (points s) ->
                   getDistance p point > r + strokeWidth s / 2) ->
        In s (strokes page'))
    /\ ((exists p, In p (points s)
                   /\ getDistance p point < r + strokeWidth s / 2) ->
        ~ In s (strokes page')).
Proof.
  intros Hp Hc Hin Hnd r.
  destruct (eraseAtPoint_page st page h point Hp Hc)
    as (st' & page' & Hp' & Hc' & Hs & _).
  fold r in Hs.
  exists st', page'.
  assert (Hiff : In s (strokes page') <-> ~ stroke_within r point s).
  { rewrite Hs, filter_In, negb_true_iff. split.
    - intros [_ Hno] Hw.
      assert (Hk : In (id s) (strokeIdsToDelete r (strokes page) point)).
      { apply strokeIdsToDelete_In. exists s. auto. }
      apply Set_has_In in Hk. congruence.
    - intros Hnw. split; [assumption|].
      destruct (Set_has _ (id s)) eqn:E; [|reflexivity].
      apply Set_has_In, strokeIdsToDelete_In in E.
      destruct E as (s2 & Hin2 & Hid & Hw).
      assert (s2 = s); [|subst; contradiction].
      clear - Hin Hin2 Hid Hnd.
      induction (strokes page) as [|a l IH]; [contradiction|].
      cbn in Hnd. inversion Hnd as [|? ? Hna Hnd']; subst.
      destruct Hin as [->|Hin], Hin2 as [->|Hin2]; auto.
      + exfalso. apply Hna. rewrite <- Hid. apply in_map. assumption.
      + exfalso. apply Hna. rewrite Hid. apply in_map. assumption. }
  repeat split; try assumption; try apply Hiff.
  - intros Hfar. apply Hiff. intros (p & Hpin & Hlt).
    specialize (Hfar p Hpin). lra.
  - intros Hw Hkept. apply Hiff in Hkept. apply Hkept. exact Hw.
Qed.

(** ** Pointer handlers *)

Ltac break_inner :=
  match goal with
  | |- context [match ?X with _ => _ end] =>
      lazymatch X with
      | context [match _ with _ => _ end] => fail
      | _ => destruct X eqn:?
      end
  end.

Ltac handler_cases :=
  repeat (cbn [editor viewTransform cv tool with_hist with_view hist fst snd
               selectionRect set_selectionRect set_selectionStartPoint
               set_drawingShape set_currentStrokePoints set_draggedItem
               set_isDrawing set_lastGesture set_pointers
               set_latestPointerPosition set_isHoveringText];
          try reflexivity; try break_inner).







(** While the select tool drags with one pointer down, a move stores the
    rectangle spanned by the start point and the current point,
    normalized: its corner is the componentwise minimum, its width and
    height are the absolute differences. *)
Lemma select_move_normalizes (env : Env) (e : PointerEvent) (w : World)
      (st : AppState) (page : Page) (start : Point) (v : Point) :
  on_screen w st page ->
  tool w = tool_select ->
  pointers (cv w) = [(pointerId e, v)] ->
  draggedItem (cv w) = None ->
  selectionStartPoint (cv w) = Some start ->
  let point :=
    getPointInWorldSpace env (viewTransform (editor w)) (clientX e) (clientY e) in
  selectionRect (cv (handlePointerMove env e w))
  = Some {| bounds_x := Math_min (x start) (x point);
            bounds_y := Math_min (y start) (y point);
            width := Math_abs (x start - x point);
            height := Math_abs (y start - y point) |}.
Proof.
  intros [Hp Hc] Ht Hps Hd Hs point.
  unfold handlePointerMove, with_render. rewrite Hp, Hc, Ht, Hps, Hd.
  unfold Map_has, Map_set, Map_has. cbn [existsb fst map length].
  rewrite Z.eqb_refl. cbn [orb negb map fst length Nat.eqb Tool_eqb andb].
  rewrite !andb_false_r.
  destruct (isHoveringText (cv w));
    cbn [selectionStartPoint set_isHoveringText set_pointers
         set_latestPointerPosition]; rewrite Hs; reflexivity.
Qed.

(** Releasing the pointer with the select tool drops a rectangle that is
    less than 10 wide or high. *)
Lemma release_drops_small (env : Env) (e : PointerEvent) (w : World)
      (st : AppState) (page : Page) (r : Bounds) :
  on_screen w st page ->
  tool w = tool_select ->
  selectionRect (cv w) = Some r ->
  width r < 10 \/ height r < 10 ->
  selectionRect (cv (handlePointerUp env e w)) = None.
Proof.
  intros [Hp Hc] Ht Hr Hsmall.
  unfold handlePointerUp, with_render. rewrite Hp, Hc, Ht, Hr.
  cbn [Tool_eqb andb].
  assert (Hb : num_lt (width r) 10 || num_lt (height r) 10 = true).
  { apply orb_true_iff. destruct Hsmall; [left|right];
      apply num_lt_true; assumption. }
  rewrite Hb. handler_cases.
Qed.

(** Without a rectangle at release there is none afterwards either. *)
Lemma release_keeps_none (env : Env) (e : PointerEvent) (w : World) :
  selectionRect (cv w) = None ->
  selectionRect (cv (handlePointerUp env e w)) = None.
Proof.
  intros Hr. unfold handlePointerUp, with_render. rewrite Hr.
  handler_cases; assumption.
Qed.

(** C7: when the select tool releases (or loses) the pointer and the
    selection rectangle of the drag, held in world units, is less than 10
    wide or less than 10 high, no selection rectangle is kept. *)
Theorem select_release_discards_small (env : Env) (e : PointerEvent)
        (w : World) (st : AppState) (page : Page) (r : Bounds) :
  on_screen w st page ->
  tool w = tool_select ->
  selectionRect (cv w) = Some r ->
  width r < 10 \/ height r < 10 ->
  selectionRect (cv (handlePointerUp env e w)) = None
  /\ selectionRect (cv (step w (env, PointerUp e))) = None
  /\ selectionRect (cv (step w (env, PointerCancel e))) = None.
Proof.
  intros Hs Ht Hr Hsmall.
  pose proof (release_drops_small env e w st page r Hs Ht Hr Hsmall) as G.
  repeat split; exact G.
Qed.

(** The state in which the select tool leaves the canvas after the first
    pointer has gone down. *)
Lemma select_down_state (env : Env) (e : PointerEvent) (w : World)
      (st : AppState) (page : Page) :
  on_screen w st page ->
  tool w = tool_select ->
  pointers (cv w) = [] ->
  pointerType e <> mouse \/ button e = 0%Z ->
  let point :=
    getPointInWorldSpace env (viewTransform (editor w)) (clientX e) (clientY e) in
  let w1 := handlePointerDown env e w in
  tool w1 = tool_select
  /\ editor w1 = editor w
  /\ pointers (cv w1) = [(pointerId e, mkPoint (clientX e) (clientY e))]
  /\ draggedItem (cv w1) = draggedItem (cv w)
  /\ selectionStartPoint (cv w1) = Some point
  /\ selectionRect (cv w1) = None.
Proof.
  intros [Hp Hc] Ht Hps Hacc point w1. subst w1.
  unfold handlePointerDown, with_render. rewrite Hp, Hc, Ht, Hps.
  destruct (pointerType e), (Z.eqb (button e) 0) eqn:Eb;
    try (cbn; repeat split; reflexivity).
  exfalso. destruct Hacc as [Hm|Hb]; [contradiction|].
  rewrite Hb in Eb. discriminate.
Qed.

Lemma select_move_state (env : Env) (e : PointerEvent) (w : World)
      (st : AppState) (page : Page) (v : Point) :
  on_screen w st page ->
  tool w = tool_select ->
  pointers (cv w) = [(pointerId e, v)] ->
  draggedItem (cv w) = None ->
  tool (handlePointerMove env e w) = tool_select
  /\ editor (handlePointerMove env e w) = editor w.
Proof.
  intros [Hp Hc] Ht Hps Hd.
  unfold handlePointerMove, with_render. rewrite Hp, Hc, Ht, Hps, Hd.
  unfold Map_has, Map_set, Map_has. cbn [existsb fst map length].
  rewrite Z.eqb_refl. cbn [orb negb map fst length Nat.eqb Tool_eqb andb].
  rewrite !andb_false_r.
  destruct (isHoveringText (cv w));
    cbn [selectionStartPoint set_isHoveringText set_pointers
         set_latestPointerPosition];
    destruct (selectionStartPoint (cv w)); split; reflexivity.
Qed.

(** A whole drag of the select tool, from an idle canvas: pointer down at
    [e0], one move to [e1], release at [e2].  The selection that remains
    is none when the normalized rectangle between the two world points is
    less than 10 wide or high, and that rectangle otherwise. *)
Lemma select_drag_outcome (env : Env) (e0 e1 e2 : PointerEvent) (w : World)
      (st : AppState) (page : Page) :
  on_screen w st page ->
  tool w = tool_select ->
  pointers (cv w) = [] ->
  draggedItem (cv w) = None ->
  pointerType e0 <> mouse \/ button e0 = 0%Z ->
  pointerId e1 = pointerId e0 ->
  let vt := viewTransform (editor w) in
  let p0 := getPointInWorldSpace env vt (clientX e0) (clientY e0) in
  let p1 := getPointInWorldSpace env vt (clientX e1) (clientY e1) in
  let r := {| bounds_x := Math_min (x p0) (x p1);
              bounds_y := Math_min (y p0) (y p1);
              width := Math_abs (x p0 - x p1);
              height := Math_abs (y p0 - y p1) |} in
  let w3 := run w [ (env, PointerDown e0); (env, PointerMove e1);
                    (env, PointerUp e2) ] in
  (width r < 10 \/ height r < 10 -> selectionRect (cv w3) = None)
  /\ (10 <= width r /\ 10 <= height r -> selectionRect (cv w3) = Some r).
Proof.
  intros Hs Ht Hps Hd Hacc Hid vt p0 p1 r w3.
  destruct (select_down_state env e0 w st page Hs Ht Hps Hacc)
    as (Ht1 & He1 & Hps1 & Hd1 & Hs1 & _).
  set (w1 := handlePointerDown env e0 w) in *.
  assert (Hon1 : on_screen w1 st page).
  { destruct Hs as [Hp Hc]. split; [rewrite He1; exact Hp|exact Hc]. }
  rewrite <- Hid in Hps1. rewrite Hd in Hd1.
  pose proof (select_move_normalizes env e1 w1 st page _ _
                Hon1 Ht1 Hps1 Hd1 Hs1) as Hr2.
  destruct (select_move_state env e1 w1 st page _ Hon1 Ht1 Hps1 Hd1)
    as (Ht2 & He2).
  cbn zeta in Hr2. rewrite He1 in Hr2. fold vt p0 p1 r in Hr2.
  set (w2 := handlePointerMove env e1 w1) in *.
  assert (Hon2 : on_screen w2 st page).
  { destruct Hon1 as [Hp Hc]. split; [rewrite He2; exact Hp|exact Hc]. }
  assert (Hw3 : w3 = handlePointerUp env e2 w2) by reflexivity.
  rewrite Hw3. split.
  - intros Hsmall.
    apply (release_drops_small env e2 w2 st page r Hon2 Ht2 Hr2 Hsmall).
  - intros [Hw Hh]. destruct Hon2 as [Hp Hc].
    unfold handlePointerUp, with_render. rewrite Hp, Hc, Ht2, Hr2.
    cbn [Tool_eqb andb].
    assert (Hb : num_lt (width r) 10 || num_lt (height r) 10 = false).
    { apply orb_false_iff. split; apply num_lt_false; assumption. }
    rewrite Hb. handler_cases; assumption.
Qed.

(** ** A tap with the shape tool *)

Lemma shape_down_state (env : Env) (e : PointerEvent) (w : World)
      (st : AppState) (page : Page) :
  on_screen w st page ->
  tool w = tool_shape ->
  pointers (cv w) = [] ->
  pointerType e <> mouse \/ button e = 0%Z ->
  let point :=
    getPointInWorldSpace env (viewTransform (editor w)) (clientX e) (clientY e) in
  let w1 := handlePointerDown env e w in
  tool w1 = tool_shape
  /\ editor w1 = editor w
  /\ draggedItem (cv w1) = draggedItem (cv w)
  /\ currentStrokePoints (cv w1) = currentStrokePoints (cv w)
  /\ drawingShape (cv w1)
     = Some {| shape_start := point; shape_end := point |}.
Proof.
  intros [Hp Hc] Ht Hps Hacc point w1. subst w1.
  unfold handlePointerDown, with_render. rewrite Hp, Hc, Ht, Hps.
  destruct (pointerType e), (Z.eqb (button e) 0) eqn:Eb;
    try (cbn; repeat split; reflexivity).
  exfalso. destruct Hacc as [Hm|Hb]; [contradiction|].
  rewrite Hb in Eb. discriminate.
Qed.

(** Pointer down and pointer up at the same place with the rectangle
    shape selected: the page gains a stroke of five equal points, as one
    entry at the cursor of the history. *)
Lemma rectangle_tap_commits_artifact (env : Env) (e : PointerEvent) (w : World)
      (st : AppState) (page : Page) :
  on_screen w st page ->
  tool w = tool_shape ->
  shape_type (shape (toolSettings st)) = rectangle ->
  pointers (cv w) = [] ->
  draggedItem (cv w) = None ->
  pointerType e <> mouse \/ button e = 0%Z ->
  let p :=
    getPointInWorldSpace env (viewTransform (editor w)) (clientX e) (clientY e) in
  let w2 := run w [ (env, PointerDown e); (env, PointerUp e) ] in
  exists st' page',
    on_screen w2 st' page'
    /\ strokes page'
       = strokes page
         ++ [ {| id := now env; points := [p; p; p; p; p];
                 stroke_tool := pen_stroke;
                 strokeWidth := shape_size (shape (toolSettings st));
                 color := shape_color (shape (toolSettings st)) |} ].
Proof.
  intros Hs Ht Hrect Hps Hd Hacc p w2.
  destruct (shape_down_state env e w st page Hs Ht Hps Hacc)
    as (Ht1 & He1 & Hd1 & _ & Hds1).
  fold p in Hds1. rewrite Hd in Hd1.
  assert (Hw2 : w2 = handlePointerUp env e (handlePointerDown env e w))
    by reflexivity.
  set (w1 := handlePointerDown env e w) in *.
  destruct Hs as [Hp Hc].
  assert (Hp1 : History.present (hist (editor w1)) = Some st)
    by (rewrite He1; exact Hp).
  rewrite Hw2. unfold handlePointerUp, with_render.
  rewrite Hp1, Hc, Ht1, Hd1, Hds1, Hrect.
  cbn [Tool_eqb andb shape_start shape_end].
  replace (createStrokesForShape (now env) p p
             (shape_size (shape (toolSettings st)))
             (shape_color (shape (toolSettings st))) rectangle)
    with [ {| id := now env; points := [p; p; p; p; p];
              stroke_tool := pen_stroke;
              strokeWidth := shape_size (shape (toolSettings st));
              color := shape_color (shape (toolSettings st)) |} ]
    by (destruct p; reflexivity).
  cbn [length Nat.ltb Nat.leb].
  eexists; eexists. unfold on_screen.
  cbn [editor hist with_hist]. unfold handleSetStrokes.
  split; [split|].
  - apply present_updateCurrentPage. exact Hp1.
  - apply currentPage_updated. exact Hc.
  - reflexivity.
Qed.

(** With the eraser chosen, the first pointer going down runs
    [eraseAtPoint] at its world point on the page on display. *)
Lemma eraser_pointer_down (env : Env) (e : PointerEvent) (w : World)
      (st : AppState) (page : Page) :
  on_screen w st page ->
  tool w = tool_eraser ->
  pointers (cv w) = [] ->
  pointerType e <> mouse \/ button e = 0%Z ->
  let point :=
    getPointInWorldSpace env (viewTransform (editor w)) (clientX e) (clientY e) in
  hist (editor (handlePointerDown env e w))
  = eraseAtPoint st page point (History.index (hist (editor w)))
                 (hist (editor w)).
Proof.
  intros [Hp Hc] Ht Hps Hacc point.
  unfold handlePointerDown, with_render. rewrite Hp, Hc, Ht, Hps.
  destruct (pointerType e), (Z.eqb (button e) 0) eqn:Eb;
    try (cbn; reflexivity).
  exfalso. destruct Hacc as [Hm|Hb]; [contradiction|].
  rewrite Hb in Eb. discriminate.
Qed.

(** C10: with the eraser at a point where no stroke has a point strictly
    within [eraserRadius + strokeWidth / 2] and no text has the point
    strictly inside its bounds inflated by the eraser radius, no deletion
    request is issued, and pointer-down and pointer-move leave the whole
    history (entries and cursor, hence the page's strokes and texts) as
    it was. *)
Theorem erase_miss_changes_nothing (env : Env) (e : PointerEvent) (w : World)
        (st : AppState) (page : Page) :
  on_screen w st page ->
  tool w = tool_eraser ->
  let point :=
    getPointInWorldSpace env (viewTransform (editor w)) (clientX e) (clientY e) in
  let r := eraser_size (eraser (toolSettings st)) / 2 in
  (forall s, In s (strokes page) -> ~ stroke_within r point s) ->
  (forall t, In t (texts page) -> ~ text_within r point t) ->
  eraseRequest (toolSettings st) (strokes page) (texts page) point = None
  /\ hist (editor (handlePointerDown env e w)) = hist (editor w)
  /\ hist (editor (handlePointerMove env e w)) = hist (editor w)
  /\ History.present (hist (editor (handlePointerDown env e w))) = Some st
  /\ History.present (hist (editor (handlePointerMove env e w))) = Some st.
Proof.
  intros [Hp Hc] Ht point r Hs Htx.
  pose proof (eraseRequest_miss (toolSettings st) (strokes page) (texts page)
                                point Hs Htx) as Hnone.
  assert (Hd : hist (editor (handlePointerDown env e w)) = hist (editor w)).
  { unfold handlePointerDown, with_render. rewrite Hp, Hc, Ht.
    fold point. rewrite (eraseAtPoint_miss st page point _ _ Hnone).
    cbn [Tool_eqb]. handler_cases. }
  assert (Hm : hist (editor (handlePointerMove env e w)) = hist (editor w)).
  { unfold handlePointerMove, with_render. rewrite Hp, Hc, Ht.
    fold point. rewrite (eraseAtPoint_miss st page point _ _ Hnone).
    cbn [Tool_eqb]. handler_cases. }
  rewrite Hd, Hm. repeat split; assumption.
Qed.

(** ** Recognition *)

Lemma fireTimeout_hist (ed : EditorState) : hist (fireTimeout ed) = hist ed.
Proof.
  unfold fireTimeout. destruct (timers ed) as [|[d []] rest]; reflexivity.
Qed.

Lemma fireTimeouts_hist (n : nat) (ed : EditorState) :
  hist (fireTimeouts n ed) = hist ed.
Proof.
  revert ed. induction n as [|n IH]; intros ed; cbn; [reflexivity|].
  rewrite IH. apply fireTimeout_hist.
Qed.

Lemma fireTimeouts_all (ed : EditorState) :
  timers ed <> [] ->
  error (fireTimeouts (length (timers ed)) ed) = None
  /\ timers (fireTimeouts (length (timers ed)) ed) = [].
Proof.
  remember (timers ed) as l eqn:El. revert ed El.
  induction l as [|t l IH]; intros ed El Hne; [congruence|].
  cbn [length fireTimeouts].
  assert (Hf : error (fireTimeout ed) = None /\ timers (fireTimeout ed) = l).
  { unfold fireTimeout. rewrite <- El. destruct t as [d []]. cbn. auto. }
  destruct Hf as [He Htl].
  destruct l as [|t2 l2].
  - cbn. auto.
  - apply IH; [symmetry; exact Htl|discriminate].
Qed.

(** C9: [handleRecognize] does not touch the history before its [await],
    and when the recognition promise rejects it leaves the history (so
    the page's strokes and texts) as it found it, clears
    the loading flag, shows the failure message and schedules its removal
    after 5000 ms; once the pending timers have fired the message is gone
    and the history is still the same. *)
Theorem recognize_failure_keeps_model (c : RecognizeClosure) (time : Z)
        (b : Bounds) (ed : EditorState) :
  let ed' := handleRecognize_settle c time b Rejected ed in
  option_map hist (handleRecognize_begin c ed)
  = (if closure_isLoading c then None else Some (hist ed))
  /\ hist ed' = hist ed
  /\ History.present (hist ed') = History.present (hist ed)
  /\ viewTransform ed' = viewTransform ed
  /\ isLoading ed' = false
  /\ error ed'
     = Some "Failed to recognize handwriting. Please try again."%string
  /\ timers ed' = timers ed ++ [ {| delay := 5000; action := ClearError |} ]
  /\ error (fireTimeouts (length (timers ed')) ed') = None
  /\ hist (fireTimeouts (length (timers ed')) ed') = hist ed.
Proof.
  cbn zeta. repeat split.
  - unfold handleRecognize_begin. destruct (closure_isLoading c); reflexivity.
  - apply fireTimeouts_all. cbn. destruct (timers ed); discriminate.
  - rewrite fireTimeouts_hist. reflexivity.
Qed.

(** * Further properties of the code *)

(** ** Geometry kernel *)

Lemma getDistance_sq (p q : Point) :
  getDistance p q * getDistance p q = (x q - x p) ^ 2 + (y q - y p) ^ 2.
Proof.
  unfold getDistance, Math_sqrt, Math_pow2. apply sqrt_sqrt.
  apply Rplus_le_le_0_compat; apply pow2_ge_0.
Qed.

Lemma getDistance_nonneg (p q : Point) : 0 <= getDistance p q.
Proof. unfold getDistance, Math_sqrt. apply sqrt_pos. Qed.

Lemma getDistance_sym (p q : Point) : getDistance p q = getDistance q p.
Proof.
  unfold getDistance, Math_sqrt, Math_pow2. f_equal. ring.
Qed.

(** A distance is determined by its square. *)
Lemma getDistance_unique (p q : Point) (d : R) :
  0 <= d -> d * d = (x q - x p) ^ 2 + (y q - y p) ^ 2 -> getDistance p q = d.
Proof.
  intros Hd Hsq. unfold getDistance, Math_sqrt, Math_pow2.
  rewrite <- Hsq. apply sqrt_square. exact Hd.
Qed.

Lemma getDistance_dist_euc (p q : Point) :
  getDistance p q = dist_euc (x q) (y q) (x p) (y p).
Proof.
  unfold getDistance, dist_euc, Math_sqrt, Math_pow2, Rsqr. f_equal. ring.
Qed.

(** [getDistance] is a metric on points: it is never negative, it is 0
    exactly between a point and itself, it is symmetric, and it obeys the
    triangle inequality. *)
Theorem getDistance_metric (p q m : Point) :
  0 <= getDistance p q
  /\ (getDistance p q = 0 <-> p = q)
  /\ getDistance p q = getDistance q p
  /\ getDistance p q <= getDistance p m + getDistance m q.
Proof.
  split; [apply getDistance_nonneg|]. split; [|split].
  - split.
    + intros H0. pose proof (getDistance_sq p q) as Hsq. rewrite H0 in Hsq.
      destruct p as [px py], q as [qx qy]; cbn in *.
      assert (Hz : (qx - px)² + (qy - py)² = 0) by (unfold Rsqr; lra).
      apply Rplus_sqr_eq_0 in Hz. destruct Hz. f_equal; lra.
    + intros ->. apply getDistance_same.
  - apply getDistance_sym.
  - rewrite (getDistance_dist_euc p q), (getDistance_dist_euc p m),
      (getDistance_dist_euc m q).
    rewrite Rplus_comm. apply Rgeom.triangle.
Qed.

(** The midpoint is half-way: it is at half the distance from either end. *)
Lemma getMidpoint_halfway (p q : Point) :
  getDistance p (getMidpoint p q) = getDistance p q / 2
  /\ getDistance (getMidpoint p q) q = getDistance p q / 2
  /\ getMidpoint p q = getMidpoint q p.
Proof.
  pose proof (getDistance_nonneg p q) as Hn.
  pose proof (getDistance_sq p q) as Hsq.
  repeat split.
  - apply getDistance_unique; [lra|]. unfold getMidpoint; cbn [x y].
    replace (((x p + x q) / 2 - x p) ^ 2 + ((y p + y q) / 2 - y p) ^ 2)
      with (((x q - x p) ^ 2 + (y q - y p) ^ 2) / 4) by field.
    rewrite <- Hsq. field.
  - apply getDistance_unique; [lra|]. unfold getMidpoint; cbn [x y].
    replace ((x q - (x p + x q) / 2) ^ 2 + (y q - (y p + y q) / 2) ^ 2)
      with (((x q - x p) ^ 2 + (y q - y p) ^ 2) / 4) by field.
    rewrite <- Hsq. field.
  - unfold getMidpoint. f_equal; lra.
Qed.

Lemma num_le_true (a b : R) : num_le a b = true <-> a <= b.
Proof.
  unfold num_le; destruct (Rle_dec a b); split; intros; auto; discriminate.
Qed.


(** ** Shape synthesizer *)

Lemma sqrt_lt_of_sq (v d : R) : 0 <= v -> 0 < d -> v < d * d -> sqrt v < d.
Proof.
  intros Hv Hd Hlt. rewrite <- (sqrt_square d) by lra.
  apply sqrt_lt_1_alt. lra.
Qed.

Lemma Rabs_sq_lt (a d : R) : Rabs a < d -> a ^ 2 < d * d.
Proof.
  intros H. pose proof (Rabs_pos a) as Hp.
  replace (a ^ 2) with (Rabs a * Rabs a).
  - nra.
  - unfold Rabs. destruct (Rcase_abs a); ring.
Qed.

Ltac small_drag_bound :=
  unfold Math_abs, Math_sqrt in *;
  first
    [ lra
    | match goal with
      | |- getDistance ?p ?q < _ =>
          unfold getDistance, Math_sqrt, Math_pow2;
          apply sqrt_lt_of_sq;
          [ apply Rplus_le_le_0_compat; apply pow2_ge_0 | lra | ]
      | |- sqrt _ < _ => apply sqrt_lt_of_sq; [ nra | lra | ]
      end ].

(** The degenerate-drag guard of the fourteen guarded kinds: a drag less
    than one unit wide and less than one unit high yields no stroke. *)
Theorem small_drag_is_rejected (idBase : Z) (p q : Point) (sw : R) (c : string)
        (type : ShapeType) :
  guarded type = true ->
  Math_abs (x q - x p) < 1 ->
  Math_abs (y q - y p) < 1 ->
  createStrokesForShape idBase p q sw c type = [].
Proof.
  intros G Hw Hh.
  pose proof (Rabs_pos (x q - x p)) as Pw.
  pose proof (Rabs_pos (y q - y p)) as Ph.
  pose proof (Rabs_sq_lt _ _ Hw) as Sw.
  pose proof (Rabs_sq_lt _ _ Hh) as Sh.
  destruct type; try discriminate G; unfold createStrokesForShape; cbv zeta;
    repeat match goal with
      | |- context [num_lt ?a ?b] =>
          let H := fresh "L" in
          assert (H : num_lt a b = true)
            by (apply num_lt_true; small_drag_bound; unfold Math_abs in *; nra);
          rewrite H; clear H
      end;
    reflexivity.
Qed.

Lemma ellipse_steps_ge (radiusX radiusY : R) : 32 <= ellipse_steps radiusX radiusY.
Proof. unfold ellipse_steps, Math_max. apply Rmax_l. Qed.

Lemma Int_part_ge_32 (v : R) : 32 <= v -> (32 <= Int_part v)%Z.
Proof.
  intros H. destruct (base_Int_part v) as [_ Hb].
  assert (Hlt : IZR 31 < IZR (Int_part v)) by lra.
  apply lt_IZR in Hlt. lia.
Qed.








(** The square: the drawn rectangle starts at the first corner of the
    drag, both its sides have the larger of the drag's two extents, and
    it extends to the side the drag went (right and down when an extent
    is zero). *)
Theorem square_has_equal_sides (idBase : Z) (p q : Point) (sw : R) (c : string) :
  let size := Math_max (Math_abs (x q - x p)) (Math_abs (y q - y p)) in
  let X := if Rle_dec 0 (x q - x p) then x p + size else x p - size in
  let Y := if Rle_dec 0 (y q - y p) then y p + size else y p - size in
  createStrokesForShape idBase p q sw c square
  = [ stroke_of sw c idBase
        [ p; mkPoint X (y p); mkPoint X Y; mkPoint (x p) Y; p ] ]
  /\ Math_abs (X - x p) = size
  /\ Math_abs (Y - y p) = size.
Proof.
  intros size X Y.
  assert (Hsize : 0 <= size).
  { unfold size, Math_max, Math_abs. eapply Rle_trans; [apply Rabs_pos|apply Rmax_l]. }
  assert (Hsign : forall v, size * Math_sign (or_default v 1)
                            = if Rle_dec 0 v then size else - size).
  { intros v. unfold Math_sign, or_default.
    destruct (Req_dec_T v 0) as [->|Hv].
    - destruct (Rlt_dec 0 1); [|lra]. destruct (Rle_dec 0 0); lra.
    - destruct (Rlt_dec 0 v), (Rle_dec 0 v); try lra.
      destruct (Rlt_dec v 0); lra. }
  split; [|split].
  - unfold createStrokesForShape; cbv zeta. fold size.
    rewrite !Hsign. unfold X, Y. destruct p as [px py]; cbn [x y].
    destruct (Rle_dec 0 (x q - px)), (Rle_dec 0 (y q - py)); reflexivity.
  - unfold X, Math_abs. destruct (Rle_dec 0 (x q - x p)).
    + replace (x p + size - x p) with size by ring. apply Rabs_pos_eq; assumption.
    + replace (x p - size - x p) with (- size) by ring. rewrite Rabs_Ropp.
      apply Rabs_pos_eq; assumption.
  - unfold Y, Math_abs. destruct (Rle_dec 0 (y q - y p)).
    + replace (y p + size - y p) with size by ring. apply Rabs_pos_eq; assumption.
    + replace (y p - size - y p) with (- size) by ring. rewrite Rabs_Ropp.
      apply Rabs_pos_eq; assumption.
Qed.

Lemma sqrt3_sq : sqrt 3 * sqrt 3 = 3.
Proof. apply sqrt_sqrt. lra. Qed.

(** The triangle over a drag of length at least 2 is the closed polyline
    through the two ends of the drag and an apex at the drag's length
    from both ends: it is equilateral. *)
Theorem triangle_is_equilateral (idBase : Z) (p q : Point) (sw : R) (c : string) :
  2 <= getDistance p q ->
  exists r : Point,
    createStrokesForShape idBase p q sw c triangle
    = [ stroke_of sw c idBase [ p; q; r; p ] ]
    /\ getDistance p r = getDistance p q
    /\ getDistance q r = getDistance p q.
Proof.
  intros Hside.
  set (side := getDistance p q) in *.
  pose proof (getDistance_sq p q) as Hsq. fold side in Hsq.
  pose proof sqrt3_sq as H3.
  assert (Hne : side <> 0) by lra.
  exists {| x := (x p + x q) / 2
                  - side * Math_sqrt 3 / 2 * ((y q - y p) / side);
            y := (y p + y q) / 2
                  + side * Math_sqrt 3 / 2 * ((x q - x p) / side) |}.
  split; [|split].
  - unfold createStrokesForShape; cbv zeta. fold side.
    assert (L : num_lt side 2 = false) by (apply num_lt_false; lra).
    rewrite L. destruct p as [px py], q as [qx qy]. cbn [x y one_stroke].
    reflexivity.
  - apply getDistance_unique; [lra|]. cbn [x y]. unfold Math_sqrt.
    destruct p as [px py], q as [qx qy]; cbn [x y] in *.
    set (s3 := sqrt 3) in *.
    transitivity (((qx - px) ^ 2 + (qy - py) ^ 2)
                  + (s3 * s3 - 3) * ((qx - px) ^ 2 + (qy - py) ^ 2) / 4
                    * (side * side / (side * side))).
    + rewrite H3. rewrite Hsq. lra.
    + field. assumption.
  - apply getDistance_unique; [lra|]. cbn [x y]. unfold Math_sqrt.
    destruct p as [px py], q as [qx qy]; cbn [x y] in *.
    set (s3 := sqrt 3) in *.
    transitivity (((qx - px) ^ 2 + (qy - py) ^ 2)
                  + (s3 * s3 - 3) * ((qx - px) ^ 2 + (qy - py) ^ 2) / 4
                    * (side * side / (side * side))).
    + rewrite H3. rewrite Hsq. lra.
    + field. assumption.
Qed.


(** The arrow is always two strokes, the shaft from start to end and a
    head through the end point; both barbs of the head are
    [min(20, length / 3)] long, so at most 20 and at most a third of the
    shaft. *)
Lemma arrow_head_is_bounded (idBase : Z) (p q : Point) (sw : R) (c : string) :
  let len := Math_min 20 (getDistance p q / 3) in
  exists b1 b2 : Point,
    createStrokesForShape idBase p q sw c arrow
    = [ stroke_of sw c idBase [ p; q ];
        stroke_of sw c (idBase + 1) [ b1; q; b2 ] ]
    /\ getDistance q b1 = len
    /\ getDistance q b2 = len
    /\ 0 <= len <= 20
    /\ len <= getDistance p q / 3.
Proof.
  intros len.
  assert (Hlen : 0 <= len).
  { unfold len, Math_min. pose proof (getDistance_nonneg p q).
    apply Rmin_glb; lra. }
  set (angle := Math_atan2 (y q - y p) (x q - x p)).
  exists {| x := x q - len * Math_cos (angle - Math_PI / 6);
            y := y q - len * Math_sin (angle - Math_PI / 6) |},
         {| x := x q - len * Math_cos (angle + Math_PI / 6);
            y := y q - len * Math_sin (angle + Math_PI / 6) |}.
  split; [|split; [|split; [|split]]].
  - destruct p, q; reflexivity.
  - apply getDistance_unique; [exact Hlen|]. cbn [x y].
    unfold Math_cos, Math_sin.
    pose proof (sin2_cos2 (angle - Math_PI / 6)) as H. unfold Rsqr in H.
    transitivity (len * len * (sin (angle - Math_PI / 6) * sin (angle - Math_PI / 6)
                  + cos (angle - Math_PI / 6) * cos (angle - Math_PI / 6)));
      [rewrite H; ring | ring].
  - apply getDistance_unique; [exact Hlen|]. cbn [x y].
    unfold Math_cos, Math_sin.
    pose proof (sin2_cos2 (angle + Math_PI / 6)) as H. unfold Rsqr in H.
    transitivity (len * len * (sin (angle + Math_PI / 6) * sin (angle + Math_PI / 6)
                  + cos (angle + Math_PI / 6) * cos (angle + Math_PI / 6)));
      [rewrite H; ring | ring].
  - split; [exact Hlen|]. unfold len, Math_min. apply Rmin_l.
  - unfold len, Math_min. apply Rmin_r.
Qed.



Lemma range_le_head (steps : R) :
  0 <= steps ->
  exists l, range_le steps = 0%nat :: l
            /\ length l = Z.to_nat (Int_part steps)
            /\ l = seq 1 (Z.to_nat (Int_part steps)).
Proof.
  intros H. unfold range_le. destruct (Rlt_dec steps 0); [lra|].
  rewrite <- cons_seq. eexists. split; [reflexivity|].
  split; [apply length_seq|reflexivity].
Qed.

Lemma on_ellipse (ccx ccy a b t : R) :
  a <> 0 -> b <> 0 ->
  ((ccx + a * Math_cos t - ccx) / a) ^ 2
  + ((ccy + b * Math_sin t - ccy) / b) ^ 2 = 1.
Proof.
  intros Ha Hb. unfold Math_cos, Math_sin.
  pose proof (sin2_cos2 t) as H. unfold Rsqr in H.
  transitivity (sin t * sin t + cos t * cos t); [field; auto|exact H].
Qed.

(** Circle and oval with both radii at least 1: one stroke of at least
    33 points that starts at the rightmost point of the ellipse; every
    point lies on the ellipse centred in the drag rectangle (for the
    circle both radii are half the drag's width).  When the step count is
    32 the stroke has exactly 33 points and ends where it starts. *)
Theorem ellipse_walk_is_on_ellipse (idBase : Z) (p q : Point) (sw : R)
        (c : string) (type : ShapeType) :
  type = circle \/ type = oval ->
  let ccx := x p + (x q - x p) / 2 in
  let ccy := y p + (y q - y p) / 2 in
  let radiusX := Math_abs (x q - x p) / 2 in
  let radiusY := match type with
                 | circle => radiusX
                 | _ => Math_abs (y q - y p) / 2
                 end in
  1 <= radiusX -> 1 <= radiusY ->
  exists (rest : list Point),
    createStrokesForShape idBase p q sw c type
    = [ stroke_of sw c idBase (mkPoint (ccx + radiusX) ccy :: rest) ]
    /\ (32 <= length rest)%nat
    /\ (forall v, In v (mkPoint (ccx + radiusX) ccy :: rest) ->
                  ((x v - ccx) / radiusX) ^ 2 + ((y v - ccy) / radiusY) ^ 2 = 1)
    /\ (Math_floor (Math_PI * (radiusX + radiusY)) / 4 <= 32 ->
        length rest = 32%nat
        /\ last rest (mkPoint 0 0) = mkPoint (ccx + radiusX) ccy).
Proof.
  intros Ht ccx ccy radiusX radiusY HX HY.
  assert (LX : num_lt radiusX 1 = false) by (apply num_lt_false; lra).
  assert (LY : num_lt radiusY 1 = false) by (apply num_lt_false; lra).
  set (steps := ellipse_steps radiusX radiusY).
  assert (Hres : createStrokesForShape idBase p q sw c type
                 = one_stroke idBase sw c
                     (ellipse_walk steps ccx ccy radiusX radiusY)).
  { unfold createStrokesForShape; cbv zeta. fold radiusX.
    destruct Ht as [-> | ->]; cbn match in *; fold radiusY;
      rewrite ?LX, ?LY; reflexivity. }
  pose proof (ellipse_steps_ge radiusX radiusY) as Hsteps. fold steps in Hsteps.
  destruct (range_le_head steps) as (l & Hl & Hlen & Hseq); [lra|].
  pose proof (Int_part_ge_32 steps Hsteps) as Hip.
  set (f := fun i : nat =>
              let angle := INR i / steps * 2 * Math_PI in
              {| x := ccx + radiusX * Math_cos angle;
                 y := ccy + radiusY * Math_sin angle |}).
  assert (Hwalk : ellipse_walk steps ccx ccy radiusX radiusY
                  = mkPoint (ccx + radiusX) ccy :: map f l).
  { unfold ellipse_walk. rewrite Hl. cbn [map]. f_equal.
    cbn [INR]. replace (0 / steps * 2 * Math_PI) with 0 by (unfold Rdiv; ring).
    unfold Math_cos, Math_sin. rewrite cos_0, sin_0. f_equal; ring. }
  exists (map f l). rewrite Hres, Hwalk. split; [reflexivity|].
  split; [rewrite length_map; lia|]. split.
  - intros v [<-|Hv].
    + cbn [x y]. transitivity (1 ^ 2 + 0 ^ 2); [|ring].
      f_equal; f_equal; field; lra.
    + apply in_map_iff in Hv. destruct Hv as (i & <- & _).
      unfold f; cbv zeta; cbn [x y]. apply on_ellipse; lra.
  - intros Hsmall.
    assert (Hs32 : steps = 32).
    { unfold steps, ellipse_steps, Math_max. apply Rmax_left. exact Hsmall. }
    assert (Hi : Int_part steps = 32%Z).
    { rewrite Hs32. symmetry. apply Int_part_spec. lra. }
    split; [rewrite length_map, Hlen, Hi; reflexivity|].
    rewrite Hseq, Hi.
    change (Z.to_nat 32) with 32%nat.
    change (seq 1 32) with (seq 1 31 ++ [32%nat]).
    rewrite map_app. cbn [map]. rewrite last_last.
    unfold f; cbv zeta. rewrite Hs32.
    replace (INR 32 / 32 * 2 * Math_PI) with (2 * PI).
    + unfold Math_cos, Math_sin. rewrite cos_2PI, sin_2PI. f_equal; ring.
    + unfold Math_PI. replace (INR 32) with 32; [field|].
      rewrite INR_IZR_INZ. reflexivity.
Qed.

(** ** History manager, continued *)

Section MoreHistoryFacts.

Variable T K : Type.
Variable stringify : T -> K.
Variable K_eq_dec : forall a b : K, {a = b} + {a <> b}.

Local Notation "'commit'" := (History.commit stringify K_eq_dec).

Lemma undo_wf (h : History.t T) : History.wf h -> History.wf (History.undo h).
Proof.
  unfold History.wf, History.undo. intros H.
  destruct (0 <? History.index h)%nat; cbn [History.index History.history]; lia.
Qed.

Lemma redo_wf (h : History.t T) : History.wf h -> History.wf (History.redo h).
Proof.
  unfold History.wf, History.redo, History.redo_at. intros H.
  destruct (Nat.ltb_spec (History.index h) (length (History.history h) - 1));
    cbn [History.index History.history]; lia.
Qed.

(** Whatever sequence of [setState], [undo] and [redo] is applied to a
    fresh history, the cursor stays a valid index: the hook always has a
    current state to return. *)
Theorem history_cursor_always_valid (initialState : T)
        (ops : list (HistoryOp T)) :
  let h := fold_left (apply_op stringify K_eq_dec) ops
                     (History.init initialState) in
  (History.index h < length (History.history h))%nat
  /\ exists state, History.present h = Some state.
Proof.
  cbv zeta.
  assert (G : forall h, History.wf h ->
                History.wf (fold_left (apply_op stringify K_eq_dec) ops h)).
  { induction ops as [|op l IH]; intros h Hwf; cbn [fold_left]; [exact Hwf|].
    apply IH. destruct op; cbn [apply_op].
    - apply setState_wf. exact Hwf.
    - apply undo_wf. exact Hwf.
    - apply redo_wf. exact Hwf. }
  assert (Hwf : History.wf (fold_left (apply_op stringify K_eq_dec) ops
                                      (History.init initialState))).
  { apply G. unfold History.wf, History.init. cbn. lia. }
  split; [exact Hwf|]. apply wf_present. exact Hwf.
Qed.

(** A commit of a state that serialises differently from the current one
    keeps the entries up to the cursor, drops the redo suffix, appends
    the state and moves the cursor onto it; then [undo] is enabled, [redo]
    is not, [undo] shows the previous state again and [redo] after it
    returns to the committed one. *)
Theorem commit_appends_and_undo_restores (h : History.t T) (p s : T) :
  History.present h = Some p ->
  stringify s <> stringify p ->
  History.history (commit s h)
  = firstn (History.index h + 1) (History.history h) ++ [s]
  /\ History.index (commit s h) = (History.index h + 1)%nat
  /\ History.present (commit s h) = Some s
  /\ History.canUndo (commit s h) = true
  /\ History.canRedo (commit s h) = false
  /\ History.present (History.undo (commit s h)) = Some p
  /\ History.redo (History.undo (commit s h)) = commit s h.
Proof.
  intros Hp Hne.
  pose proof (present_wf _ _ _ Hp) as Hwf. unfold History.wf in Hwf.
  assert (E : commit s h = pushed (History.index h) s h).
  { unfold History.commit, History.setState.
    destruct (setState_at_cases T K stringify K_eq_dec (History.index h)
                (History.Value s) h p Hp) as [[He _]|[_ E]]; cbn in *;
      [congruence|exact E]. }
  destruct (pushed_shape T (History.index h) s h Hwf) as (Hl & Hi & Hs & Hf).
  rewrite E.
  assert (Hu : History.undo (pushed (History.index h) s h)
               = History.mk (History.history (pushed (History.index h) s h))
                            (History.index h)).
  { unfold History.undo. rewrite Hi.
    destruct (Nat.ltb_spec 0 (History.index h + 1)); [|lia].
    f_equal. lia. }
  repeat split.
  - exact Hi.
  - exact Hs.
  - unfold History.canUndo. rewrite Hi. apply Nat.ltb_lt. lia.
  - unfold History.canRedo. rewrite Hl, Hi. apply Nat.ltb_ge. lia.
  - rewrite Hu. unfold History.present. cbn [History.history History.index].
    unfold pushed. cbn [History.history].
    rewrite nth_error_app1 by (rewrite length_firstn; lia).
    rewrite nth_error_firstn.
    destruct (Nat.ltb_spec (History.index h) (History.index h + 1)); [|lia].
    exact Hp.
  - rewrite Hu. unfold History.redo, History.redo_at.
    cbn [History.history History.index]. rewrite Hl.
    destruct (Nat.ltb_spec (History.index h) (History.index h + 2 - 1)); [|lia].
    rewrite <- Hi. destruct (pushed (History.index h) s h); reflexivity.
Qed.

(** The flags tell exactly whether the operation does anything: [undo]
    leaves the history as it is if and only if [canUndo] is false, and
    likewise [redo] and [canRedo]; and where [redo] is enabled, [undo]
    after it gives back the history. *)
Lemma flags_tell_whether_operations_act (h : History.t T) :
  (History.canUndo h = false <-> History.undo h = h)
  /\ (History.canRedo h = false <-> History.redo h = h)
  /\ (History.canRedo h = true -> History.undo (History.redo h) = h).
Proof.
  destruct h as [l i].
  unfold History.canUndo, History.canRedo, History.undo, History.redo,
    History.redo_at. cbn [History.index History.history].
  split; [|split].
  - destruct (Nat.ltb_spec 0 i); split; intros H0; try reflexivity;
      try discriminate.
    injection H0. lia.
  - destruct (Nat.ltb_spec i (length l - 1)); split; intros H0;
      try reflexivity; try discriminate.
    injection H0. lia.
  - intros Hc. rewrite Hc. cbn [History.index History.history].
    destruct (Nat.ltb_spec 0 (i + 1)); [|lia]. f_equal. lia.
Qed.

End MoreHistoryFacts.

(** ** The editor component, continued *)

(** The snapshot shown after a [setState] of the current render. *)
Lemma present_after_setState (a : History.Action AppState)
      (h : History.t AppState) (st : AppState) :
  History.present h = Some st ->
  History.present (History.setState_at JSON_stringify AppState_eq_dec
                                       (History.index h) a h)
  = Some (match a with History.Updater f => f st | History.Value v => v end).
Proof.
  intros Hp.
  destruct (setState_at_cases AppState AppState JSON_stringify AppState_eq_dec
              (History.index h) a h st Hp) as [[He E]|[_ E]]; rewrite E.
  - unfold JSON_stringify in He. rewrite <- He. exact Hp.
  - apply pushed_shape. eapply present_wf. exact Hp.
Qed.

(** A [setState] that changes the snapshot is undone by one [undo]. *)
Lemma undo_after_setState (a : History.Action AppState)
      (h : History.t AppState) (st : AppState) :
  History.present h = Some st ->
  (match a with History.Updater f => f st | History.Value v => v end) <> st ->
  let h' := History.setState_at JSON_stringify AppState_eq_dec
                                (History.index h) a h in
  History.present (History.undo h') = Some st
  /\ History.index h' = (History.index h + 1)%nat
  /\ History.canRedo h' = false.
Proof.
  intros Hp Hne h'.
  pose proof (present_wf _ _ _ Hp) as Hwf. unfold History.wf in Hwf.
  assert (E : h' = pushed (History.index h)
                     (match a with History.Updater f => f st
                                 | History.Value v => v end) h).
  { subst h'.
    destruct (setState_at_cases AppState AppState JSON_stringify AppState_eq_dec
                (History.index h) a h st Hp) as [[He _]|[_ E]].
    - unfold JSON_stringify in He. congruence.
    - exact E. }
  destruct (pushed_shape AppState (History.index h)
              (match a with History.Updater f => f st
                          | History.Value v => v end) h Hwf)
    as (Hl & Hi & _ & _).
  rewrite E. split; [|split; [exact Hi|]].
  - unfold History.undo. rewrite Hi.
    destruct (Nat.ltb_spec 0 (History.index h + 1)); [|lia].
    unfold History.present, pushed. cbn [History.history History.index].
    replace (History.index h + 1 - 1)%nat with (History.index h) by lia.
    rewrite nth_error_app1 by (rewrite length_firstn; lia).
    rewrite nth_error_firstn.
    destruct (Nat.ltb_spec (History.index h) (History.index h + 1)); [|lia].
    exact Hp.
  - unfold History.canRedo. rewrite Hl, Hi. apply Nat.ltb_ge. lia.
Qed.

Lemma nth_error_array_set_other {A} (l : list A) (i j : nat) (v : A) :
  i <> j -> nth_error (array_set l i v) j = nth_error l j.
Proof.
  revert i j. induction l as [|b l IH]; intros [|i] [|j] H; cbn;
    try reflexivity; try congruence.
  apply IH. congruence.
Qed.

Lemma length_array_set {A} (l : list A) (i : nat) (v : A) :
  length (array_set l i v) = length l.
Proof.
  revert i. induction l as [|b l IH]; intros [|i]; cbn; auto.
Qed.

Lemma page_update_frame_aux (updater : Page -> Page) (st : AppState)
      (page : Page) :
  currentPage st = Some page ->
  currentPage (currentPageUpdater updater st) = Some (updater page)
  /\ length (pages (currentPageUpdater updater st)) = length (pages st)
  /\ toolSettings (currentPageUpdater updater st) = toolSettings st.
Proof.
  intros Hc. split; [apply currentPage_updated; exact Hc|].
  unfold currentPageUpdater. rewrite Hc. unfold with_pages; cbn.
  split; [apply length_array_set|reflexivity].
Qed.

(** A page update touches the current page only: the other pages, the
    number of pages, the page index and every setting stay as they were. *)
Theorem page_update_touches_current_page_only (updater : Page -> Page)
        (st : AppState) (page : Page) :
  currentPage st = Some page ->
  let st' := currentPageUpdater updater st in
  currentPage st' = Some (updater page)
  /\ length (pages st') = length (pages st)
  /\ currentPageIndex st' = currentPageIndex st
  /\ (forall j, j <> currentPageIndex st ->
                nth_error (pages st') j = nth_error (pages st) j)
  /\ canvasStyle st' = canvasStyle st
  /\ toolSettings st' = toolSettings st
  /\ isGlobalStyleEnabled st' = isGlobalStyleEnabled st
  /\ isSpellingCorrectionEnabled st' = isSpellingCorrectionEnabled st
  /\ answerLength st' = answerLength st.
Proof.
  intros Hc st'. split; [apply currentPage_updated; exact Hc|].
  subst st'. unfold currentPageUpdater. rewrite Hc.
  unfold with_pages; cbn.
  split; [apply length_array_set|]. split; [reflexivity|].
  split; [|repeat split].
  intros j Hj. apply nth_error_array_set_other. congruence.
Qed.

(** The page after a deletion request, in full. *)
Lemma handleItemsDelete_result (ids : DeleteRequest) (st : AppState)
      (page : Page) (h : History.t AppState) :
  History.present h = Some st ->
  currentPage st = Some page ->
  exists st',
    History.present (handleItemsDelete (History.index h) ids h) = Some st'
    /\ currentPage st'
       = Some {| page_id := page_id page;
                 strokes := filter (fun s => negb (Set_has (strokeIds ids) (id s)))
                                   (strokes page);
                 texts := filter (fun t => negb (Set_has (textIds ids) (text_id t)))
                                 (texts page) |}.
Proof.
  intros Hp Hc.
  assert (Hsame : forall (l1 : list Stroke) (l2 : list RecognizedText),
             {| page_id := page_id page;
                strokes := filter (fun s => negb (Set_has
                                     (fold_left Set_add (strokeIds ids) [])
                                     (id s))) l1;
                texts := filter (fun t => negb (Set_has
                                     (fold_left Set_add (textIds ids) [])
                                     (text_id t))) l2 |}
             = {| page_id := page_id page;
                  strokes := filter (fun s => negb (Set_has (strokeIds ids) (id s))) l1;
                  texts := filter (fun t => negb (Set_has (textIds ids) (text_id t))) l2 |}).
  { intros l1 l2. f_equal; apply filter_ext_in; intros a _;
      rewrite Set_of_list_has; reflexivity. }
  unfold handleItemsDelete.
  destruct (strokeIds ids) as [|k1 l1] eqn:Es, (textIds ids) as [|k2 l2] eqn:Et.
  - exists st. split; [exact Hp|]. rewrite Hc. f_equal.
    destruct page as [pid ss ts]; cbn.
    rewrite !filter_all; auto.
  - eexists. split; [apply present_updateCurrentPage; exact Hp|].
    rewrite (currentPage_updated _ _ _ Hc). rewrite <- Es, <- Et.
    f_equal. rewrite Es, Et. apply Hsame.
  - eexists. split; [apply present_updateCurrentPage; exact Hp|].
    rewrite (currentPage_updated _ _ _ Hc). rewrite <- Es, <- Et.
    f_equal. rewrite Es, Et. apply Hsame.
  - eexists. split; [apply present_updateCurrentPage; exact Hp|].
    rewrite (currentPage_updated _ _ _ Hc). rewrite <- Es, <- Et.
    f_equal. rewrite Es, Et. apply Hsame.
Qed.

(** A deletion request removes from the current page exactly the strokes
    and texts whose ids it lists: whatever else was on the page stays, in
    its order, and the page keeps its id. *)
Theorem delete_request_removes_exactly (ids : DeleteRequest) (st : AppState)
        (page : Page) (h : History.t AppState) :
  History.present h = Some st ->
  currentPage st = Some page ->
  exists st' page',
    History.present (handleItemsDelete (History.index h) ids h) = Some st'
    /\ currentPage st' = Some page'
    /\ page_id page' = page_id page
    /\ (forall s, In s (strokes page')
                  <-> In s (strokes page) /\ ~ In (id s) (strokeIds ids))
    /\ (forall t, In t (texts page')
                  <-> In t (texts page) /\ ~ In (text_id t) (textIds ids))
    /\ strokes page'
       = filter (fun s => negb (Set_has (strokeIds ids) (id s))) (strokes page)
    /\ texts page'
       = filter (fun t => negb (Set_has (textIds ids) (text_id t))) (texts page).
Proof.
  intros Hp Hc.
  destruct (handleItemsDelete_result ids st page h Hp Hc) as (st' & Hp' & Hc').
  eexists; eexists. split; [exact Hp'|]. split; [exact Hc'|].
  cbn [page_id strokes texts]. split; [reflexivity|].
  split; [|split; [|split; reflexivity]].
  - intros s. rewrite filter_In, negb_true_iff.
    rewrite <- not_true_iff_false, Set_has_In. tauto.
  - intros t. rewrite filter_In, negb_true_iff.
    rewrite <- not_true_iff_false, Set_has_In. tauto.
Qed.

(** The eraser and texts: on a page whose texts have pairwise distinct
    ids, an eraser operation keeps a text exactly when the query point is
    not strictly inside its bounds inflated by the eraser radius. *)
Theorem eraser_text_containment (st : AppState) (page : Page)
        (h : History.t AppState) (point : Point) (t : RecognizedText) :
  History.present h = Some st ->
  currentPage st = Some page ->
  In t (texts page) ->
  NoDup (map text_id (texts page)) ->
  let r := eraser_size (eraser (toolSettings st)) / 2 in
  exists st' page',
    History.present (eraseAtPoint st page point (History.index h) h) = Some st'
    /\ currentPage st' = Some page'
    /\ (In t (texts page') <-> ~ text_within r point t).
Proof.
  intros Hp Hc Hin Hnd r.
  destruct (eraseAtPoint_page st page h point Hp Hc)
    as (st' & page' & Hp' & Hc' & _ & Ht).
  fold r in Ht. exists st', page'. split; [exact Hp'|]. split; [exact Hc'|].
  rewrite Ht, filter_In, negb_true_iff. split.
  - intros [_ Hno] Hw.
    assert (Hk : In (text_id t) (textIdsToDelete r (texts page) point)).
    { apply textIdsToDelete_In. exists t. auto. }
    apply Set_has_In in Hk. congruence.
  - intros Hnw. split; [assumption|].
    destruct (Set_has _ (text_id t)) eqn:E; [|reflexivity].
    apply Set_has_In, textIdsToDelete_In in E.
    destruct E as (t2 & Hin2 & Hid & Hw).
    assert (t2 = t); [|subst; contradiction].
    clear - Hin Hin2 Hid Hnd.
    induction (texts page) as [|a l IH]; [contradiction|].
    cbn in Hnd. inversion Hnd as [|? ? Hna Hnd']; subst.
    destruct Hin as [->|Hin], Hin2 as [->|Hin2]; auto.
    + exfalso. apply Hna. rewrite <- Hid. apply in_map. assumption.
    + exfalso. apply Hna. rewrite Hid. apply in_map. assumption.
Qed.

(** [handleTextUpdate] moves the texts with the given id and nothing
    else: the strokes stay, the texts keep their number, order, ids,
    contents and fonts, a text with the id gets the new bounds and every
    other text keeps its own. *)
Theorem text_update_moves_only_that_text (textId : Z) (newBounds : Bounds)
        (st : AppState) (page : Page) (h : History.t AppState) :
  History.present h = Some st ->
  currentPage st = Some page ->
  exists st' page',
    History.present (handleTextUpdate (History.index h) textId newBounds h)
    = Some st'
    /\ currentPage st' = Some page'
    /\ strokes page' = strokes page
    /\ map text_id (texts page') = map text_id (texts page)
    /\ map text (texts page') = map text (texts page)
    /\ map text_fontSize (texts page') = map text_fontSize (texts page)
    /\ map text_fontFamily (texts page') = map text_fontFamily (texts page)
    /\ (forall n t, nth_error (texts page) n = Some t ->
          exists t', nth_error (texts page') n = Some t'
                     /\ bounds t' = (if Z.eqb (text_id t) textId
                                     then newBounds else bounds t)).
Proof.
  intros Hp Hc. unfold handleTextUpdate.
  eexists; eexists. split; [apply present_updateCurrentPage; exact Hp|].
  split; [apply currentPage_updated; exact Hc|]. cbn [strokes texts].
  split; [reflexivity|].
  repeat split; try (rewrite map_map; apply map_ext; intros t;
                     destruct (Z.eqb (text_id t) textId); reflexivity).
  intros n t Hn. eexists. split.
  - rewrite nth_error_map, Hn. reflexivity.
  - destruct (Z.eqb (text_id t) textId); reflexivity.
Qed.

Lemma Math_round_nearest (v : R) :
  exists k : Z, Math_round v = IZR k /\ - / 2 < Math_round v - v <= / 2.
Proof.
  unfold Math_round. exists (Int_part (v + / 2)). split; [reflexivity|].
  destruct (base_Int_part (v + / 2)) as [H1 H2]. lra.
Qed.

(** A line spacing of 80: the snapped baseline is a multiple of 80 at
    most 40 away from the raw one. *)
Lemma snap_to_rule (baseline : R) :
  exists k : Z,
    Math_round (baseline / 80) * 80 = 80 * IZR k
    /\ Rabs (Math_round (baseline / 80) * 80 - baseline) <= 40.
Proof.
  destruct (Math_round_nearest (baseline / 80)) as (k & Hk & Hn).
  exists k. split; [rewrite Hk; ring|].
  apply Rabs_le. lra.
Qed.

(** A resolved recognition, settled by the render that started it: the
    current page loses all its strokes and gains one text at the end,
    with the recognized string, the id [Date.now()] and the canvas font;
    the text has the bounds of the recognized region, except that on the
    copybook background its top is moved by at most 40 so that its
    baseline (top plus font size) is a multiple of 80.  The loading flag
    is cleared and one [undo] brings the strokes back. *)
Theorem recognition_replaces_strokes_by_text (c : RecognizeClosure) (time : Z)
        (b : Bounds) (result : string) (ed : EditorState) (st : AppState)
        (page : Page) :
  History.present (hist ed) = Some st ->
  currentPage st = Some page ->
  closure_index c = History.index (hist ed) ->
  let ed' := handleRecognize_settle c time b (Resolved result) ed in
  let style := canvasStyle (closure_state c) in
  exists st' newText,
    History.present (hist ed') = Some st'
    /\ currentPage st'
       = Some {| page_id := page_id page; strokes := [];
                 texts := texts page ++ [newText] |}
    /\ text_id newText = time
    /\ text newText = result
    /\ text_fontFamily newText = fontFamily style
    /\ text_fontSize newText = fontSize style
    /\ bounds_x (bounds newText) = bounds_x b
    /\ width (bounds newText) = width b
    /\ height (bounds newText) = height b
    /\ (backgroundType style = copybook ->
        (exists k : Z,
            bounds_y (bounds newText) + fontSize style = 80 * IZR k)
        /\ Rabs (bounds_y (bounds newText) - bounds_y b) <= 40)
    /\ (backgroundType style <> copybook -> bounds newText = b)
    /\ isLoading ed' = false
    /\ History.present (History.undo (hist ed')) = Some st.
Proof.
  intros Hp Hc Hi ed' style.
  subst ed'. unfold handleRecognize_settle. fold style. cbv zeta.
  cbn [hist isLoading]. rewrite Hi.
  set (finalBounds := match backgroundType style with
                      | copybook => _
                      | _ => b
                      end).
  set (newText := {| text_id := time; text := result; bounds := finalBounds;
                     text_fontFamily := fontFamily style;
                     text_fontSize := fontSize style |}).
  set (upd := fun page0 : Page =>
                {| page_id := page_id page0; strokes := [];
                   texts := texts page0 ++ [newText] |}).
  exists (currentPageUpdater upd st), newText.
  split; [apply present_updateCurrentPage; exact Hp|].
  split; [apply (currentPage_updated upd _ _ Hc)|].
  cbn [text_id text text_fontFamily text_fontSize bounds newText].
  repeat split.
  - unfold finalBounds. destruct (backgroundType style); reflexivity.
  - unfold finalBounds. destruct (backgroundType style); reflexivity.
  - unfold finalBounds. destruct (backgroundType style); reflexivity.
  - unfold finalBounds. rewrite H. cbn [bounds_y].
    destruct (snap_to_rule (bounds_y b + fontSize style)) as (k & Hk & _).
    exists k. rewrite <- Hk. ring.
  - unfold finalBounds. rewrite H. cbn [bounds_y].
    destruct (snap_to_rule (bounds_y b + fontSize style)) as (k & _ & Hn).
    replace (Math_round ((bounds_y b + fontSize style) / 80) * 80
             - fontSize style - bounds_y b)
      with (Math_round ((bounds_y b + fontSize style) / 80) * 80
            - (bounds_y b + fontSize style)) by ring.
    exact Hn.
  - intros Hnc. unfold finalBounds.
    destruct (backgroundType style); try reflexivity. contradiction.
  - unfold updateCurrentPage.
    apply (undo_after_setState (History.Updater (currentPageUpdater upd))
                               (hist ed) st Hp).
    intros E.
    pose proof (currentPage_updated upd _ _ Hc) as Hc'.
    rewrite E, Hc in Hc'. injection Hc' as Hpg.
    apply (f_equal (fun pg => length (texts pg))) in Hpg.
    unfold upd in Hpg. cbn [texts] in Hpg. rewrite length_app in Hpg.
    cbn in Hpg. lia.
Qed.


(** Page navigation.  [handleChangePage] ignores an index outside the
    pages.  The navigator disables its previous (next) button exactly on
    the first (last) page; a click on an enabled button moves to the
    neighbouring page, which exists, and changes nothing else; a click
    on a disabled one would leave the history as it is. *)
Theorem page_navigation_stays_in_range (st : AppState) (page : Page)
        (h : History.t AppState) :
  History.present h = Some st ->
  currentPage st = Some page ->
  let i := History.index h in
  (forall newIndex : Z,
      (newIndex < 0 \/ Z.of_nat (length (pages st)) <= newIndex)%Z ->
      handleChangePage i st newIndex h = h)
  /\ (prevDisabled st = true <-> currentPageIndex st = 0%nat)
  /\ (nextDisabled st = true <-> S (currentPageIndex st) = length (pages st))
  /\ (prevDisabled st = true -> onPrev i st h = h)
  /\ (nextDisabled st = true -> onNext i st h = h)
  /\ (prevDisabled st = false ->
      exists st' page',
        History.present (onPrev i st h) = Some st'
        /\ currentPageIndex st' = (currentPageIndex st - 1)%nat
        /\ pages st' = pages st
        /\ currentPage st' = Some page')
  /\ (nextDisabled st = false ->
      exists st' page',
        History.present (onNext i st h) = Some st'
        /\ currentPageIndex st' = S (currentPageIndex st)
        /\ pages st' = pages st
        /\ currentPage st' = Some page').
Proof.
  intros Hp Hc i.
  assert (Hidx : (currentPageIndex st < length (pages st))%nat).
  { apply nth_error_Some. unfold currentPage in Hc. congruence. }
  assert (Hout : forall newIndex : Z,
             (newIndex < 0 \/ Z.of_nat (length (pages st)) <= newIndex)%Z ->
             handleChangePage i st newIndex h = h).
  { intros newIndex Hn. unfold handleChangePage.
    destruct (Z.leb_spec 0 newIndex), (Z.ltb_spec newIndex
                (Z.of_nat (length (pages st)))); cbn [andb];
      try reflexivity. lia. }
  assert (Hin : forall newIndex : Z,
             (0 <= newIndex < Z.of_nat (length (pages st)))%Z ->
             exists st' page',
               History.present (handleChangePage i st newIndex h) = Some st'
               /\ currentPageIndex st' = Z.to_nat newIndex
               /\ pages st' = pages st
               /\ currentPage st' = Some page').
  { intros newIndex Hn. unfold handleChangePage.
    destruct (Z.leb_spec 0 newIndex), (Z.ltb_spec newIndex
                (Z.of_nat (length (pages st)))); try lia. cbn [andb].
    destruct (nth_error (pages st) (Z.to_nat newIndex)) as [pg|] eqn:E.
    - eexists; exists pg.
      split; [apply (present_after_setState (History.Value _) h st Hp)|].
      cbn [currentPageIndex pages]. repeat split.
      unfold currentPage. cbn [currentPageIndex pages]. exact E.
    - apply nth_error_None in E. lia. }
  unfold prevDisabled, nextDisabled, onPrev, onNext.
  split; [exact Hout|].
  split; [rewrite Nat.leb_le; lia|].
  split; [rewrite Nat.leb_le; lia|].
  split; [rewrite Nat.leb_le; intros; apply Hout; lia|].
  split; [rewrite Nat.leb_le; intros; apply Hout; lia|].
  split.
  - rewrite Nat.leb_gt. intros Hlt.
    destruct (Hin (Z.of_nat (currentPageIndex st) - 1)%Z) as (st' & pg & H1 & H2 & H3 & H4);
      [lia|].
    exists st', pg. repeat split; auto. rewrite H2. lia.
  - rewrite Nat.leb_gt. intros Hlt.
    destruct (Hin (Z.of_nat (currentPageIndex st) + 1)%Z) as (st' & pg & H1 & H2 & H3 & H4);
      [lia|].
    exists st', pg. repeat split; auto. rewrite H2. lia.
Qed.

(** Clearing.  [requestClear] opens no dialog on a page without strokes
    and texts.  Otherwise the confirm action empties the current page
    (keeping its id, the other pages and the settings) and removes the
    error message; the result is one more history entry, so that one
    [undo] shows the page as it was. *)
Theorem clear_is_confirmed_and_undoable (ed : EditorState) (st : AppState)
        (page : Page) :
  History.present (hist ed) = Some st ->
  currentPage st = Some page ->
  let i := History.index (hist ed) in
  (strokes page = [] /\ texts page = [] <-> requestClear i page = None)
  /\ (forall onConfirm,
         requestClear i page = Some onConfirm ->
         exists st',
           History.present (hist (onConfirm ed)) = Some st'
           /\ currentPage st'
              = Some {| page_id := page_id page; strokes := []; texts := [] |}
           /\ length (pages st') = length (pages st)
           /\ toolSettings st' = toolSettings st
           /\ error (onConfirm ed) = None
           /\ viewTransform (onConfirm ed) = viewTransform ed
           /\ History.present (History.undo (hist (onConfirm ed))) = Some st).
Proof.
  intros Hp Hc i. split.
  - unfold requestClear. destruct (strokes page), (texts page);
      split; try (intros [? ?]); try intros ?; try discriminate; auto.
  - intros onConfirm Hreq.
    assert (Hne : strokes page <> [] \/ texts page <> []).
    { unfold requestClear in Hreq.
      destruct (strokes page), (texts page); try discriminate;
        [right|left|left]; discriminate. }
    assert (onConfirm = handleClear i) as ->.
    { unfold requestClear in Hreq.
      destruct (strokes page), (texts page); congruence. }
    set (upd := fun pg : Page =>
                  {| page_id := page_id pg; strokes := []; texts := [] |}).
    destruct (page_update_frame_aux upd st page Hc) as (Hc' & Hlen & Hts).
    exists (currentPageUpdater upd st).
    unfold handleClear. cbn [hist error viewTransform].
    split; [apply present_updateCurrentPage; exact Hp|].
    split; [exact Hc'|]. split; [exact Hlen|]. split; [exact Hts|].
    split; [reflexivity|]. split; [reflexivity|].
    unfold updateCurrentPage.
    apply (undo_after_setState (History.Updater (currentPageUpdater upd))
                               (hist ed) st Hp).
    intros E. rewrite E, Hc in Hc'. injection Hc' as Hpg.
    destruct Hne as [Hn|Hn]; apply Hn; rewrite Hpg; reflexivity.
Qed.

Lemma array_set_same {A} (l : list A) (i : nat) (a : A) :
  nth_error l i = Some a -> array_set l i a = l.
Proof.
  revert i. induction l as [|b l IH]; intros [|i] H; cbn in *;
    try discriminate; try congruence.
  f_equal. apply IH. exact H.
Qed.

Lemma currentPageUpdater_fixed (updater : Page -> Page) (st : AppState)
      (page : Page) :
  currentPage st = Some page -> updater page = page ->
  currentPageUpdater updater st = st.
Proof.
  intros Hc Hu. unfold currentPageUpdater. rewrite Hc, Hu.
  unfold with_pages. rewrite (array_set_same _ _ _ Hc).
  destruct st; reflexivity.
Qed.

(** An update that maps the snapshot to itself adds nothing. *)
Lemma setState_fixed (f : AppState -> AppState) (h : History.t AppState)
      (st : AppState) :
  History.present h = Some st -> f st = st ->
  History.setState_at JSON_stringify AppState_eq_dec (History.index h)
                      (History.Updater f) h = h.
Proof.
  intros Hp Hf.
  destruct (setState_at_cases AppState AppState JSON_stringify AppState_eq_dec
              (History.index h) (History.Updater f) h st Hp)
    as [[_ E]|[Hne _]]; [exact E|].
  unfold JSON_stringify in Hne. congruence.
Qed.

Lemma globalStyleUpdater_styled (style : CanvasStyle) (page : Page) :
  forall t, In t (texts (globalStyleUpdater style page)) ->
            text_fontFamily t = fontFamily style
            /\ text_fontSize t = fontSize style.
Proof.
  intros t. unfold globalStyleUpdater. cbv zeta.
  destruct (existsb _ (texts page)) eqn:E; cbn [negb texts].
  - intros Hin. apply in_map_iff in Hin. destruct Hin as (t0 & <- & _).
    split; reflexivity.
  - intros Hin.
    assert (Hf := proj2 (Bool.not_true_iff_false _) E).
    rewrite existsb_exists in Hf.
    destruct (String.eqb_spec (text_fontFamily t) (fontFamily style)) as [Ef|Ef].
    + split; [exact Ef|].
      unfold num_eq in Hf.
      destruct (Req_dec_T (text_fontSize t) (fontSize style)) as [Es|Es];
        [exact Es|].
      exfalso. apply Hf. exists t. split; [exact Hin|].
      destruct (Req_dec_T (text_fontSize t) (fontSize style)); [contradiction|].
      apply orb_true_r.
    + exfalso. apply Hf. exists t. split; [exact Hin|].
      destruct (String.eqb_spec (text_fontFamily t) (fontFamily style));
        [contradiction|reflexivity].
Qed.

Lemma globalStyleUpdater_idem (style : CanvasStyle) (page : Page) :
  globalStyleUpdater style (globalStyleUpdater style page)
  = globalStyleUpdater style page.
Proof.
  pose proof (globalStyleUpdater_styled style page) as Hst.
  set (page1 := globalStyleUpdater style page) in *.
  unfold globalStyleUpdater at 1. cbv zeta.
  destruct (existsb _ (texts page1)) eqn:E; [|reflexivity].
  exfalso. apply existsb_exists in E. destruct E as (t & Hin & Ht).
  destruct (Hst t Hin) as [Hf Hs]. rewrite Hf, Hs in Ht.
  rewrite String.eqb_refl in Ht. unfold num_eq in Ht.
  destruct (Req_dec_T (fontSize style) (fontSize style)); [|contradiction].
  discriminate.
Qed.

(** The global-style effect: when enabled it gives every text of the
    current page the font family and size of the canvas style and leaves
    the strokes and the ids, contents and bounds of the texts alone; run
    again on its own result it adds no history entry; when disabled it
    does nothing. *)
Theorem global_style_effect_restyles_once (style : CanvasStyle)
        (st : AppState) (page : Page) (h : History.t AppState) :
  History.present h = Some st ->
  currentPage st = Some page ->
  let h1 := globalStyleEffect true style (History.index h) h in
  exists st1 page1,
    History.present h1 = Some st1
    /\ currentPage st1 = Some page1
    /\ strokes page1 = strokes page
    /\ map text_id (texts page1) = map text_id (texts page)
    /\ map text (texts page1) = map text (texts page)
    /\ map bounds (texts page1) = map bounds (texts page)
    /\ (forall t, In t (texts page1) ->
                  text_fontFamily t = fontFamily style
                  /\ text_fontSize t = fontSize style)
    /\ globalStyleEffect true style (History.index h1) h1 = h1
    /\ globalStyleEffect false style (History.index h) h = h.
Proof.
  intros Hp Hc h1. subst h1. unfold globalStyleEffect.
  pose proof (present_updateCurrentPage (globalStyleUpdater style) h st Hp)
    as Hp1.
  pose proof (currentPage_updated (globalStyleUpdater style) st page Hc) as Hc1.
  eexists; eexists. split; [exact Hp1|]. split; [exact Hc1|].
  assert (Hkeep : strokes (globalStyleUpdater style page) = strokes page
                  /\ map text_id (texts (globalStyleUpdater style page))
                     = map text_id (texts page)
                  /\ map text (texts (globalStyleUpdater style page))
                     = map text (texts page)
                  /\ map bounds (texts (globalStyleUpdater style page))
                     = map bounds (texts page)).
  { unfold globalStyleUpdater. cbv zeta.
    destruct (existsb _ (texts page)); cbn [negb strokes texts];
      repeat split; rewrite map_map; reflexivity. }
  destruct Hkeep as (K1 & K2 & K3 & K4).
  split; [exact K1|]. split; [exact K2|]. split; [exact K3|].
  split; [exact K4|].
  split; [apply globalStyleUpdater_styled|]. split; [|reflexivity].
  unfold updateCurrentPage at 1.
  apply (setState_fixed _ _ _ Hp1).
  apply (currentPageUpdater_fixed _ _ _ Hc1).
  apply globalStyleUpdater_idem.
Qed.


(** ** The canvas component, continued *)

Lemma dpr_of_nonzero (env : Env) : dpr_of env <> 0.
Proof.
  unfold dpr_of, or_default.
  destruct (Req_dec_T (devicePixelRatio env) 0); [lra|assumption].
Qed.

(** Panning with the hand tool: a move of the only pointer, with no text
    being dragged, keeps the scale, shifts the offset by the pointer's
    movement in device pixels and leaves the history alone; the world
    point under the pointer is the one that was under it before the
    move. *)
Theorem pan_follows_the_pointer (env : Env) (e : PointerEvent) (w : World)
        (st : AppState) (page : Page) (v : Point) :
  on_screen w st page ->
  tool w = tool_hand ->
  pointers (cv w) = [(pointerId e, v)] ->
  draggedItem (cv w) = None ->
  scale (viewTransform (editor w)) <> 0 ->
  let vt := viewTransform (editor w) in
  let w' := handlePointerMove env e w in
  viewTransform (editor w')
  = {| scale := scale vt;
       offsetX := offsetX vt + movementX e * dpr_of env;
       offsetY := offsetY vt + movementY e * dpr_of env |}
  /\ hist (editor w') = hist (editor w)
  /\ getPointInWorldSpace env (viewTransform (editor w')) (clientX e) (clientY e)
     = getPointInWorldSpace env vt (clientX e - movementX e)
                            (clientY e - movementY e).
Proof.
  intros [Hp Hc] Ht Hps Hd Hs vt w'.
  assert (Hw : viewTransform (editor w')
               = {| scale := scale vt;
                    offsetX := offsetX vt + movementX e * dpr_of env;
                    offsetY := offsetY vt + movementY e * dpr_of env |}
               /\ hist (editor w') = hist (editor w)).
  { subst w'. unfold handlePointerMove, with_render.
    rewrite Hp, Hc, Ht, Hps, Hd.
    unfold Map_has, Map_set, Map_has. cbn [existsb fst map length].
    rewrite Z.eqb_refl.
    cbn [orb negb map fst snd length Nat.eqb Tool_eqb andb Map_values x y].
    rewrite !andb_false_r. cbn [andb].
    destruct (negb (isDrawing (cv w)) && true), (isHoveringText (cv w));
      cbn [editor with_view viewTransform hist]; fold vt;
      (split; [f_equal; ring|reflexivity]). }
  destruct Hw as [Hv Hh]. split; [exact Hv|]. split; [exact Hh|].
  rewrite Hv. unfold getPointInWorldSpace.
  destruct (canvas env) as [rect|]; [|reflexivity].
  cbn [scale offsetX offsetY]. f_equal; field; exact Hs.
Qed.


(** Only the eraser's pointer moves write to the history: a wheel zoom
    never does, a pointer move with any other tool never does, and no
    tool does while two pointers are down. *)
Theorem view_changes_leave_history (env : Env) (w : World) :
  (forall e, hist (editor (step w (env, Wheel e))) = hist (editor w))
  /\ (forall e, tool w <> tool_eraser ->
                hist (editor (handlePointerMove env e w)) = hist (editor w))
  /\ (forall e, length (pointers (cv w)) = 2%nat ->
                hist (editor (handlePointerMove env e w)) = hist (editor w)).
Proof.
  split; [reflexivity|]. split.
  - intros e Ht. unfold handlePointerMove, with_render.
    destruct (tool w) eqn:Et; try contradiction; cbn [Tool_eqb];
      handler_cases.
  - intros e Hlen. unfold handlePointerMove, with_render.
    destruct (History.present (hist (editor w))); [|reflexivity].
    destruct (currentPage a); [|reflexivity].
    destruct (Map_has (pointers (cv w)) (pointerId e)) eqn:Eh;
      cbn [negb]; [|reflexivity].
    assert (Hl : length (Map_set (pointers (cv w)) (pointerId e)
                                 {| x := clientX e; y := clientY e |}) = 2%nat).
    { unfold Map_set. rewrite Eh, length_map. exact Hlen. }
    rewrite Hl. cbn [Nat.eqb]. handler_cases.
Qed.

(** Events that are ignored: a press of a mouse button other than the
    primary one changes nothing at all, and a move of a pointer that is
    not tracked only records the pointer position. *)
Lemma stray_pointer_events_are_ignored (env : Env) (e : PointerEvent)
        (w : World) (st : AppState) (page : Page) :
  on_screen w st page ->
  (pointerType e = mouse -> button e <> 0%Z -> handlePointerDown env e w = w)
  /\ (Map_has (pointers (cv w)) (pointerId e) = false ->
      handlePointerMove env e w
      = {| tool := tool w; editor := editor w;
           cv := set_latestPointerPosition (cv w)
                   (getPointInWorldSpace env (viewTransform (editor w))
                                         (clientX e) (clientY e)) |}).
Proof.
  intros [Hp Hc]. split.
  - intros Hm Hb. unfold handlePointerDown, with_render. rewrite Hp, Hc, Hm.
    destruct (Z.eqb_spec (button e) 0); [contradiction|reflexivity].
  - intros Hh. unfold handlePointerMove, with_render. rewrite Hp, Hc, Hh.
    reflexivity.
Qed.

Lemma Map_delete_has (m : list (Z * Point)) (k : Z) :
  Map_has (Map_delete m k) k = false.
Proof.
  unfold Map_has, Map_delete. apply not_true_iff_false.
  rewrite existsb_exists. intros (kv & Hin & Hk).
  apply filter_In in Hin. destruct Hin as [_ Hn].
  rewrite Hk in Hn. discriminate.
Qed.

(** A pointer going up (or being cancelled) ends the gesture: the pointer
    is forgotten and no drawing, pinch, text drag, stroke in progress or
    shape preview is left; with the select tool the start point of the
    selection is dropped too. *)
Theorem pointer_up_ends_the_gesture (env : Env) (e : PointerEvent) (w : World)
        (st : AppState) (page : Page) :
  on_screen w st page ->
  let c' := cv (handlePointerUp env e w) in
  Map_has (pointers c') (pointerId e) = false
  /\ isDrawing c' = false
  /\ lastGesture c' = None
  /\ draggedItem c' = None
  /\ currentStrokePoints c' = []
  /\ (tool w = tool_shape -> drawingShape c' = None)
  /\ (tool w = tool_select -> selectionStartPoint c' = None)
  /\ tool (handlePointerUp env e w) = tool w.
Proof.
  intros [Hp Hc] c'. subst c'.
  unfold handlePointerUp, with_render. rewrite Hp, Hc.
  pose proof (Map_delete_has (pointers (cv w)) (pointerId e)) as Hdel.
  repeat split; try (intros Ht; rewrite Ht; cbn [Tool_eqb andb]);
    repeat (cbn [cv tool pointers isDrawing lastGesture draggedItem
                 currentStrokePoints drawingShape selectionStartPoint
                 set_selectionRect set_selectionStartPoint
                 set_drawingShape set_currentStrokePoints set_draggedItem
                 set_isDrawing set_lastGesture set_pointers];
            try reflexivity; try exact Hdel; try assumption;
            try break_inner).
Qed.

(** The first pointer of a new gesture clears a selection rectangle that
    was still shown, whatever the tool. *)
Lemma new_gesture_clears_selection (env : Env) (e : PointerEvent) (w : World)
        (st : AppState) (page : Page) :
  on_screen w st page ->
  pointers (cv w) = [] ->
  pointerType e <> mouse \/ button e = 0%Z ->
  selectionRect (cv (handlePointerDown env e w)) = None.
Proof.
  intros [Hp Hc] Hps Hacc.
  unfold handlePointerDown, with_render. rewrite Hp, Hc, Hps.
  assert (Hm : forall w' : World,
             selectionRect (cv w') = None ->
             selectionRect (cv (match pointerType e, Z.eqb (button e) 0 with
                                | mouse, false => w
                                | _, _ => w'
                                end)) = None).
  { intros w' Hw'. destruct Hacc as [Hm|Hb].
    - destruct (pointerType e); try exact Hw'. contradiction.
    - rewrite Hb. destruct (pointerType e); exact Hw'. }
  destruct (pointerType e), (Z.eqb (button e) 0) eqn:Eb;
    try (unfold Map_set, Map_has; cbn [existsb app length Nat.eqb];
         handler_cases).
  exfalso. destruct Hacc as [Hm'|Hb]; [contradiction|].
  rewrite Hb in Eb. discriminate.
Qed.

(** The rectangle stored while the select tool drags (see
    [select_move_normalizes]) has non-negative width and height and
    contains both the start point of the drag and the current point. *)
Lemma selection_rectangle_spans_drag (start point : Point) :
  let r := {| bounds_x := Math_min (x start) (x point);
              bounds_y := Math_min (y start) (y point);
              width := Math_abs (x start - x point);
              height := Math_abs (y start - y point) |} in
  0 <= width r /\ 0 <= height r
  /\ pointInBounds start r = true
  /\ pointInBounds point r = true
  /\ (width r = 0 <-> x start = x point).
Proof.
  cbv zeta. unfold pointInBounds, num_ge, Math_min, Math_abs.
  cbn [bounds_x bounds_y width height].
  rewrite !andb_true_iff, !num_le_true.
  unfold Rmin, Rabs.
  destruct (Rle_dec (x start) (x point)), (Rle_dec (y start) (y point)),
    (Rcase_abs (x start - x point)), (Rcase_abs (y start - y point));
    repeat split; intros; lra.
Qed.

(** ** Freehand capture and text drag *)

Lemma pen_down_state (env : Env) (e : PointerEvent) (w : World)
      (st : AppState) (page : Page) :
  on_screen w st page ->
  tool w = tool_pen ->
  pointers (cv w) = [] ->
  pointerType e <> mouse \/ button e = 0%Z ->
  let w1 := handlePointerDown env e w in
  tool w1 = tool_pen
  /\ editor w1 = editor w
  /\ pointers (cv w1) = [(pointerId e, mkPoint (clientX e) (clientY e))]
  /\ draggedItem (cv w1) = draggedItem (cv w)
  /\ isDrawing (cv w1) = true
  /\ currentStrokePoints (cv w1)
     = [ getPointInWorldSpace env (viewTransform (editor w))
                              (clientX e) (clientY e) ].
Proof.
  intros [Hp Hc] Ht Hps Hacc w1. subst w1.
  unfold handlePointerDown, with_render. rewrite Hp, Hc, Ht, Hps.
  destruct (pointerType e), (Z.eqb (button e) 0) eqn:Eb;
    try (cbn; repeat split; reflexivity).
  exfalso. destruct Hacc as [Hm|Hb]; [contradiction|].
  rewrite Hb in Eb. discriminate.
Qed.

Lemma pen_move_state (env : Env) (e : PointerEvent) (w : World)
      (st : AppState) (page : Page) (v : Point) :
  on_screen w st page ->
  tool w = tool_pen ->
  pointers (cv w) = [(pointerId e, v)] ->
  draggedItem (cv w) = None ->
  isDrawing (cv w) = true ->
  let w1 := handlePointerMove env e w in
  tool w1 = tool_pen
  /\ editor w1 = editor w
  /\ pointers (cv w1) = [(pointerId e, mkPoint (clientX e) (clientY e))]
  /\ draggedItem (cv w1) = None
  /\ isDrawing (cv w1) = true
  /\ currentStrokePoints (cv w1)
     = currentStrokePoints (cv w)
       ++ [ getPointInWorldSpace env (viewTransform (editor w))
                                 (clientX e) (clientY e) ].
Proof.
  intros [Hp Hc] Ht Hps Hd Hdr w1. subst w1.
  unfold handlePointerMove, with_render. rewrite Hp, Hc, Ht, Hps, Hd, Hdr.
  unfold Map_has, Map_set, Map_has. cbn [existsb fst map length].
  rewrite Z.eqb_refl.
  cbn [orb negb map fst length Nat.eqb Tool_eqb andb].
  destruct (isHoveringText (cv w)); cbn; rewrite ?Hd, ?Hdr;
    repeat split; reflexivity.
Qed.

Lemma pen_moves_state (moves : list (Env * PointerEvent)) (k : Z) :
  Forall (fun m => pointerId (snd m) = k) moves ->
  forall (w : World) (st : AppState) (page : Page) (v : Point),
    on_screen w st page ->
    tool w = tool_pen ->
    pointers (cv w) = [(k, v)] ->
    draggedItem (cv w) = None ->
    isDrawing (cv w) = true ->
    let w1 := run w (map (fun m => (fst m, PointerMove (snd m))) moves) in
    tool w1 = tool_pen
    /\ editor w1 = editor w
    /\ draggedItem (cv w1) = None
    /\ currentStrokePoints (cv w1)
       = currentStrokePoints (cv w)
         ++ map (fun m => getPointInWorldSpace (fst m) (viewTransform (editor w))
                            (clientX (snd m)) (clientY (snd m))) moves.
Proof.
  induction 1 as [|m l Hm _ IH]; intros w st page v Hs Ht Hps Hd Hdr.
  - cbn. rewrite app_nil_r. auto.
  - cbn [map run fold_left step fst snd]. rewrite <- Hm in Hps.
    destruct (pen_move_state (fst m) (snd m) w st page v Hs Ht Hps Hd Hdr)
      as (Ht1 & He1 & Hps1 & Hd1 & Hdr1 & Hpts1).
    set (w1 := handlePointerMove (fst m) (snd m) w) in *.
    assert (Hs1 : on_screen w1 st page).
    { destruct Hs as [Hp Hc]. split; [rewrite He1; exact Hp|exact Hc]. }
    rewrite Hm in Hps1.
    destruct (IH w1 st page _ Hs1 Ht1 Hps1 Hd1 Hdr1) as (Ht2 & He2 & Hd2 & Hpts2).
    unfold run in *. cbv zeta in *.
    split; [exact Ht2|]. split; [rewrite He2; exact He1|].
    split; [exact Hd2|].
    rewrite Hpts2, Hpts1, He1, <- app_assoc. reflexivity.
Qed.

(** Freehand capture.  A pointer goes down with the pen on an idle
    canvas, moves [n] times and goes up.  With no move the document is
    not touched.  With at least one move the current page gains exactly
    one stroke, at the end: its points are the world points of the down
    event and of the moves, in order, its id is [Date.now()] at release,
    its width and colour are those of the pen; the texts and the view
    stay as they were. *)
Theorem pen_gesture_adds_one_stroke (env0 envu : Env) (e0 eu : PointerEvent)
        (moves : list (Env * PointerEvent)) (w : World) (st : AppState)
        (page : Page) :
  on_screen w st page ->
  tool w = tool_pen ->
  pointers (cv w) = [] ->
  draggedItem (cv w) = None ->
  pointerType e0 <> mouse \/ button e0 = 0%Z ->
  Forall (fun m => pointerId (snd m) = pointerId e0) moves ->
  let vt := viewTransform (editor w) in
  let path :=
    getPointInWorldSpace env0 vt (clientX e0) (clientY e0)
    :: map (fun m => getPointInWorldSpace (fst m) vt
                       (clientX (snd m)) (clientY (snd m))) moves in
  let w' :=
    run w ((env0, PointerDown e0)
           :: map (fun m => (fst m, PointerMove (snd m))) moves
           ++ [ (envu, PointerUp eu) ]) in
  viewTransform (editor w') = vt
  /\ (moves = [] -> hist (editor w') = hist (editor w))
  /\ (moves <> [] ->
      exists st' page',
        on_screen w' st' page'
        /\ strokes page'
           = strokes page
             ++ [ {| id := now envu; points := path;
                     stroke_tool := pen_stroke;
                     strokeWidth := pen_size (pen (toolSettings st));
                     color := pen_color (pen (toolSettings st)) |} ]
        /\ texts page' = texts page).
Proof.
  intros Hs Ht Hps Hd Hacc Hall vt path w'.
  destruct (pen_down_state env0 e0 w st page Hs Ht Hps Hacc)
    as (Ht1 & He1 & Hps1 & Hd1 & Hdr1 & Hpts1).
  rewrite Hd in Hd1. fold vt in Hpts1.
  set (w1 := handlePointerDown env0 e0 w) in *.
  assert (Hs1 : on_screen w1 st page).
  { destruct Hs as [Hp Hc]. split; [rewrite He1; exact Hp|exact Hc]. }
  destruct (pen_moves_state moves (pointerId e0) Hall w1 st page _
                            Hs1 Ht1 Hps1 Hd1 Hdr1)
    as (Ht2 & He2 & Hd2 & Hpts2).
  rewrite He1 in Hpts2. fold vt in Hpts2. rewrite Hpts1 in Hpts2.
  change ([getPointInWorldSpace env0 vt (clientX e0) (clientY e0)]
          ++ map (fun m => getPointInWorldSpace (fst m) vt
                             (clientX (snd m)) (clientY (snd m))) moves)
    with path in Hpts2.
  set (w2 := run w1 (map (fun m => (fst m, PointerMove (snd m))) moves)) in *.
  assert (Hw' : w' = handlePointerUp envu eu w2).
  { subst w' w2 w1. unfold run. cbn [fold_left step fst snd].
    rewrite fold_left_app. reflexivity. }
  assert (Hs2 : on_screen w2 st page).
  { destruct Hs1 as [Hp Hc]. split; [rewrite He2; exact Hp|exact Hc]. }
  destruct Hs2 as [Hp2 Hc2].
  assert (Hup : editor w'
                = with_hist (editor w2)
                    (if (1 <? length path)%nat
                     then handleSetStrokes (History.index (hist (editor w2)))
                            (fun prev =>
                               prev ++ [ {| id := now envu; points := path;
                                            stroke_tool := pen_stroke;
                                            strokeWidth :=
                                              pen_size (pen (toolSettings st));
                                            color :=
                                              pen_color (pen (toolSettings st)) |} ])
                            (hist (editor w2))
                     else hist (editor w2))).
  { rewrite Hw'. unfold handlePointerUp, with_render.
    rewrite Hp2, Hc2, Ht2, Hd2, Hpts2. cbn [Tool_eqb andb editor].
    destruct (1 <? length path)%nat; reflexivity. }
  split; [|split].
  - rewrite Hup. cbn [with_hist viewTransform]. rewrite He2, He1. reflexivity.
  - intros Hm. rewrite Hup.
    assert (Hlen : (1 <? length path)%nat = false).
    { unfold path. rewrite Hm. reflexivity. }
    rewrite Hlen. cbn [with_hist hist]. rewrite He2, He1. reflexivity.
  - intros Hne. unfold on_screen. rewrite Hup.
    assert (Hlen : (1 <? length path)%nat = true).
    { apply Nat.ltb_lt. unfold path. cbn [length]. rewrite length_map.
      destruct moves; [contradiction|cbn; lia]. }
    rewrite Hlen. cbn [with_hist hist].
    unfold handleSetStrokes.
    eexists; eexists. split; [split|].
    + apply present_updateCurrentPage. exact Hp2.
    + apply currentPage_updated. exact Hc2.
    + cbn [strokes texts]. split; reflexivity.
Qed.





(** ** The recognition export *)

Lemma inner_scan_disks (r : R) (pts : list Point) (acc : option Extent) :
  fold_left (extendExtent r) pts acc
  = fold_left extendDisk (map (fun p => (r, p)) pts) acc.
Proof.
  revert acc. induction pts as [|p pts IH]; intros acc; [reflexivity|].
  cbn [fold_left map]. rewrite IH. reflexivity.
Qed.

Lemma strokesExtent_disks_aux (l : list Stroke) (acc : option Extent) :
  fold_left (fun acc stroke =>
               let r := strokeWidth stroke / 2 in
               fold_left (extendExtent r) (points stroke) acc) l acc
  = fold_left extendDisk (disks l) acc.
Proof.
  revert acc. induction l as [|s l IH]; intros acc; [reflexivity|].
  cbn [fold_left]. unfold disks. cbn [flat_map].
  rewrite fold_left_app, IH, inner_scan_disks. reflexivity.
Qed.

Lemma strokesExtent_disks (l : list Stroke) :
  strokesExtent l = fold_left extendDisk (disks l) None.
Proof. apply strokesExtent_disks_aux. Qed.

Lemma In_disks (l : list Stroke) (r : R) (p : Point) :
  In (r, p) (disks l)
  <-> exists s, In s l /\ In p (points s) /\ r = strokeWidth s / 2.
Proof.
  unfold disks. rewrite in_flat_map. split.
  - intros [s [Hs Hin]]. apply in_map_iff in Hin.
    destruct Hin as [q [Hq Hin]]. inversion Hq; subst.
    exists s. auto.
  - intros [s [Hs [Hp Hr]]]. exists s. split; [assumption|].
    apply in_map_iff. exists p. subst. auto.
Qed.

Lemma tight_step (acc : option Extent) (d : R * Point) (l : list (R * Point))
      (e : Extent) :
  tight (extendDisk acc d) l e -> tight acc (d :: l) e.
Proof.
  unfold tight. intros [H1 [H2 [H3 H4]]].
  assert (Hlift : forall P : R * Point -> Prop,
             (exists d', In d' l /\ P d') -> exists d', In d' (d :: l) /\ P d').
  { intros P [d' [Hin HP]]. exists d'. split; [right|]; assumption. }
  repeat split.
  - destruct H1 as [[a [Ha Hm]]|H1]; [|right; apply Hlift; exact H1].
    unfold extendDisk, extendExtent in Ha. destruct acc as [a0|].
    + inversion Ha; subst a; cbn [minX] in Hm. unfold Math_min, Rmin in Hm.
      destruct (Rle_dec (minX a0) (x (snd d) - fst d)).
      * left. exists a0. auto.
      * right. exists d. split; [left; reflexivity|assumption].
    + inversion Ha; subst a; cbn [minX] in Hm.
      right. exists d. split; [left; reflexivity|assumption].
  - destruct H2 as [[a [Ha Hm]]|H2]; [|right; apply Hlift; exact H2].
    unfold extendDisk, extendExtent in Ha. destruct acc as [a0|].
    + inversion Ha; subst a; cbn [maxX] in Hm. unfold Math_max, Rmax in Hm.
      destruct (Rle_dec (maxX a0) (x (snd d) + fst d)).
      * right. exists d. split; [left; reflexivity|assumption].
      * left. exists a0. auto.
    + inversion Ha; subst a; cbn [maxX] in Hm.
      right. exists d. split; [left; reflexivity|assumption].
  - destruct H3 as [[a [Ha Hm]]|H3]; [|right; apply Hlift; exact H3].
    unfold extendDisk, extendExtent in Ha. destruct acc as [a0|].
    + inversion Ha; subst a; cbn [minY] in Hm. unfold Math_min, Rmin in Hm.
      destruct (Rle_dec (minY a0) (y (snd d) - fst d)).
      * left. exists a0. auto.
      * right. exists d. split; [left; reflexivity|assumption].
    + inversion Ha; subst a; cbn [minY] in Hm.
      right. exists d. split; [left; reflexivity|assumption].
  - destruct H4 as [[a [Ha Hm]]|H4]; [|right; apply Hlift; exact H4].
    unfold extendDisk, extendExtent in Ha. destruct acc as [a0|].
    + inversion Ha; subst a; cbn [maxY] in Hm. unfold Math_max, Rmax in Hm.
      destruct (Rle_dec (maxY a0) (y (snd d) + fst d)).
      * right. exists d. split; [left; reflexivity|assumption].
      * left. exists a0. auto.
    + inversion Ha; subst a; cbn [maxY] in Hm.
      right. exists d. split; [left; reflexivity|assumption].
Qed.

Lemma extendDisk_some (acc : option Extent) (d : R * Point) :
  exists e, extendDisk acc d = Some e /\ covers e d
            /\ forall a, acc = Some a -> grows a e.
Proof.
  unfold extendDisk, extendExtent, covers, grows.
  destruct acc as [a|]; eexists; (split; [reflexivity|]); cbn [minX maxX minY maxY].
  - pose proof (Rmin_l (minX a) (x (snd d) - fst d)).
    pose proof (Rmin_r (minX a) (x (snd d) - fst d)).
    pose proof (Rmin_l (minY a) (y (snd d) - fst d)).
    pose proof (Rmin_r (minY a) (y (snd d) - fst d)).
    pose proof (Rmax_l (maxX a) (x (snd d) + fst d)).
    pose proof (Rmax_r (maxX a) (x (snd d) + fst d)).
    pose proof (Rmax_l (maxY a) (y (snd d) + fst d)).
    pose proof (Rmax_r (maxY a) (y (snd d) + fst d)).
    unfold Math_min, Math_max.
    split; [repeat split; assumption|].
    intros a' Ha. inversion Ha; subst a'. repeat split; assumption.
  - split; [repeat split; apply Rle_refl|]. intros a Ha. discriminate.
Qed.

Lemma scan_spec (l : list (R * Point)) (acc : option Extent) :
  match fold_left extendDisk l acc with
  | None => acc = None /\ l = []
  | Some e =>
      (forall a, acc = Some a -> grows a e)
      /\ (forall d, In d l -> covers e d)
      /\ tight acc l e
  end.
Proof.
  revert acc. induction l as [|d l IH]; intros acc.
  - cbn [fold_left]. destruct acc as [a|]; [|split; reflexivity].
    split; [|split].
    + intros a' Ha. inversion Ha; subst. unfold grows.
      repeat split; apply Rle_refl.
    + intros d [].
    + unfold tight. repeat split; left; exists a; auto.
  - cbn [fold_left]. specialize (IH (extendDisk acc d)).
    destruct (extendDisk_some acc d) as [e1 [He1 [Hc1 Hg1]]].
    destruct (fold_left extendDisk l (extendDisk acc d)) as [e|].
    + destruct IH as [Hg [Hc Ht]]. split; [|split].
      * intros a Ha. specialize (Hg1 a Ha). specialize (Hg e1 He1).
        unfold grows in *. lra.
      * intros d' [Hd|Hd]; [subst d'|apply Hc; exact Hd].
        specialize (Hg e1 He1). unfold grows, covers in *. lra.
      * apply tight_step. exact Ht.
    + destruct IH as [Hn _]. rewrite He1 in Hn. discriminate.
Qed.

(** The recognition effect hands over the exact bounding box of the ink:
    when it calls [onRecognize], the bounds have positive width and
    height, contain every point of every stroke together with half the
    stroke's width, and each of their four sides touches such a disc.
    The image is the box plus [PADDING] on every side, and every stroke
    is drawn into it, in order, moved by the vector that takes the box's
    corner to ([PADDING], [PADDING]), so that all ink is at least
    [PADDING] away from the image's edges. *)
Theorem recognition_export_is_padded_bounding_box
        (trigger : nat) (strokes0 : list Stroke) (hasContext : bool)
        (req : ExportRequest) :
  recognitionEffect trigger strokes0 hasContext = Some req ->
  let b := export_bounds req in
  (0 < width b /\ 0 < height b)
  /\ (forall s p, In s strokes0 -> In p (points s) ->
        bounds_x b <= x p - strokeWidth s / 2
        /\ x p + strokeWidth s / 2 <= bounds_x b + width b
        /\ bounds_y b <= y p - strokeWidth s / 2
        /\ y p + strokeWidth s / 2 <= bounds_y b + height b)
  /\ ((exists s p, In s strokes0 /\ In p (points s)
                   /\ bounds_x b = x p - strokeWidth s / 2)
      /\ (exists s p, In s strokes0 /\ In p (points s)
                      /\ bounds_x b + width b = x p + strokeWidth s / 2)
      /\ (exists s p, In s strokes0 /\ In p (points s)
                      /\ bounds_y b = y p - strokeWidth s / 2)
      /\ (exists s p, In s strokes0 /\ In p (points s)
                      /\ bounds_y b + height b = y p + strokeWidth s / 2))
  /\ export_width req = width b + 2 * PADDING
  /\ export_height req = height b + 2 * PADDING
  /\ export_strokes req = map (reoriginStroke b) strokes0
  /\ map id (export_strokes req) = map id strokes0
  /\ (forall s p, In s (export_strokes req) -> In p (points s) ->
        PADDING <= x p - strokeWidth s / 2
        /\ x p + strokeWidth s / 2 <= export_width req - PADDING
        /\ PADDING <= y p - strokeWidth s / 2
        /\ y p + strokeWidth s / 2 <= export_height req - PADDING).
Proof.
  unfold recognitionEffect. intros H.
  destruct ((0 <? trigger)%nat && (0 <? length strokes0)%nat); [|discriminate].
  rewrite strokesExtent_disks in H.
  pose proof (scan_spec (disks strokes0) None) as Hs.
  destruct (fold_left extendDisk (disks strokes0) None) as [e|]; [|discriminate].
  destruct Hs as [_ [Hc Ht]].
  cbn [width height] in H.
  unfold num_le in H.
  destruct (Rle_dec (maxX e - minX e) 0) as [|Hw]; [discriminate|].
  destruct (Rle_dec (maxY e - minY e) 0) as [|Hh]; [discriminate|].
  cbn [orb] in H. destruct hasContext; [|discriminate].
  inversion H; subst req; clear H.
  cbn [export_bounds export_width export_height export_strokes
       bounds_x bounds_y width height].
  assert (Hcov : forall s p, In s strokes0 -> In p (points s) ->
             minX e <= x p - strokeWidth s / 2
             /\ x p + strokeWidth s / 2 <= minX e + (maxX e - minX e)
             /\ minY e <= y p - strokeWidth s / 2
             /\ y p + strokeWidth s / 2 <= minY e + (maxY e - minY e)).
  { intros s p Hin Hp.
    assert (Hd : In (strokeWidth s / 2, p) (disks strokes0)).
    { apply In_disks. exists s. auto. }
    specialize (Hc _ Hd). unfold covers in Hc. cbn [fst snd] in Hc. lra. }
  assert (Hdisk : forall (P : R -> Point -> Prop),
             (exists d, In d (disks strokes0) /\ P (fst d) (snd d)) ->
             exists s p, In s strokes0 /\ In p (points s)
                         /\ P (strokeWidth s / 2) p).
  { intros P [[r p] [Hin HP]]. apply In_disks in Hin.
    destruct Hin as [s [Hs [Hp Hr]]]. exists s, p. subst r. auto. }
  destruct Ht as [T1 [T2 [T3 T4]]].
  split; [split; lra|]. split; [exact Hcov|]. split.
  { split; [|split; [|split]].
    - destruct T1 as [[a [Ha _]]|T1]; [discriminate|].
      apply (Hdisk (fun r p => minX e = x p - r)). exact T1.
    - destruct T2 as [[a [Ha _]]|T2]; [discriminate|].
      apply (Hdisk (fun r p => minX e + (maxX e - minX e) = x p + r)).
      destruct T2 as [d [Hin Hd]]. exists d. split; [assumption|lra].
    - destruct T3 as [[a [Ha _]]|T3]; [discriminate|].
      apply (Hdisk (fun r p => minY e = y p - r)). exact T3.
    - destruct T4 as [[a [Ha _]]|T4]; [discriminate|].
      apply (Hdisk (fun r p => minY e + (maxY e - minY e) = y p + r)).
      destruct T4 as [d [Hin Hd]]. exists d. split; [assumption|lra]. }
  split; [ring|]. split; [ring|]. split; [reflexivity|]. split.
  { rewrite map_map. apply map_ext. reflexivity. }
  intros s p Hs Hp. apply in_map_iff in Hs. destruct Hs as [s0 [Hs0 Hin0]].
  subst s. cbn [points strokeWidth reoriginStroke] in *.
  apply in_map_iff in Hp. destruct Hp as [p0 [Hp0 Hpin]]. subst p.
  specialize (Hcov s0 p0 Hin0 Hpin).
  unfold reoriginPoint. cbn [x y bounds_x bounds_y]. unfold PADDING. lra.
Qed.

(** ** The answer export and its button *)

Lemma pointInBounds_spec (p : Point) (b : Bounds) :
  pointInBounds p b = true
  <-> bounds_x b <= x p <= bounds_x b + width b
      /\ bounds_y b <= y p <= bounds_y b + height b.
Proof.
  unfold pointInBounds, num_ge, num_le.
  repeat match goal with |- context [Rle_dec ?a ?b] => destruct (Rle_dec a b) end;
    cbn [andb]; split; intros H; try discriminate; try reflexivity; lra.
Qed.

(** The click on the answer button: without a selection, or without a
    drawing context, nothing happens.  Otherwise the selection is cleared
    and nothing else of the canvas state changes; the request carries the
    selection rectangle; the image is the selection plus [PADDING] on
    every side; it shows exactly the strokes with a point in the
    selection and the texts whose box meets it, in page order, each moved
    by the same vector, so that every selected point lies at least
    [PADDING] inside the image. *)
Theorem answer_export_shows_the_selection
        (hasContext : bool) (strokes0 : list Stroke)
        (texts0 : list RecognizedText) (c : CanvasState) :
  match selectionRect c with
  | None => handleAnswerButtonClick hasContext strokes0 texts0 c = (c, None)
  | Some sel =>
      if hasContext then
        exists req,
          handleAnswerButtonClick hasContext strokes0 texts0 c
          = (set_selectionRect c None, Some req)
          /\ export_bounds req = sel
          /\ export_width req = width sel + 2 * PADDING
          /\ export_height req = height sel + 2 * PADDING
          /\ map id (export_strokes req)
             = map id (filter (fun s => existsb (fun p => pointInBounds p sel)
                                                (points s)) strokes0)
          /\ map text_id (export_texts req)
             = map text_id (filter (fun t => boundsIntersect (bounds t) sel)
                                   texts0)
          /\ (forall s', In s' (export_strokes req) ->
                exists s, In s strokes0 /\ s' = reoriginStroke sel s)
          /\ (forall t', In t' (export_texts req) ->
                exists t, In t texts0
                          /\ text t' = text t
                          /\ bounds_x (bounds t')
                             = bounds_x (bounds t) - bounds_x sel + PADDING
                          /\ bounds_y (bounds t')
                             = bounds_y (bounds t) - bounds_y sel + PADDING
                          /\ width (bounds t') = width (bounds t)
                          /\ height (bounds t') = height (bounds t))
          /\ (forall p, pointInBounds p sel = true ->
                PADDING <= x (reoriginPoint sel p) <= export_width req - PADDING
                /\ PADDING <= y (reoriginPoint sel p)
                   <= export_height req - PADDING)
      else handleAnswerButtonClick hasContext strokes0 texts0 c = (c, None)
  end.
Proof.
  unfold handleAnswerButtonClick.
  destruct (selectionRect c) as [sel|]; [|reflexivity].
  destruct hasContext; [|reflexivity].
  eexists. split; [reflexivity|].
  cbn [export_bounds export_width export_height export_strokes export_texts].
  split; [reflexivity|]. split; [ring|]. split; [ring|].
  split; [rewrite map_map; reflexivity|].
  split; [rewrite map_map; reflexivity|].
  split; [|split].
  - intros s' Hs'. apply in_map_iff in Hs'. destruct Hs' as [s [Hs Hin]].
    apply filter_In in Hin. exists s. split; [apply Hin|symmetry; exact Hs].
  - intros t' Ht'. apply in_map_iff in Ht'. destruct Ht' as [t [Ht Hin]].
    apply filter_In in Hin. exists t. subst t'.
    cbn [text bounds bounds_x bounds_y width height].
    split; [apply Hin|]. repeat split; reflexivity.
  - intros p Hp. apply pointInBounds_spec in Hp.
    unfold reoriginPoint. cbn [x y]. unfold PADDING. lra.
Qed.

(** The answer button is anchored at the bottom-right corner of the
    selection: the client position [left], [top] it is given, measured
    from the canvas's corner, maps back to that corner in world space. *)
Theorem answer_button_sits_at_selection_corner
        (env : Env) (vt : ViewTransform) (c : CanvasState)
        (rect : DOMRect) (sel : Bounds) :
  canvas env = Some rect ->
  selectionRect c = Some sel ->
  scale vt <> 0 ->
  exists left top,
    getAnswerButtonPosition env vt c = Some (left, top)
    /\ getPointInWorldSpace env vt (rect_left rect + left) (rect_top rect + top)
       = {| x := bounds_x sel + width sel; y := bounds_y sel + height sel |}.
Proof.
  intros Hc Hs Hz. unfold getAnswerButtonPosition, getPointInWorldSpace.
  rewrite Hc, Hs. eexists. eexists. split; [reflexivity|].
  pose proof (dpr_of_nonzero env) as Hd.
  f_equal; field; auto.
Qed.

(** ** The ruled background *)

Lemma Math_trunc_int (v : R) : exists t : Z, Math_trunc v = IZR t.
Proof.
  unfold Math_trunc, Math_floor. destruct (Rlt_dec v 0).
  - exists (- Int_part (- v))%Z. rewrite opp_IZR. reflexivity.
  - eexists. reflexivity.
Qed.

Lemma Math_trunc_gt (v : R) : v - 1 < Math_trunc v.
Proof.
  unfold Math_trunc, Math_floor. destruct (Rlt_dec v 0).
  - pose proof (base_Int_part (- v)). lra.
  - pose proof (base_Int_part v). lra.
Qed.

Lemma num_rem_spec (a b : R) :
  0 < b -> exists t : Z, num_rem a b = a - b * IZR t /\ num_rem a b < b.
Proof.
  intros Hb. unfold num_rem.
  destruct (Math_trunc_int (a / b)) as [t Ht]. exists t.
  split; [rewrite Ht; reflexivity|].
  pose proof (Math_trunc_gt (a / b)) as Hg.
  assert (b * (a / b - 1) < b * Math_trunc (a / b)) by (apply Rmult_lt_compat_l; assumption).
  replace (b * (a / b - 1)) with (a - b) in H by (field; lra). lra.
Qed.

Lemma In_range_le (s : R) (k : nat) : In k (range_le s) <-> INR k <= s.
Proof.
  unfold range_le. destruct (Rlt_dec s 0) as [Hs|Hs].
  - split; [intros []|]. pose proof (pos_INR k). lra.
  - rewrite in_seq. pose proof (base_Int_part s) as [H1 H2].
    assert (H0 : (0 <= Int_part s)%Z).
    { apply le_IZR. apply Rnot_lt_le in Hs.
      destruct (Z_le_gt_dec 0 (Int_part s)) as [|Hn]; [apply IZR_le; assumption|].
      assert (Int_part s <= -1)%Z by lia. apply IZR_le in H. lra. }
    rewrite INR_IZR_INZ. split.
    + intros [_ Hk]. assert (Z.of_nat k <= Int_part s)%Z by lia.
      apply IZR_le in H. lra.
    + intros Hk. split; [lia|].
      assert (Z.of_nat k < Int_part s + 1)%Z.
      { apply lt_IZR. rewrite plus_IZR. lra. }
      lia.
Qed.

Lemma In_loop_le (first last step v : R) :
  0 < step ->
  In v (loop_le first last step)
  <-> exists k : nat, v = first + INR k * step /\ v <= last.
Proof.
  intros Hs. unfold loop_le. rewrite in_map_iff. split.
  - intros [k [Hk Hin]]. exists k. split; [auto|].
    apply In_range_le in Hin. subst v.
    apply (Rmult_le_compat_r step) in Hin; [|lra].
    replace ((last - first) / step * step) with (last - first) in Hin by (field; lra).
    lra.
  - intros [k [Hk Hle]]. exists k. split; [auto|]. apply In_range_le.
    apply (Rmult_le_reg_r step); [assumption|].
    replace ((last - first) / step * step) with (last - first) by (field; lra).
    lra.
Qed.

Lemma In_horizontals (rules : list Rule) (y0 : R) :
  In y0 (horizontals rules) <-> exists c w, In (Horizontal y0 c w) rules.
Proof.
  unfold horizontals. rewrite in_flat_map. split.
  - intros [r [Hr Hin]]. destruct r as [y1 c w|]; [|destruct Hin].
    destruct Hin as [Hin|[]]. subst. eauto.
  - intros [c [w Hin]]. eexists. split; [exact Hin|]. left. reflexivity.
Qed.

Lemma loop_rule_sound (S sc off last v : R) :
  0 < S -> 0 < sc ->
  In v (loop_le (num_rem off (S * sc) - S * sc) last (S * sc)) ->
  exists k : Z, v = S * IZR k * sc + off.
Proof.
  intros HS Hsc Hin.
  assert (Hls : 0 < S * sc) by (apply Rmult_lt_0_compat; assumption).
  apply In_loop_le in Hin; [|assumption].
  destruct Hin as [j [Hv _]].
  destruct (num_rem_spec off (S * sc) Hls) as [t [Ht _]].
  exists (Z.of_nat j - t - 1)%Z.
  rewrite Hv, Ht, !minus_IZR, <- INR_IZR_INZ. ring.
Qed.

Lemma loop_rule_complete (S sc off ch : R) (k : Z) :
  0 < S -> 0 < sc ->
  0 <= S * IZR k * sc + off <= ch ->
  In (S * IZR k * sc + off)
     (loop_le (num_rem off (S * sc) - S * sc) (ch + S * sc) (S * sc)).
Proof.
  intros HS Hsc [H0 Hch].
  assert (Hls : 0 < S * sc) by (apply Rmult_lt_0_compat; assumption).
  apply In_loop_le; [assumption|].
  destruct (num_rem_spec off (S * sc) Hls) as [t [Ht Hlt]].
  assert (Hpos : 0 < IZR (k + t + 1) * (S * sc)).
  { rewrite !plus_IZR. rewrite Ht in Hlt. lra. }
  assert (Hj : (0 < k + t + 1)%Z).
  { apply lt_IZR. apply (Rmult_lt_reg_r (S * sc)); [assumption|]. lra. }
  exists (Z.to_nat (k + t + 1)). split.
  - rewrite INR_IZR_INZ, Z2Nat.id by lia. rewrite Ht, !plus_IZR. ring.
  - lra.
Qed.

Lemma zoom_spacing (S sc : R) :
  25 <= S -> MIN_ZOOM <= sc -> num_lt (S * sc) 5 = false /\ 0 < sc.
Proof.
  unfold MIN_ZOOM, num_lt. intros HS Hsc.
  destruct (Rlt_dec (S * sc) 5) as [H|]; [|split; [reflexivity|lra]].
  exfalso. assert (25 * 0.2 <= S * sc) by (apply Rmult_le_compat; lra). lra.
Qed.

(** The ruling of the background is fixed to the page, not to the screen.
    Within the zoom range every ruled background is drawn, and its
    horizontal lines are exactly these: every line of the page's ruling
    (world ordinates that are multiples of 80 for the copybook, 50 for
    the grid, 60 for the borderline) that crosses the canvas is drawn at
    its device ordinate, and every horizontal line drawn is such a line
    or, on the copybook, the midline two device pixels above the middle
    between two of them. *)
Theorem background_ruling_is_fixed_to_the_page
        (canvas_width canvas_height : R) (style : CanvasStyle)
        (vt : ViewTransform) :
  MIN_ZOOM <= scale vt <= MAX_ZOOM ->
  backgroundType style <> plain ->
  let drawn := horizontals (drawBackground canvas_width canvas_height style vt) in
  let spacing := ruleSpacing (backgroundType style) in
  (forall k : Z,
      let y0 := spacing * IZR k * scale vt + offsetY vt in
      0 <= y0 <= canvas_height -> In y0 drawn)
  /\ (forall y0, In y0 drawn ->
        exists k : Z,
          (y0 - offsetY vt) / scale vt = spacing * IZR k
          \/ (backgroundType style = copybook
              /\ (y0 - offsetY vt) / scale vt
                 = spacing * IZR k + 40 - 2 / scale vt)).
Proof.
  intros [Hmin Hmax] Hbt drawn spacing. subst drawn spacing.
  unfold drawBackground.
  destruct (backgroundType style) eqn:Hb; [| | |congruence]; cbn [ruleSpacing].
  - destruct (zoom_spacing 80 (scale vt)) as [Hg Hsc]; [lra|assumption|].
    rewrite Hg. split.
    + intros k; cbv zeta; intros Hy. apply In_horizontals.
      exists "rgba(255, 128, 128, 0.4)"%string, 1.
      apply in_flat_map. eexists. split; [|left; reflexivity].
      apply (loop_rule_complete 80); [lra|assumption|exact Hy].
    + intros y0 Hin. apply In_horizontals in Hin.
      destruct Hin as [c [w Hin]]. apply in_flat_map in Hin.
      destruct Hin as [v [Hv Hin]].
      apply loop_rule_sound in Hv; [|lra|assumption].
      destruct Hv as [k Hk]. exists k.
      destruct Hin as [Hin|[Hin|[]]]; inversion Hin; subst.
      * left. field. lra.
      * right. split; [reflexivity|]. replace 0.5 with (/ 2) by lra. field. lra.
  - destruct (zoom_spacing 50 (scale vt)) as [Hg Hsc]; [lra|assumption|].
    rewrite Hg. split.
    + intros k; cbv zeta; intros Hy. apply In_horizontals.
      exists "rgba(0, 0, 0, 0.1)"%string, 1.
      apply in_or_app. right. apply in_map_iff.
      eexists. split; [reflexivity|].
      apply (loop_rule_complete 50); [lra|assumption|exact Hy].
    + intros y0 Hin. apply In_horizontals in Hin.
      destruct Hin as [c [w Hin]]. apply in_app_or in Hin.
      destruct Hin as [Hin|Hin]; apply in_map_iff in Hin;
        destruct Hin as [v [Hv Hin]]; [discriminate|].
      inversion Hv; subst.
      apply loop_rule_sound in Hin; [|lra|assumption].
      destruct Hin as [k Hk]. exists k. left. rewrite Hk. field. lra.
  - destruct (zoom_spacing 60 (scale vt)) as [Hg Hsc]; [lra|assumption|].
    rewrite Hg. split.
    + intros k; cbv zeta; intros Hy. apply In_horizontals.
      exists "rgba(0, 0, 255, 0.3)"%string, 1.
      apply in_or_app. left. apply in_map_iff.
      eexists. split; [reflexivity|].
      apply (loop_rule_complete 60); [lra|assumption|exact Hy].
    + intros y0 Hin. apply In_horizontals in Hin.
      destruct Hin as [c [w Hin]]. apply in_app_or in Hin.
      destruct Hin as [Hin|Hin].
      * apply in_map_iff in Hin. destruct Hin as [v [Hv Hin]].
        inversion Hv; subst.
        apply loop_rule_sound in Hin; [|lra|assumption].
        destruct Hin as [k Hk]. exists k. left. rewrite Hk. field. lra.
      * destruct (_ && _); [destruct Hin as [Hin|[]]|destruct Hin]; discriminate.
Qed.

(** ** Instances on concrete values *)

Lemma or_default_nonzero (v d : R) : v <> 0 -> or_default v d = v.
Proof. intros H. unfold or_default. destruct (Req_dec_T v 0); [contradiction|reflexivity]. Qed.

Lemma getDistance_lower (p q : Point) (d : R) :
  0 <= d -> d * d <= (x q - x p) ^ 2 + (y q - y p) ^ 2 -> d <= getDistance p q.
Proof.
  intros Hd Hsq. unfold getDistance, Math_sqrt, Math_pow2.
  rewrite <- (sqrt_square d Hd). apply sqrt_le_1_alt. exact Hsq.
Qed.

Lemma sample_point :
  getPointInWorldSpace sample_env initialViewTransform 0 0 = mkPoint 0 0.
Proof.
  unfold getPointInWorldSpace, sample_env, dpr_of; cbn.
  rewrite or_default_nonzero by lra. f_equal; field.
Qed.

Lemma wheel_zoom_anchoring_witness :
  zoom_in_range initialViewTransform
  /\ getPointInWorldSpace sample_env
       (handleWheel sample_env (mkWheelEvent 10 20 (-100)) initialViewTransform)
       10 20
     = getPointInWorldSpace sample_env initialViewTransform 10 20.
Proof.
  assert (H : zoom_in_range initialViewTransform)
    by (unfold zoom_in_range, MIN_ZOOM, MAX_ZOOM; cbn; lra).
  split; [exact H|].
  exact (proj1 (wheel_zoom_anchoring sample_env initialViewTransform 10 20 H)
               (-100)).
Defined.

Lemma commit_value_equal_idempotent_witness :
  History.present number_history = Some 2%nat
  /\ commit_number 2%nat number_history = number_history
  /\ commit_number 7%nat (commit_number 7%nat number_history)
     = commit_number 7%nat number_history
  /\ History.canRedo (commit_number 7%nat (commit_number 7%nat number_history))
     = false.
Proof.
  assert (Hp : History.present number_history = Some 2%nat) by reflexivity.
  pose proof (commit_value_equal_idempotent nat nat (fun n => n) Nat.eq_dec
                number_history 2%nat 2%nat Hp) as (H1 & _).
  pose proof (commit_value_equal_idempotent nat nat (fun n => n) Nat.eq_dec
                number_history 2%nat 7%nat Hp) as (_ & H2 & _ & _ & _ & H3).
  assert (Hne : 7%nat <> 2%nat) by discriminate.
  exact (conj Hp (conj (H1 eq_refl) (conj H2 (H3 (or_introl Hne))))).
Defined.

Lemma undo_redo_inverse_witness :
  History.wf number_history_tip
  /\ History.redo (History.undo number_history_tip) = number_history_tip
  /\ History.present (History.redo (History.undo number_history_tip))
     = History.present number_history_tip.
Proof.
  assert (Hwf : History.wf number_history_tip)
    by (unfold History.wf; cbn; lia).
  destruct (undo_redo_inverse nat number_history_tip Hwf) as (H1 & _).
  assert (Hi : (0 < History.index number_history_tip)%nat) by (cbn; lia).
  destruct (H1 Hi) as [E1 E2].
  exact (conj Hwf (conj E1 E2)).
Defined.

Lemma eraser_containment_witness :
  History.present sample_hist = Some sample_state
  /\ currentPage sample_state = Some sample_page
  /\ In far_stroke (strokes sample_page)
  /\ NoDup (map id (strokes sample_page))
  /\ exists st' page',
      History.present
        (eraseAtPoint sample_state sample_page (mkPoint 0 0)
                      (History.index sample_hist) sample_hist)
      = Some st'
      /\ currentPage st' = Some page'
      /\ (In far_stroke (strokes page')
          <-> ~ stroke_within
                  (eraser_size (eraser (toolSettings sample_state)) / 2)
                  (mkPoint 0 0) far_stroke).
Proof.
  assert (Hp : History.present sample_hist = Some sample_state) by reflexivity.
  assert (Hc : currentPage sample_state = Some sample_page) by reflexivity.
  assert (Hin : In far_stroke (strokes sample_page)) by (cbn; auto).
  assert (Hnd : NoDup (map id (strokes sample_page))).
  { cbn. repeat constructor; cbn; intuition discriminate. }
  destruct (eraser_containment sample_state sample_page sample_hist
                               (mkPoint 0 0) far_stroke Hp Hc Hin Hnd)
    as (st' & page' & H1 & H2 & H3 & _).
  exact (conj Hp (conj Hc (conj Hin (conj Hnd
           (ex_intro _ st' (ex_intro _ page' (conj H1 (conj H2 H3)))))))).
Defined.

Lemma select_release_discards_small_witness :
  on_screen selecting_world sample_state sample_page
  /\ tool selecting_world = tool_select
  /\ selectionRect (cv selecting_world) = Some small_rect
  /\ (width small_rect < 10 \/ height small_rect < 10)
  /\ selectionRect
       (cv (handlePointerUp sample_env sample_pointer selecting_world))
     = None.
Proof.
  assert (Hs : on_screen selecting_world sample_state sample_page)
    by (split; reflexivity).
  assert (Ht : tool selecting_world = tool_select) by reflexivity.
  assert (Hr : selectionRect (cv selecting_world) = Some small_rect)
    by reflexivity.
  assert (Hsmall : width small_rect < 10 \/ height small_rect < 10)
    by (left; cbn; lra).
  exact (conj Hs (conj Ht (conj Hr (conj Hsmall
           (proj1 (select_release_discards_small sample_env sample_pointer
                     selecting_world sample_state sample_page small_rect
                     Hs Ht Hr Hsmall)))))).
Defined.

Lemma erase_miss_changes_nothing_witness :
  on_screen erasing_world (state_with far_page) far_page
  /\ tool erasing_world = tool_eraser
  /\ (forall s, In s (strokes far_page) ->
                ~ stroke_within
                    (eraser_size (eraser (toolSettings (state_with far_page))) / 2)
                    (getPointInWorldSpace sample_env
                       (viewTransform (editor erasing_world))
                       (clientX sample_pointer) (clientY sample_pointer)) s)
  /\ (forall t, In t (texts far_page) ->
                ~ text_within
                    (eraser_size (eraser (toolSettings (state_with far_page))) / 2)
                    (getPointInWorldSpace sample_env
                       (viewTransform (editor erasing_world))
                       (clientX sample_pointer) (clientY sample_pointer)) t)
  /\ hist (editor (handlePointerDown sample_env sample_pointer erasing_world))
     = hist (editor erasing_world).
Proof.
  set (st := state_with far_page).
  set (point := getPointInWorldSpace sample_env
                  (viewTransform (editor erasing_world))
                  (clientX sample_pointer) (clientY sample_pointer)).
  set (r := eraser_size (eraser (toolSettings st)) / 2).
  assert (Hs : on_screen erasing_world st far_page) by (split; reflexivity).
  assert (Ht : tool erasing_world = tool_eraser) by reflexivity.
  assert (Hpt : point = mkPoint 0 0) by (apply sample_point).
  assert (Hr : r = 10) by (unfold r; cbn; lra).
  assert (Hst : forall s, In s (strokes far_page) -> ~ stroke_within r point s).
  { intros s [<-|[]] (p & Hp & Hlt). rewrite Hpt, Hr in Hlt.
    cbn [strokeWidth far_stroke] in Hlt.
    assert (100 <= getDistance p (mkPoint 0 0)); [|lra].
    apply getDistance_lower; [lra|].
    destruct Hp as [<-|[<-|[]]]; cbn; lra. }
  assert (Htx : forall t, In t (texts far_page) -> ~ text_within r point t).
  { intros t [<-|[]] (H1 & _). rewrite Hpt, Hr in H1. cbn in H1. lra. }
  destruct (erase_miss_changes_nothing sample_env sample_pointer erasing_world
                                       st far_page Hs Ht Hst Htx)
    as (_ & Hd & _).
  exact (conj Hs (conj Ht (conj Hst (conj Htx Hd)))).
Defined.


(** ** Instances of the further properties *)

Lemma Math_abs_of_nonneg (v : R) : 0 <= v -> Math_abs v = v.
Proof. intros H. unfold Math_abs. apply Rabs_pos_eq. exact H. Qed.

Lemma small_drag_is_rejected_witness :
  guarded circle = true
  /\ Math_abs (x (mkPoint 0.5 0.5) - x (mkPoint 0 0)) < 1
  /\ Math_abs (y (mkPoint 0.5 0.5) - y (mkPoint 0 0)) < 1
  /\ createStrokesForShape 1000 (mkPoint 0 0) (mkPoint 0.5 0.5) 5 "#333333"
                           circle = [].
Proof.
  assert (Hg : guarded circle = true) by reflexivity.
  assert (Hw : Math_abs (x (mkPoint 0.5 0.5) - x (mkPoint 0 0)) < 1)
    by (cbn [x]; rewrite Math_abs_of_nonneg; lra).
  assert (Hh : Math_abs (y (mkPoint 0.5 0.5) - y (mkPoint 0 0)) < 1)
    by (cbn [y]; rewrite Math_abs_of_nonneg; lra).
  exact (conj Hg (conj Hw (conj Hh
           (small_drag_is_rejected 1000 (mkPoint 0 0) (mkPoint 0.5 0.5) 5
                                   "#333333" circle Hg Hw Hh)))).
Defined.

Lemma triangle_is_equilateral_witness :
  2 <= getDistance (mkPoint 0 0) (mkPoint 3 4)
  /\ exists r : Point,
      createStrokesForShape 1000 (mkPoint 0 0) (mkPoint 3 4) 5 "#333333" triangle
      = [ stroke_of 5 "#333333" 1000 [ mkPoint 0 0; mkPoint 3 4; r; mkPoint 0 0 ] ]
      /\ getDistance (mkPoint 0 0) r = getDistance (mkPoint 0 0) (mkPoint 3 4)
      /\ getDistance (mkPoint 3 4) r = getDistance (mkPoint 0 0) (mkPoint 3 4).
Proof.
  assert (Hd : 2 <= getDistance (mkPoint 0 0) (mkPoint 3 4))
    by (apply getDistance_lower; [lra|cbn [x y]; lra]).
  exact (conj Hd (triangle_is_equilateral 1000 (mkPoint 0 0) (mkPoint 3 4) 5
                    "#333333" Hd)).
Defined.



Lemma ellipse_walk_is_on_ellipse_witness :
  (circle = circle \/ circle = oval)
  /\ 1 <= Math_abs (x (mkPoint 4 4) - x (mkPoint 0 0)) / 2
  /\ exists rest : list Point,
      createStrokesForShape 1000 (mkPoint 0 0) (mkPoint 4 4) 5 "#333333" circle
      = [ stroke_of 5 "#333333" 1000
            (mkPoint (x (mkPoint 0 0) + (x (mkPoint 4 4) - x (mkPoint 0 0)) / 2
                      + Math_abs (x (mkPoint 4 4) - x (mkPoint 0 0)) / 2)
                     (y (mkPoint 0 0) + (y (mkPoint 4 4) - y (mkPoint 0 0)) / 2)
             :: rest) ]
      /\ (32 <= length rest)%nat.
Proof.
  assert (Ht : circle = circle \/ circle = oval) by (left; reflexivity).
  assert (Hr : 1 <= Math_abs (x (mkPoint 4 4) - x (mkPoint 0 0)) / 2)
    by (cbn [x]; rewrite Math_abs_of_nonneg; lra).
  destruct (ellipse_walk_is_on_ellipse 1000 (mkPoint 0 0) (mkPoint 4 4) 5
              "#333333" circle Ht Hr Hr)
    as (rest & H1 & H2 & _).
  exact (conj Ht (conj Hr (ex_intro _ rest (conj H1 H2)))).
Defined.

Lemma commit_appends_and_undo_restores_witness :
  History.present number_history = Some 2%nat
  /\ 7%nat <> 2%nat
  /\ History.history (commit_number 7%nat number_history) = [1; 2; 7]%nat
  /\ History.present (History.undo (commit_number 7%nat number_history))
     = Some 2%nat.
Proof.
  assert (Hp : History.present number_history = Some 2%nat) by reflexivity.
  assert (Hne : 7%nat <> 2%nat) by discriminate.
  destruct (commit_appends_and_undo_restores nat nat (fun n => n) Nat.eq_dec
              number_history 2%nat 7%nat Hp Hne)
    as (H1 & _ & _ & _ & _ & H2 & _).
  exact (conj Hp (conj Hne (conj H1 H2))).
Defined.

Lemma page_update_touches_current_page_only_witness :
  currentPage sample_state = Some sample_page
  /\ currentPage (currentPageUpdater (fun _ => far_page) sample_state)
     = Some far_page
  /\ toolSettings (currentPageUpdater (fun _ => far_page) sample_state)
     = toolSettings sample_state.
Proof.
  assert (Hc : currentPage sample_state = Some sample_page) by reflexivity.
  destruct (page_update_touches_current_page_only (fun _ => far_page)
              sample_state sample_page Hc)
    as (H1 & _ & _ & _ & _ & H2 & _).
  exact (conj Hc (conj H1 H2)).
Defined.

Lemma delete_request_removes_exactly_witness :
  History.present sample_hist = Some sample_state
  /\ currentPage sample_state = Some sample_page
  /\ exists st' page',
      History.present
        (handleItemsDelete (History.index sample_hist) sample_delete sample_hist)
      = Some st'
      /\ currentPage st' = Some page'
      /\ (forall s, In s (strokes page')
                    <-> In s (strokes sample_page)
                        /\ ~ In (id s) (strokeIds sample_delete)).
Proof.
  assert (Hp : History.present sample_hist = Some sample_state) by reflexivity.
  assert (Hc : currentPage sample_state = Some sample_page) by reflexivity.
  destruct (delete_request_removes_exactly sample_delete sample_state
              sample_page sample_hist Hp Hc)
    as (st' & page' & H1 & H2 & _ & H3 & _).
  exact (conj Hp (conj Hc
           (ex_intro _ st' (ex_intro _ page' (conj H1 (conj H2 H3)))))).
Defined.

Lemma eraser_text_containment_witness :
  History.present sample_hist = Some sample_state
  /\ currentPage sample_state = Some sample_page
  /\ In far_text (texts sample_page)
  /\ NoDup (map text_id (texts sample_page))
  /\ exists st' page',
      History.present
        (eraseAtPoint sample_state sample_page (mkPoint 1010 1010)
                      (History.index sample_hist) sample_hist)
      = Some st'
      /\ currentPage st' = Some page'
      /\ (In far_text (texts page')
          <-> ~ text_within
                  (eraser_size (eraser (toolSettings sample_state)) / 2)
                  (mkPoint 1010 1010) far_text).
Proof.
  assert (Hp : History.present sample_hist = Some sample_state) by reflexivity.
  assert (Hc : currentPage sample_state = Some sample_page) by reflexivity.
  assert (Hin : In far_text (texts sample_page)) by (cbn; auto).
  assert (Hnd : NoDup (map text_id (texts sample_page))).
  { cbn. repeat constructor; cbn; intuition discriminate. }
  destruct (eraser_text_containment sample_state sample_page sample_hist
              (mkPoint 1010 1010) far_text Hp Hc Hin Hnd)
    as (st' & page' & H1 & H2 & H3).
  exact (conj Hp (conj Hc (conj Hin (conj Hnd
           (ex_intro _ st' (ex_intro _ page' (conj H1 (conj H2 H3)))))))).
Defined.

Lemma text_update_moves_only_that_text_witness :
  History.present sample_hist = Some sample_state
  /\ currentPage sample_state = Some sample_page
  /\ exists st' page',
      History.present
        (handleTextUpdate (History.index sample_hist) 3 small_rect sample_hist)
      = Some st'
      /\ currentPage st' = Some page'
      /\ strokes page' = strokes sample_page
      /\ map text (texts page') = map text (texts sample_page).
Proof.
  assert (Hp : History.present sample_hist = Some sample_state) by reflexivity.
  assert (Hc : currentPage sample_state = Some sample_page) by reflexivity.
  destruct (text_update_moves_only_that_text 3 small_rect sample_state
              sample_page sample_hist Hp Hc)
    as (st' & page' & H1 & H2 & H3 & _ & H4 & _).
  exact (conj Hp (conj Hc
           (ex_intro _ st' (ex_intro _ page'
              (conj H1 (conj H2 (conj H3 H4))))))).
Defined.

Lemma recognition_replaces_strokes_by_text_witness :
  History.present (hist (initEditor sample_state)) = Some sample_state
  /\ currentPage sample_state = Some sample_page
  /\ closure_index sample_closure = History.index (hist (initEditor sample_state))
  /\ exists st' newText,
      History.present
        (hist (handleRecognize_settle sample_closure 2000 small_rect
                 (Resolved "x = 2") (initEditor sample_state)))
      = Some st'
      /\ currentPage st'
         = Some {| page_id := page_id sample_page; strokes := [];
                   texts := texts sample_page ++ [newText] |}
      /\ text newText = "x = 2"%string.
Proof.
  assert (Hp : History.present (hist (initEditor sample_state))
               = Some sample_state) by reflexivity.
  assert (Hc : currentPage sample_state = Some sample_page) by reflexivity.
  assert (Hi : closure_index sample_closure
               = History.index (hist (initEditor sample_state)))
    by reflexivity.
  destruct (recognition_replaces_strokes_by_text sample_closure 2000
              small_rect "x = 2" (initEditor sample_state) sample_state
              sample_page Hp Hc Hi)
    as (st' & newText & H1 & H2 & _ & H3 & _).
  exact (conj Hp (conj Hc (conj Hi
           (ex_intro _ st' (ex_intro _ newText (conj H1 (conj H2 H3))))))).
Defined.


Lemma page_navigation_stays_in_range_witness :
  History.present sample_hist = Some sample_state
  /\ currentPage sample_state = Some sample_page
  /\ handleChangePage (History.index sample_hist) sample_state 1 sample_hist
     = sample_hist
  /\ onNext (History.index sample_hist) sample_state sample_hist = sample_hist.
Proof.
  assert (Hp : History.present sample_hist = Some sample_state) by reflexivity.
  assert (Hc : currentPage sample_state = Some sample_page) by reflexivity.
  destruct (page_navigation_stays_in_range sample_state sample_page sample_hist
              Hp Hc)
    as (H1 & _ & _ & _ & H2 & _).
  assert (Hout : (1 < 0 \/ Z.of_nat (length (pages sample_state)) <= 1)%Z)
    by (right; cbn; lia).
  exact (conj Hp (conj Hc (conj (H1 1%Z Hout) (H2 eq_refl)))).
Defined.

Lemma clear_is_confirmed_and_undoable_witness :
  History.present (hist (initEditor sample_state)) = Some sample_state
  /\ currentPage sample_state = Some sample_page
  /\ exists st',
      History.present (hist (handleClear 0 (initEditor sample_state))) = Some st'
      /\ currentPage st'
         = Some {| page_id := page_id sample_page; strokes := []; texts := [] |}
      /\ History.present
           (History.undo (hist (handleClear 0 (initEditor sample_state))))
         = Some sample_state.
Proof.
  assert (Hp : History.present (hist (initEditor sample_state))
               = Some sample_state) by reflexivity.
  assert (Hc : currentPage sample_state = Some sample_page) by reflexivity.
  destruct (clear_is_confirmed_and_undoable (initEditor sample_state)
              sample_state sample_page Hp Hc) as (_ & H).
  destruct (H (handleClear 0) eq_refl)
    as (st' & H1 & H2 & _ & _ & _ & _ & H3).
  exact (conj Hp (conj Hc (ex_intro _ st' (conj H1 (conj H2 H3))))).
Defined.

Lemma global_style_effect_restyles_once_witness :
  History.present sample_hist = Some sample_state
  /\ currentPage sample_state = Some sample_page
  /\ exists st1 page1,
      History.present
        (globalStyleEffect true (mkStyle "#ffffff" "Kalam" 32 plain)
                           (History.index sample_hist) sample_hist)
      = Some st1
      /\ currentPage st1 = Some page1
      /\ (forall t, In t (texts page1) ->
                    text_fontFamily t = "Kalam"%string /\ text_fontSize t = 32).
Proof.
  assert (Hp : History.present sample_hist = Some sample_state) by reflexivity.
  assert (Hc : currentPage sample_state = Some sample_page) by reflexivity.
  destruct (global_style_effect_restyles_once
              (mkStyle "#ffffff" "Kalam" 32 plain) sample_state sample_page
              sample_hist Hp Hc)
    as (st1 & page1 & H1 & H2 & _ & _ & _ & _ & H3 & _).
  exact (conj Hp (conj Hc
           (ex_intro _ st1 (ex_intro _ page1 (conj H1 (conj H2 H3)))))).
Defined.


Lemma pan_follows_the_pointer_witness :
  on_screen panning_world sample_state sample_page
  /\ tool panning_world = tool_hand
  /\ pointers (cv panning_world) = [ (pointerId text_release, mkPoint 0 0) ]
  /\ draggedItem (cv panning_world) = None
  /\ scale (viewTransform (editor panning_world)) <> 0
  /\ viewTransform (editor (handlePointerMove sample_env text_release
                                              panning_world))
     = {| scale := scale (viewTransform (editor panning_world));
          offsetX := offsetX (viewTransform (editor panning_world))
                     + movementX text_release * dpr_of sample_env;
          offsetY := offsetY (viewTransform (editor panning_world))
                     + movementY text_release * dpr_of sample_env |}.
Proof.
  assert (Hs : on_screen panning_world sample_state sample_page)
    by (split; reflexivity).
  assert (Ht : tool panning_world = tool_hand) by reflexivity.
  assert (Hps : pointers (cv panning_world)
                = [ (pointerId text_release, mkPoint 0 0) ]) by reflexivity.
  assert (Hd : draggedItem (cv panning_world) = None) by reflexivity.
  assert (Hz : scale (viewTransform (editor panning_world)) <> 0)
    by (cbn; lra).
  exact (conj Hs (conj Ht (conj Hps (conj Hd (conj Hz
           (proj1 (pan_follows_the_pointer sample_env text_release
                     panning_world sample_state sample_page (mkPoint 0 0)
                     Hs Ht Hps Hd Hz))))))).
Defined.


Lemma pointer_up_ends_the_gesture_witness :
  on_screen selecting_world sample_state sample_page
  /\ Map_has (pointers (cv (handlePointerUp sample_env sample_pointer
                                            selecting_world)))
             (pointerId sample_pointer) = false.
Proof.
  assert (Hs : on_screen selecting_world sample_state sample_page)
    by (split; reflexivity).
  exact (conj Hs
           (proj1 (pointer_up_ends_the_gesture sample_env sample_pointer
                     selecting_world sample_state sample_page Hs))).
Defined.

Lemma pen_gesture_adds_one_stroke_witness :
  on_screen pen_world sample_state sample_page
  /\ tool pen_world = tool_pen
  /\ pointers (cv pen_world) = []
  /\ draggedItem (cv pen_world) = None
  /\ (pointerType text_press <> mouse \/ button text_press = 0%Z)
  /\ Forall (fun m => pointerId (snd m) = pointerId text_press)
            [ (sample_env, text_release) ]
  /\ viewTransform
       (editor (run pen_world [ (sample_env, PointerDown text_press);
                                (sample_env, PointerMove text_release);
                                (sample_env, PointerUp text_release) ]))
     = viewTransform (editor pen_world).
Proof.
  assert (Hs : on_screen pen_world sample_state sample_page)
    by (split; reflexivity).
  assert (Ht : tool pen_world = tool_pen) by reflexivity.
  assert (Hps : pointers (cv pen_world) = []) by reflexivity.
  assert (Hd : draggedItem (cv pen_world) = None) by reflexivity.
  assert (Hb : pointerType text_press <> mouse \/ button text_press = 0%Z)
    by (right; reflexivity).
  assert (Hm : Forall (fun m => pointerId (snd m) = pointerId text_press)
                      [ (sample_env, text_release) ])
    by (constructor; [reflexivity|constructor]).
  exact (conj Hs (conj Ht (conj Hps (conj Hd (conj Hb (conj Hm
           (proj1 (pen_gesture_adds_one_stroke sample_env sample_env
                     text_press text_release [ (sample_env, text_release) ]
                     pen_world sample_state sample_page
                     Hs Ht Hps Hd Hb Hm)))))))).
Defined.




Lemma sample_export :
  exists req, recognitionEffect 1 [ near_stroke ] true = Some req.
Proof.
  unfold recognitionEffect, strokesExtent, near_stroke.
  cbn [Nat.ltb Nat.leb length andb fold_left points strokeWidth extendExtent
       x y minX minY maxX maxY width height].
  unfold num_le, Math_min, Math_max, Rmin, Rmax.
  repeat match goal with
         | |- context [Rle_dec ?a ?b] => destruct (Rle_dec a b); try lra
         end; cbn [orb]; eexists; reflexivity.
Qed.

Lemma recognition_export_is_padded_bounding_box_witness :
  exists req,
    recognitionEffect 1 [ near_stroke ] true = Some req
    /\ 0 < width (export_bounds req)
    /\ export_width req = width (export_bounds req) + 2 * PADDING.
Proof.
  destruct sample_export as [req Hreq].
  destruct (recognition_export_is_padded_bounding_box 1 [ near_stroke ] true
              req Hreq)
    as ((H1 & _) & _ & _ & H2 & _).
  exact (ex_intro _ req (conj Hreq (conj H1 H2))).
Defined.

Lemma answer_button_sits_at_selection_corner_witness :
  canvas sample_env = Some (mkRect 0 0)
  /\ selectionRect selecting_canvas = Some small_rect
  /\ scale initialViewTransform <> 0
  /\ exists left top,
      getAnswerButtonPosition sample_env initialViewTransform selecting_canvas
      = Some (left, top)
      /\ getPointInWorldSpace sample_env initialViewTransform
           (rect_left (mkRect 0 0) + left) (rect_top (mkRect 0 0) + top)
         = {| x := bounds_x small_rect + width small_rect;
              y := bounds_y small_rect + height small_rect |}.
Proof.
  assert (Hc : canvas sample_env = Some (mkRect 0 0)) by reflexivity.
  assert (Hr : selectionRect selecting_canvas = Some small_rect) by reflexivity.
  assert (Hz : scale initialViewTransform <> 0) by (cbn; lra).
  exact (conj Hc (conj Hr (conj Hz
           (answer_button_sits_at_selection_corner sample_env
              initialViewTransform selecting_canvas (mkRect 0 0) small_rect
              Hc Hr Hz)))).
Defined.

Lemma background_ruling_is_fixed_to_the_page_witness :
  MIN_ZOOM <= scale initialViewTransform <= MAX_ZOOM
  /\ backgroundType (canvasStyle (createInitialState 0)) <> plain
  /\ In 160 (horizontals (drawBackground 800 600
                            (canvasStyle (createInitialState 0))
                            initialViewTransform)).
Proof.
  assert (Hz : MIN_ZOOM <= scale initialViewTransform <= MAX_ZOOM)
    by (unfold MIN_ZOOM, MAX_ZOOM; cbn; lra).
  assert (Hb : backgroundType (canvasStyle (createInitialState 0)) <> plain)
    by discriminate.
  destruct (background_ruling_is_fixed_to_the_page 800 600
              (canvasStyle (createInitialState 0)) initialViewTransform Hz Hb)
    as (H1 & _).
  assert (Hy : 0 <= ruleSpacing copybook * IZR 2 * scale initialViewTransform
                    + offsetY initialViewTransform <= 600)
    by (cbn; lra).
  assert (E : ruleSpacing copybook * IZR 2 * scale initialViewTransform
              + offsetY initialViewTransform = 160) by (cbn; lra).
  rewrite <- E.
  exact (conj Hz (conj Hb (H1 2%Z Hy))).
Defined.
